(** * Capsule-network layers (capsnet.py): squash, margin loss, axis softmax,
      dynamic routing and the build-time rank checks.

    Modelling choices.
    - The tensor arithmetic of the program is carried out on real numbers:
      a tensor entry is either a real number or a non-finite value (the
      result of dividing by zero or of the square root of a negative number).
      Rounding and overflow of 32-bit floats are outside this model; what is
      proved in it holds of the program up to float32 rounding, and strict
      bounds and finiteness are not carried over to float32.
    - Module [F32] holds squash and the axis softmax a second time, on IEEE
      binary32 numbers, to show where float32 departs from the real numbers.
    - A tensor is its shape together with the function from positions to
      entries; an operand of extent 1 along an axis is broadcast.
    - Tensor operations are total: the shape mismatches and invalid axes that
      TensorFlow rejects are not modelled. The only errors are the program's
      own assertions and arithmetic on an unknown dimension in [build].
    - A routing procedure records the operations it calls in a trace.
    - The convolutions of the framework ([Conv2D.call], [Conv3D.call]) and the
      value of the dense layer's weight are arguments of the [call]
      functions; [tf.argmax] takes the first of several largest entries. *)

From Stdlib Require Import String DecimalString Reals Lra Lia ZArith Bool Arith List.
From Stdlib Require SpecFloat.
Import ListNotations.

Open Scope R_scope.

(** ** Scalars: a real number, or [None] for a non-finite value *)

Definition scalar : Type := option R.

Definition lift2 (f : R -> R -> R) (a b : scalar) : scalar :=
  match a, b with
  | Some x, Some y => Some (f x y)
  | _, _ => None
  end.

Definition sadd : scalar -> scalar -> scalar := lift2 Rplus.
Definition ssub : scalar -> scalar -> scalar := lift2 Rminus.
Definition smul : scalar -> scalar -> scalar := lift2 Rmult.
Definition smax : scalar -> scalar -> scalar := lift2 Rmax.

(** Division by zero gives a non-finite value. *)
Definition sdiv (a b : scalar) : scalar :=
  match a, b with
  | Some x, Some y => if Req_EM_T y 0 then None else Some (x / y)
  | _, _ => None
  end.

(** The square root of a negative number is not a number. *)
Definition ssqrt (a : scalar) : scalar :=
  match a with
  | Some x => if Rlt_dec x 0 then None else Some (sqrt x)
  | None => None
  end.

Definition sexp (a : scalar) : scalar := option_map exp a.
Definition ssquare (a : scalar) : scalar := smul a a.

(** ** Indices and shapes *)

(** A list given by its entries: [tabulate n g = [g 0; ...; g (n-1)]]. *)
Definition tabulate (n : nat) (g : nat -> nat) : list nat := map g (seq 0 n).

(** [upd idx a v]: the index [idx] with coordinate [a] replaced by [v]
    (unchanged when [a] is not a coordinate of [idx]). *)
Definition upd (idx : list nat) (a v : nat) : list nat :=
  tabulate (length idx) (fun k => if Nat.eqb k a then v else nth k idx 0%nat).

(** Python's [axis] argument: a negative axis counts from the end. *)
Definition norm_axis (rank : nat) (axis : Z) : nat :=
  Z.to_nat (if (axis <? 0)%Z then (Z.of_nat rank + axis)%Z else axis).

Definition mem (k : nat) (axes : list nat) : bool := existsb (Nat.eqb k) axes.

(** Shape of a reduction with [keepdims=True]: reduced axes get extent 1. *)
Definition kshape (shp : list nat) (axes : list nat) : list nat :=
  tabulate (length shp) (fun k => if mem k axes then 1%nat else nth k shp 0%nat).

(** Shape of a reduction over one axis without [keepdims]. *)
Definition dshape (shp : list nat) (a : nat) : list nat :=
  firstn a shp ++ skipn (S a) shp.

(** Index of the operand entry that a broadcast result entry reads: an axis
    of extent 1 is read at position 0. *)
Definition bidx (shp idx : list nat) : list nat :=
  tabulate (length idx)
    (fun k => if Nat.eqb (nth k shp 1%nat) 1 then 0%nat else nth k idx 0%nat).

(** Shape of the broadcast of two tensors: a missing axis counts as an axis
    of extent 1. *)
Definition bshape (sa sb : list nat) : list nat :=
  tabulate (Nat.max (length sa) (length sb))
    (fun k => if Nat.eqb (nth k sa 1%nat) 1 then nth k sb 1%nat else nth k sa 1%nat).

(** [idx] addresses an entry of a tensor of shape [shp]. *)
Definition in_range (shp idx : list nat) : Prop :=
  length idx = length shp /\
  forall k, (k < length shp)%nat -> (nth k idx 0 < nth k shp 0)%nat.

(** The axes paired with their extents. *)
Definition dims_of (shp : list nat) (axes : list nat) : list (nat * nat) :=
  map (fun a => (a, nth a shp 0%nat)) axes.

(** ** Folds over index ranges *)

(** [fold_n op e n g = g 0 `op` g 1 `op` ... `op` g (n-1)], and [e] when
    [n = 0]. *)
Fixpoint fold_n {A : Type} (op : A -> A -> A) (e : A) (n : nat) (g : nat -> A) : A :=
  match n with
  | O => e
  | S k =>
      match k with
      | O => g O
      | S _ => op (fold_n op e k g) (g k)
      end
  end.

(** Fold of [f] over all positions of the axes listed in [dims], the other
    coordinates being those of [idx]. *)
Fixpoint fold_over {A : Type} (op : A -> A -> A) (e : A)
    (dims : list (nat * nat)) (f : list nat -> A) (idx : list nat) : A :=
  match dims with
  | [] => f idx
  | (a, n) :: rest =>
      fold_n op e n (fun j => fold_over op e rest f (upd idx a j))
  end.

Definition rsum_n : nat -> (nat -> R) -> R := fold_n Rplus 0.
Definition rsum_over : list (nat * nat) -> (list nat -> R) -> list nat -> R :=
  fold_over Rplus 0.
Definition ssum_n : nat -> (nat -> scalar) -> scalar := fold_n sadd (Some 0).
Definition ssum_over : list (nat * nat) -> (list nat -> scalar) -> list nat -> scalar :=
  fold_over sadd (Some 0).

(** ** Tensors *)

Record tensor : Type := mkT { shape : list nat; at_ : list nat -> scalar }.

Definition rank (t : tensor) : nat := length (shape t).

(** A tensor all of whose entries are finite. *)
Definition of_real (shp : list nat) (f : list nat -> R) : tensor :=
  mkT shp (fun idx => Some (f idx)).

(** [tf.zeros(shape)] *)
Definition zeros (shp : list nat) : tensor := of_real shp (fun _ => 0).

(** Entry-wise unary operation. *)
Definition tmap (f : scalar -> scalar) (t : tensor) : tensor :=
  mkT (shape t) (fun idx => f (at_ t idx)).

(** Entry-wise binary operation with broadcasting. *)
Definition bop (f : scalar -> scalar -> scalar) (a b : tensor) : tensor :=
  mkT (bshape (shape a) (shape b))
      (fun idx => f (at_ a (bidx (shape a) idx)) (at_ b (bidx (shape b) idx))).

Definition tadd : tensor -> tensor -> tensor := bop sadd.
Definition tsub : tensor -> tensor -> tensor := bop ssub.
Definition tmul : tensor -> tensor -> tensor := bop smul.
Definition tdiv : tensor -> tensor -> tensor := bop sdiv.

(** The entry of [t] that position [idx] of a broadcast result reads. *)
Definition bval (t : tensor) (idx : list nat) : scalar :=
  at_ t (bidx (shape t) idx).

(** All entries of [t] are finite, with the values given by [g]. *)
Definition finite_on (t : tensor) (g : list nat -> R) : Prop :=
  forall idx, in_range (shape t) idx -> at_ t idx = Some (g idx).

(** Two indices that differ at most in the coordinates listed in [axes]. *)
Definition agree_off (axes : list nat) (i j : list nat) : Prop :=
  length i = length j /\
  forall k, mem k axes = false -> nth k i 0%nat = nth k j 0%nat.

Definition texp : tensor -> tensor := tmap sexp.
Definition tsquare : tensor -> tensor := tmap ssquare.
Definition tsqrt : tensor -> tensor := tmap ssqrt.

(** [tf.reduce_sum(t, axis=axes, keepdims=True)] *)
Definition reduce_sum_keep (t : tensor) (axes : list nat) : tensor :=
  mkT (kshape (shape t) axes)
      (fun idx => ssum_over (dims_of (shape t) axes) (at_ t) idx).

(** [tf.reduce_max(t, axis=axes, keepdims=True)]; the maximum over an empty
    range is not finite. *)
Definition reduce_max_keep (t : tensor) (axes : list nat) : tensor :=
  mkT (kshape (shape t) axes)
      (fun idx => fold_over smax None (dims_of (shape t) axes) (at_ t) idx).

(** [ins idx a v]: the index [idx] with [v] inserted as coordinate [a]. *)
Definition ins (idx : list nat) (a v : nat) : list nat :=
  firstn a idx ++ v :: skipn a idx.

(** [tf.reduce_mean(t, axis=a)] over one axis, the axis being dropped: the
    sum over the axis divided by its extent. *)
Definition reduce_mean (t : tensor) (a : nat) : tensor :=
  let n := nth a (shape t) 0%nat in
  mkT (dshape (shape t) a)
      (fun idx => sdiv (ssum_n n (fun j => at_ t (ins idx a j))) (Some (INR n))).

(** Number of entries of a tensor of shape [shp]. *)
Definition numel (shp : list nat) : nat := fold_right Nat.mul 1%nat shp.

(** [tf.reduce_mean(t)] over all axes: the sum of all entries divided by
    their number, a tensor of rank 0. *)
Definition reduce_mean_all (t : tensor) : tensor :=
  mkT []
      (fun _ =>
         sdiv (ssum_over (dims_of (shape t) (seq 0 (rank t))) (at_ t)
                 (repeat 0%nat (rank t)))
              (Some (INR (numel (shape t))))).

(** [a > b]; a comparison with a non-finite value is false. *)
Definition sgt (a b : scalar) : bool :=
  match a, b with
  | Some x, Some y => if Rlt_dec y x then true else false
  | _, _ => false
  end.

(** Position of the first largest of [g 0, ..., g (n-1)]. *)
Fixpoint argmax_n (n : nat) (g : nat -> scalar) : nat :=
  match n with
  | O => O
  | S k => let best := argmax_n k g in if sgt (g k) (g best) then k else best
  end.

(** [tf.argmax(t, axis=a)]: the axis is dropped, an entry is the position of
    the first largest entry along it (held as a real number). *)
Definition argmax (t : tensor) (a : nat) : tensor :=
  let n := nth a (shape t) 0%nat in
  mkT (dshape (shape t) a)
      (fun idx => Some (INR (argmax_n n (fun j => at_ t (ins idx a j))))).

(** Equality of two entries as a number: 1 for true, 0 for false; a
    non-finite value equals nothing. *)
Definition seq_ (a b : scalar) : scalar :=
  match a, b with
  | Some x, Some y => if Req_EM_T x y then Some 1 else Some 0
  | _, _ => Some 0
  end.

(** [tf.cast(tf.equal(a, b), tf.float32)] *)
Definition equal_as_float (a b : tensor) : tensor := bop seq_ a b.

(** Row-major position of the entry at [idx] in a tensor of shape [shp]. *)
Fixpoint ravel (shp idx : list nat) : nat :=
  match shp, idx with
  | _ :: ds, i :: rest => (i * numel ds + ravel ds rest)%nat
  | _, _ => 0%nat
  end.

(** The index of the entry at row-major position [n]. *)
Fixpoint unravel (shp : list nat) (n : nat) : list nat :=
  match shp with
  | [] => []
  | _ :: ds => (n / numel ds)%nat :: unravel ds (n mod numel ds)%nat
  end.

(** The shape [tf.reshape] gives for a requested shape: an entry -1 is
    replaced by the number of entries divided by the product of the others. *)
Definition resolve_shape (total : nat) (new_shape : list Z) : list nat :=
  let others :=
    numel (map Z.to_nat (filter (fun d => negb (d =? -1)%Z) new_shape)) in
  map (fun d => if (d =? -1)%Z then (total / others)%nat else Z.to_nat d)
      new_shape.

(** [tf.reshape(t, new_shape)]: the entries keep their row-major order. *)
Definition reshape (t : tensor) (new_shape : list Z) : tensor :=
  let shp := resolve_shape (numel (shape t)) new_shape in
  mkT shp (fun idx => at_ t (unravel (shape t) (ravel shp idx))).

(** [tf.expand_dims(t, axis)]: a new axis of extent 1; a negative axis counts
    from the end of the new shape. *)
Definition expand_dims (t : tensor) (axis : Z) : tensor :=
  let a := norm_axis (S (rank t)) axis in
  mkT (ins (shape t) a 1%nat) (fun idx => at_ t (dshape idx a)).

(** [tf.matmul(a, b)]: over the last two axes,
    [out[.., i, j] = sum_k a[.., i, k] * b[.., k, j]]. *)
Definition matmul (a b : tensor) : tensor :=
  let r := rank a in
  let row := (r - 2)%nat in
  let col := (r - 1)%nat in
  mkT (upd (shape a) col (nth col (shape b) 0%nat))
      (fun idx =>
         ssum_n (nth col (shape a) 0%nat)
           (fun k => smul (at_ a (upd idx col k)) (at_ b (upd idx row k)))).

(** A Python float used as an operand: a tensor of rank 0, broadcast against
    any tensor. *)
Definition const (x : R) : tensor := of_real [] (fun _ => x).

(** [tf.maximum] *)
Definition tmaximum : tensor -> tensor -> tensor := bop smax.

(** [tf.tile(t, multiples)] *)
Definition tile (t : tensor) (multiples : list nat) : tensor :=
  mkT (tabulate (rank t) (fun k => (nth k (shape t) 0 * nth k multiples 1)%nat))
      (fun idx =>
         at_ t (tabulate (length idx)
                  (fun k => (nth k idx 0 mod nth k (shape t) 1)%nat))).

(** [tf.matmul(a, b, transpose_a=True)]: over the last two axes,
    [out[.., i, j] = sum_k a[.., k, i] * b[.., k, j]]. *)
Definition matmul_transpose_a (a b : tensor) : tensor :=
  let r := rank b in
  let row := (r - 2)%nat in
  let col := (r - 1)%nat in
  mkT (upd (shape b) row (nth col (shape a) 0%nat))
      (fun idx =>
         ssum_n (nth row (shape b) 0%nat)
           (fun k => smul (at_ a (upd (upd idx col (nth row idx 0%nat)) row k))
                          (at_ b (upd idx row k)))).

(** [tf.einsum('pqrst,pqrtsu->pqrsu', a, b)] *)
Definition einsum_pqrst_pqrtsu (a b : tensor) : tensor :=
  mkT (firstn 4 (shape a) ++ [nth 5 (shape b) 0%nat])
      (fun idx =>
         match idx with
         | [p; q; r; s; u] =>
             ssum_n (nth 4 (shape a) 0%nat)
               (fun t => smul (at_ a [p; q; r; s; t]) (at_ b [p; q; r; t; s; u]))
         | _ => None
         end).

(** [tf.einsum('pqrst,pqrust->pqrsu', a, b)] *)
Definition einsum_pqrst_pqrust (a b : tensor) : tensor :=
  mkT (firstn 4 (shape a) ++ [nth 3 (shape b) 0%nat])
      (fun idx =>
         match idx with
         | [p; q; r; s; u] =>
             ssum_n (nth 4 (shape a) 0%nat)
               (fun t => smul (at_ a [p; q; r; s; t]) (at_ b [p; q; r; u; s; t]))
         | _ => None
         end).

(** ** Errors and the routing monad *)

Inductive error : Type :=
| RankError (got : nat)
| RoutingIterError
| SoftmaxAxesError (got : nat)
| UnknownDimError.

Definition string_of_nat (n : nat) : string :=
  NilEmpty.string_of_uint (Nat.to_uint n).

(** The message each assertion of the program carries; for an unknown
    dimension, the interpreter's complaint about the product. *)
Definition message (e : error) : string :=
  match e with
  | RankError got =>
      "Expected Tensor of Rank = 5, Got Rank = " ++ string_of_nat got
  | RoutingIterError => "Dynamic Routing should have >= 1 iterations"
  | SoftmaxAxesError got =>
      "Expected 3 dimensions to calculate softmax on, got "
        ++ string_of_nat got ++ " instead."
  | UnknownDimError => "unsupported operand type(s) for *"
  end.

Inductive result (A : Type) : Type :=
| Ok (a : A)
| Raise (e : error).
Arguments Ok {A} a.
Arguments Raise {A} e.

(** The tensor operations a routing procedure calls, in call order. *)
Inductive op : Type :=
| OpZeros | OpSoftmax | OpEinsum | OpSquash | OpAdd
| OpMultiply | OpReduceSum | OpTile | OpMatmul.

Definition op_eqb (a b : op) : bool :=
  match a, b with
  | OpZeros, OpZeros | OpSoftmax, OpSoftmax | OpEinsum, OpEinsum
  | OpSquash, OpSquash | OpAdd, OpAdd | OpMultiply, OpMultiply
  | OpReduceSum, OpReduceSum | OpTile, OpTile | OpMatmul, OpMatmul => true
  | _, _ => false
  end.

Definition trace : Type := list op.

(** Number of applications of [o] recorded in a trace. *)
Definition applications (o : op) (tr : trace) : nat :=
  length (filter (op_eqb o) tr).

(** A computation that may raise and that records the operations it calls. *)
Definition M (A : Type) : Type := trace -> result A * trace.

Definition ret {A : Type} (a : A) : M A := fun tr => (Ok a, tr).

Definition bind {A B : Type} (m : M A) (k : A -> M B) : M B :=
  fun tr =>
    match m tr with
    | (Ok a, tr') => k a tr'
    | (Raise e, tr') => (Raise e, tr')
    end.

Notation "x <- m ;; k" := (bind m (fun x => k))
  (at level 61, m at next level, right associativity).
Notation "m ;;; k" := (bind m (fun _ => k))
  (at level 61, right associativity).

(** An assertion: no operation is recorded. *)
Definition assert_that (b : bool) (e : error) : M unit :=
  fun tr => (if b then Ok tt else Raise e, tr).

(** Calling an operation records it. *)
Definition call {A : Type} (o : op) (r : result A) : M A :=
  fun tr => (r, tr ++ [o]).

(** [for _ in range(n): st = body(st)] *)
Fixpoint for_range {S : Type} (n : nat) (body : S -> M S) (st : S) : M S :=
  match n with
  | O => ret st
  | S k => st' <- body st ;; for_range k body st'
  end.

(** A Python variable that holds either the placeholder [...] or a tensor. *)
Inductive pyval : Type :=
| Ellipsis
| Tensor (t : tensor).

(** ** The program

    [epsilon] stands for [k.backend.epsilon()], the stability constant of the
    numerical backend. *)

Module Activations.

(** [Activations.squash] *)
Definition squash (epsilon : R) (_data : tensor) (axis : Z) : tensor :=
  let ax := norm_axis (rank _data) axis in
  let square_sum := reduce_sum_keep (tsquare _data) [ax] in
  let squash_factor := tdiv square_sum (tadd (const 1) square_sum) in
  let unit_vector := tdiv _data (tsqrt (tadd square_sum (const epsilon))) in
  tmul squash_factor unit_vector.

End Activations.

Module Losses.

(** [Losses.margin_loss] *)
Definition margin_loss (_y_true _y_pred : tensor) (_m_p _m_n _lambda : R) : tensor :=
  let p_err := tmaximum (const 0) (tsub (const _m_p) _y_pred) in
  let n_err := tmaximum (const 0) (tsub _y_pred (const _m_n)) in
  let p_loss := tmul _y_true (tsquare p_err) in
  let n_loss := tmul (tsub (const 1) _y_true) (tsquare n_err) in
  let total := tadd p_loss (tmul (const _lambda) n_loss) in
  reduce_mean total (norm_axis (rank total) (-1)).

(** [margin_loss] called with its default thresholds and weight. *)
Definition margin_loss_default (_y_true _y_pred : tensor) : tensor :=
  margin_loss _y_true _y_pred (9 / 10) (1 / 10) (1 / 2).

(** [Losses.reconstruction_loss] *)
Definition reconstruction_loss (_y_true _y_pred : tensor) : tensor :=
  reduce_mean_all (tsquare (tsub _y_true _y_pred)).

End Losses.

Module Metrics.

(** [Metrics.accuracy] *)
Definition accuracy (_y_true _y_pred : tensor) : tensor :=
  let _y_pred := argmax _y_pred (norm_axis (rank _y_pred) (-1)) in
  let _y_true := argmax _y_true (norm_axis (rank _y_true) (-1)) in
  let correct := equal_as_float _y_true _y_pred in
  reduce_mean_all correct.

End Metrics.

Module CapsConv2D.

Record t : Type := mk {
  caps_filters : nat;
  caps_dims : nat;
  filters : nat;
  kernel_size : nat
}.

(** [CapsConv2D.__init__]: the convolution gets caps_filters * caps_dims
    output channels. *)
Definition init (caps_filters caps_dims kernel_size : nat) : t :=
  mk caps_filters caps_dims (caps_filters * caps_dims) kernel_size.

(** [CapsConv2D.call]; [conv2d] is the convolution of the framework,
    [Conv2D.call] of this layer. *)
Definition call (epsilon : R) (conv2d : tensor -> tensor) (self : t)
    (inputs : tensor) : tensor :=
  let result := conv2d inputs in
  let result :=
    reshape result
      [(-1)%Z; Z.of_nat (nth 1 (shape result) 0%nat);
       Z.of_nat (nth 2 (shape result) 0%nat);
       Z.of_nat (nth 3 (shape result) 0%nat / caps_dims self);
       Z.of_nat (caps_dims self)] in
  Activations.squash epsilon result (-1).

End CapsConv2D.

(** [tf.nn.softmax(logits, axis)] *)
Definition tf_nn_softmax (logits : tensor) (axis : nat) : tensor :=
  let e := texp logits in
  tdiv e (reduce_sum_keep e [axis]).

(** Python's [shape[lo:hi]] *)
Definition slice {A : Type} (lo hi : nat) (l : list A) : list A :=
  firstn (hi - lo) (skipn lo l).

(** A [TensorShape] of known rank; [None] is a dimension of unknown size. *)
Definition tensor_shape : Type := list (option nat).

(** A layer attribute that holds the placeholder [...] until [build]. *)
Inductive attr : Type :=
| Unset
| Dim (d : option nat).

(** Product of two dimensions; Python raises on an unknown one. *)
Definition dim_mul (a b : option nat) : option nat :=
  match a, b with
  | Some x, Some y => Some (x * y)%nat
  | _, _ => None
  end.

(** All dimensions known. *)
Fixpoint known (s : tensor_shape) : option (list nat) :=
  match s with
  | [] => Some []
  | Some d :: rest => option_map (cons d) (known rest)
  | None :: _ => None
  end.

Module CapsConv.

Record t : Type := mk {
  caps_filters : nat;
  caps_dims : nat;
  routing_iter : Z;
  input_caps_filters : attr;
  input_caps_dims : attr;
  filters : nat;
  kernel_size : tensor_shape;
  strides : tensor_shape;
  kernel : option (list nat);
  input_spec_ndim : option nat;
  built : bool
}.

(** [CapsConv.__init__], with [kernel_size] and [strides] given as pairs. *)
Definition init (caps_filters caps_dims : nat) (routing_iter : Z)
    (kernel_size strides : nat * nat) : t :=
  mk caps_filters caps_dims routing_iter Unset Unset
     (caps_filters * caps_dims)
     [Some (fst kernel_size); Some (snd kernel_size); Some 1%nat]
     [Some (fst strides); Some (snd strides); Some 1%nat]
     None None false.

(** [Conv3D.build] of the framework: the kernel gets the shape
    [kernel_size + (input_channels, filters)] and the layer is marked built. *)
Definition conv3d_build (self : t) (input_shape : tensor_shape) : result unit * t :=
  match known (kernel_size self ++ [last input_shape None]) with
  | Some ks =>
      (Ok tt,
       mk (caps_filters self) (caps_dims self) (routing_iter self)
          (input_caps_filters self) (input_caps_dims self) (filters self)
          (kernel_size self) (strides self)
          (Some (ks ++ [filters self])) (Some (length input_shape)) true)
  | None => (Raise UnknownDimError, self)
  end.

(** [CapsConv.build] *)
Definition build (self : t) (input_shape : tensor_shape) : result unit * t :=
  if negb (Nat.eqb (length input_shape) 5) then
    (Raise (RankError (length input_shape)), self)
  else
    let icf := nth 3 input_shape None in
    let icd := nth 4 input_shape None in
    let self :=
      mk (caps_filters self) (caps_dims self) (routing_iter self)
         (Dim icf) (Dim icd) (filters self)
         (removelast (kernel_size self) ++ [icd])
         (removelast (strides self) ++ [icd])
         (kernel self) (input_spec_ndim self) (built self) in
    match dim_mul icf icd with
    | None => (Raise UnknownDimError, self)
    | Some channels =>
        match conv3d_build self (firstn 3 input_shape ++ [Some channels; Some 1%nat]) with
        | (Ok _, self) =>
            (Ok tt,
             mk (caps_filters self) (caps_dims self) (routing_iter self)
                (input_caps_filters self) (input_caps_dims self) (filters self)
                (kernel_size self) (strides self)
                (kernel self) (Some 5%nat) (built self))
        | (Raise e, self) => (Raise e, self)
        end
    end.

(** [CapsConv.softmax] *)
Definition softmax (data : tensor) (axis : list nat) : result tensor :=
  if Nat.eqb (length axis) 3 then
    let data_exp := texp data in
    let data_exp_sum := reduce_sum_keep data_exp axis in
    Ok (tdiv data_exp data_exp_sum)
  else Raise (SoftmaxAxesError (length axis)).

(** One pass of the loop of [CapsConv.dynamic_routing]; the loop state is
    [(w, routed_prediction)]. *)
Definition routing_body (epsilon : R) (prediction : tensor) (st : tensor * pyval)
  : M (tensor * pyval) :=
  let w := fst st in
  cc <- call OpSoftmax (softmax w [1; 2; 3]%nat) ;;
  routed_prediction <- call OpEinsum (Ok (einsum_pqrst_pqrtsu cc prediction)) ;;
  routed_prediction <-
    call OpSquash (Ok (Activations.squash epsilon routed_prediction (-1))) ;;
  agreement <-
    call OpEinsum (Ok (einsum_pqrst_pqrust routed_prediction prediction)) ;;
  w <- call OpAdd (Ok (tadd w agreement)) ;;
  ret (w, Tensor routed_prediction).

(** The zero routing weight of [CapsConv.dynamic_routing]. *)
Definition initial_weight (caps_filters input_caps_filters : nat)
    (prediction : tensor) : tensor :=
  let batch_size := nth 0 (shape prediction) 0%nat in
  zeros (batch_size :: slice 1 3 (shape prediction)
           ++ [caps_filters; input_caps_filters]).

(** [CapsConv.dynamic_routing] *)
Definition dynamic_routing (epsilon : R) (routing_iter : Z)
    (caps_filters input_caps_filters : nat) (prediction : tensor) : M pyval :=
  assert_that (0 <? routing_iter)%Z RoutingIterError ;;;
  w <- call OpZeros (Ok (initial_weight caps_filters input_caps_filters prediction)) ;;
  st <- for_range (Z.to_nat routing_iter) (routing_body epsilon prediction)
          (w, Ellipsis) ;;
  ret (snd st).

(** [CapsConv.call]; [conv3d] is the convolution of the framework,
    [Conv3D.call] of this layer. An attribute that [build] has not set to a
    number makes the shape arithmetic raise. *)
Definition call (epsilon : R) (conv3d : tensor -> tensor) (self : t)
    (inputs : tensor) : M pyval :=
  match input_caps_filters self, input_caps_dims self with
  | Dim (Some icf), Dim (Some icd) =>
      let new_shape :=
        (-1)%Z :: map Z.of_nat (slice 1 3 (shape inputs))
          ++ [Z.of_nat (icf * icd); 1%Z] in
      let inputs := reshape inputs new_shape in
      let result := conv3d inputs in
      let result :=
        reshape result
          ((-1)%Z :: map Z.of_nat (slice 1 4 (shape result))
             ++ [Z.of_nat (caps_filters self); Z.of_nat (caps_dims self)]) in
      dynamic_routing epsilon (routing_iter self) (caps_filters self) icf result
  | _, _ => fun tr => (Raise UnknownDimError, tr)
  end.

End CapsConv.

Module CapsDense.

Record t : Type := mk {
  caps : nat;
  caps_dims : nat;
  routing_iter : Z;
  input_caps : attr;
  input_caps_dims : attr;
  w : option (list nat);
  built : bool
}.

(** [CapsDense.__init__] *)
Definition init (caps caps_dims : nat) (routing_iter : Z) : t :=
  mk caps caps_dims routing_iter Unset Unset None false.

(** [CapsDense.build]; the weight is recorded by its shape. *)
Definition build (self : t) (input_shape : tensor_shape) : result unit * t :=
  if negb (Nat.eqb (length input_shape) 5) then
    (Raise (RankError (length input_shape)), self)
  else
    match dim_mul (dim_mul (nth 1 input_shape None) (nth 2 input_shape None))
                  (nth 3 input_shape None) with
    | None => (Raise UnknownDimError, self)
    | Some ic =>
        let icd := nth 4 input_shape None in
        let self :=
          mk (caps self) (caps_dims self) (routing_iter self)
             (Dim (Some ic)) (Dim icd) (w self) (built self) in
        match icd with
        | None => (Raise UnknownDimError, self)
        | Some d =>
            (Ok tt,
             mk (caps self) (caps_dims self) (routing_iter self)
                (input_caps self) (input_caps_dims self)
                (Some [1%nat; ic; caps self; caps_dims self; d]) true)
        end
    end.

(** [routing_step], local to [CapsDense.dynamic_routing] *)
Definition routing_step (epsilon : R) (_routing_weights _prediction : tensor)
  : M tensor :=
  prob_w <- call OpSoftmax (Ok (tf_nn_softmax _routing_weights 2)) ;;
  w_pred <- call OpMultiply (Ok (tmul prob_w _prediction)) ;;
  w_prediction_sum <- call OpReduceSum (Ok (reduce_sum_keep w_pred [1%nat])) ;;
  call OpSquash (Ok (Activations.squash epsilon w_prediction_sum (-2))).

(** One pass of the loop of [CapsDense.dynamic_routing]; the loop state is
    [(routing_weights, routed_prediction)]. *)
Definition routing_body (epsilon : R) (input_caps : nat) (prediction : tensor)
    (st : tensor * tensor) : M (tensor * tensor) :=
  let routing_weights := fst st in
  let routed_prediction := snd st in
  tiled <- call OpTile (Ok (tile routed_prediction [1; input_caps; 1; 1; 1]%nat)) ;;
  agreement <- call OpMatmul (Ok (matmul_transpose_a prediction tiled)) ;;
  routing_weights <- call OpAdd (Ok (tadd routing_weights agreement)) ;;
  routed_prediction <- routing_step epsilon routing_weights prediction ;;
  ret (routing_weights, routed_prediction).

(** [CapsDense.dynamic_routing] *)
Definition dynamic_routing (epsilon : R) (routing_iter : Z)
    (batch_size input_caps caps : nat) (prediction : tensor) : M tensor :=
  routing_weights <-
    call OpZeros (Ok (zeros [batch_size; input_caps; caps; 1; 1]%nat)) ;;
  routed_prediction <- routing_step epsilon routing_weights prediction ;;
  st <- for_range (Z.to_nat routing_iter) (routing_body epsilon input_caps prediction)
          (routing_weights, routed_prediction) ;;
  ret (snd st).

(** [CapsDense.call]; [weights] is the value of the layer's weight [w]. An
    attribute that [build] has not set to a number makes the reshape raise. *)
Definition call (epsilon : R) (weights : tensor) (self : t) (inputs : tensor)
  : M tensor :=
  match input_caps self, input_caps_dims self with
  | Dim (Some ic), Dim (Some icd) =>
      let batch_size := nth 0 (shape inputs) 0%nat in
      let inputs :=
        reshape inputs [Z.of_nat batch_size; Z.of_nat ic; Z.of_nat icd] in
      let inputs := expand_dims inputs (-1) in
      let inputs := expand_dims inputs 2 in
      let inputs := tile inputs [1; 1; caps self; 1; 1]%nat in
      let tiled_w := tile weights [batch_size; 1; 1; 1; 1]%nat in
      let prediction := matmul tiled_w inputs in
      routed_prediction <-
        dynamic_routing epsilon (routing_iter self) batch_size ic (caps self)
          prediction ;;
      ret (reshape routed_prediction
             [(-1)%Z; Z.of_nat (caps self); Z.of_nat (caps_dims self)])
  | _, _ => fun tr => (Raise UnknownDimError, tr)
  end.

(** A configuration value: a number, or the placeholder of an attribute
    that is not set. *)
Inductive config_value : Type :=
| CInt (z : Z)
| CAttr (a : attr).

(** [CapsDense.get_config]: the configuration of the base layer updated with
    the five entries of this layer. *)
Definition get_config (base_config : list (string * config_value)) (self : t)
  : list (string * config_value) :=
  let update (config : list (string * config_value)) (kv : string * config_value) :=
    kv :: filter (fun e => negb (String.eqb (fst e) (fst kv))) config in
  fold_left update
    [("caps"%string, CInt (Z.of_nat (caps self)));
     ("caps_dims"%string, CInt (Z.of_nat (caps_dims self)));
     ("routing_iter"%string, CInt (routing_iter self));
     ("input_caps"%string, CAttr (input_caps self));
     ("input_caps_dims"%string, CAttr (input_caps_dims self))]
    base_config.

End CapsDense.

(** ** Squash and the axis softmax in 32-bit floating point

    The same two functions on IEEE binary32 numbers (precision 24, largest
    exponent 128), with the arithmetic of [SpecFloat]: every operation rounds
    to the nearest float, ties to even, and overflows to an infinity. *)

Module F32.

Definition f32 : Type := SpecFloat.spec_float.

Definition prec : Z := 24.
Definition emax : Z := 128.

(** The float nearest to an integer. *)
Definition of_Z (z : Z) : f32 := SpecFloat.binary_normalize prec emax z 0 false.

Definition add : f32 -> f32 -> f32 := SpecFloat.SFadd prec emax.
Definition mul : f32 -> f32 -> f32 := SpecFloat.SFmul prec emax.
Definition div : f32 -> f32 -> f32 := SpecFloat.SFdiv prec emax.
Definition sqrt : f32 -> f32 := SpecFloat.SFsqrt prec emax.
Definition square (x : f32) : f32 := mul x x.

(** [a <= b] and [a == b]; both are false when an operand is not a number. *)
Definition leb : f32 -> f32 -> bool := SpecFloat.SFleb.
Definition eqb : f32 -> f32 -> bool := SpecFloat.SFeqb.

(** The real number a finite float holds (0 for an infinity and for NaN). *)
Definition to_R (x : f32) : R :=
  match x with
  | SpecFloat.S754_finite s m e =>
      (if s then -1 else 1) * IZR (Z.pos m) * powerRZ 2 e
  | _ => 0
  end.

(** The integer nearest to [x], ties to even. *)
Definition nearest_even (x : R) : Z :=
  let n := Int_part x in
  let d := x - IZR n in
  if Rlt_dec d (1 / 2) then n
  else if Rlt_dec (1 / 2) d then (n + 1)%Z
  else if Z.even n then n else (n + 1)%Z.

(** From [2^128 - 2^103] on, a magnitude rounds to an infinity: it is the
    midpoint of the largest float and [2^128]. *)
Definition overflow_threshold : R := IZR (2 ^ 128 - 2 ^ 103).

(** The float nearest to a real number. *)
Definition round (r : R) : f32 :=
  if Req_EM_T r 0 then SpecFloat.S754_zero false
  else
    let s := if Rlt_dec r 0 then true else false in
    let a := Rabs r in
    if Rle_dec overflow_threshold a then SpecFloat.S754_infinity s
    else
      let e := Z.max (Int_part (ln a / ln 2) - 23) (-149) in
      let m := nearest_even (a * powerRZ 2 (- e)) in
      SpecFloat.binary_normalize prec emax (if s then (- m)%Z else m) e s.

(** [tf.exp] on a float: the exponential, rounded to the nearest float. *)
Definition exp (x : f32) : f32 :=
  match x with
  | SpecFloat.S754_nan => SpecFloat.S754_nan
  | SpecFloat.S754_infinity false => SpecFloat.S754_infinity false
  | SpecFloat.S754_infinity true => SpecFloat.S754_zero false
  | SpecFloat.S754_zero _ => of_Z 1
  | SpecFloat.S754_finite _ _ _ => round (Rtrigo_def.exp (to_R x))
  end.

(** [k.backend.epsilon()]: the float nearest to 1e-07. *)
Definition epsilon : f32 := div (of_Z 1) (of_Z 10000000).

Record tensor : Type := mkT { shape : list nat; at_ : list nat -> f32 }.

Definition rank (t : tensor) : nat := length (shape t).

Definition const (x : f32) : tensor := mkT [] (fun _ => x).

Definition tmap (f : f32 -> f32) (t : tensor) : tensor :=
  mkT (shape t) (fun idx => f (at_ t idx)).

Definition bop (f : f32 -> f32 -> f32) (a b : tensor) : tensor :=
  mkT (bshape (shape a) (shape b))
      (fun idx => f (at_ a (bidx (shape a) idx)) (at_ b (bidx (shape b) idx))).

(** [tf.reduce_sum(t, axis=axes, keepdims=True)], the entries being added in
    the order of their positions. *)
Definition reduce_sum_keep (t : tensor) (axes : list nat) : tensor :=
  mkT (kshape (shape t) axes)
      (fun idx => fold_over add (of_Z 0) (dims_of (shape t) axes) (at_ t) idx).

(** [Activations.squash] *)
Definition squash (_data : tensor) (axis : Z) : tensor :=
  let ax := norm_axis (rank _data) axis in
  let square_sum := reduce_sum_keep (tmap square _data) [ax] in
  let squash_factor := bop div square_sum (bop add (const (of_Z 1)) square_sum) in
  let unit_vector := bop div _data (tmap sqrt (bop add square_sum (const epsilon))) in
  bop mul squash_factor unit_vector.

(** [CapsConv.softmax] *)
Definition softmax (data : tensor) (axis : list nat) : result tensor :=
  if Nat.eqb (length axis) 3 then
    let data_exp := tmap exp data in
    let data_exp_sum := reduce_sum_keep data_exp axis in
    Ok (bop div data_exp data_exp_sum)
  else Raise (SoftmaxAxesError (length axis)).

End F32.

(** ** Reference definitions the program is compared with *)

(** The axis softmax with the maximum over the normalised axes subtracted
    from the input first (the overflow protection the program leaves out). *)
Definition softmax_max_subtracted (data : tensor) (axis : list nat) : result tensor :=
  CapsConv.softmax (tsub data (reduce_max_keep data axis)) axis.

(** Squared length and length of the vector [v 0, ..., v (n-1)]. *)
Definition sq_norm (n : nat) (v : nat -> R) : R := rsum_n n (fun j => v j * v j).
Definition norm (n : nat) (v : nat -> R) : R := sqrt (sq_norm n v).

(** The per-example margin loss as the specification words it: 1/num_caps
    times the sum over the classes of
    [y_true * max(0, 0.9 - y_pred)^2 + 0.5 * (1 - y_true) * max(0, y_pred - 0.1)^2]. *)
Definition margin_loss_spec (num_caps : nat) (y_true y_pred : nat -> R) : R :=
  1 / INR num_caps *
  rsum_n num_caps
    (fun c => y_true c * (Rmax 0 (9 / 10 - y_pred c)) ^ 2
              + 5 / 10 * (1 - y_true c) * (Rmax 0 (y_pred c - 1 / 10)) ^ 2).

(** The same terms reduced by their sum instead of their mean. *)
Definition margin_loss_sum (num_caps : nat) (y_true y_pred : nat -> R) : R :=
  rsum_n num_caps
    (fun c => y_true c * (Rmax 0 (9 / 10 - y_pred c)) ^ 2
              + 5 / 10 * (1 - y_true c) * (Rmax 0 (y_pred c - 1 / 10)) ^ 2).

(** A one-hot row: 1 at class [k], 0 elsewhere. *)
Definition one_hot (k c : nat) : R := if Nat.eqb c k then 1 else 0.

(** The class an example is assigned: the position of the first largest
    entry of row [i] of a (batch, num_caps) array. *)
Definition predicted_class (num_caps : nat) (y : list nat -> R) (i : nat) : nat :=
  argmax_n num_caps (fun j => Some (y [i; j])).

(** The fraction of the examples whose two rows are assigned the same class. *)
Definition matching_fraction (batch num_caps : nat) (yt yp : list nat -> R) : R :=
  rsum_n batch
    (fun i => if Nat.eqb (predicted_class num_caps yt i)
                         (predicted_class num_caps yp i)
              then 1 else 0)
  / INR batch.

(** The number a finite entry holds (0 for a non-finite one). *)
Definition value (s : scalar) : R :=
  match s with
  | Some x => x
  | None => 0
  end.

(** The length squash gives a vector of squared length [ss]. *)
Definition squashed_length (epsilon ss : R) : R :=
  ss / (1 + ss) / sqrt (ss + epsilon) * sqrt ss.

(** [config[key]] of a configuration, if the key is present. *)
Definition config_get (key : string)
    (config : list (string * CapsDense.config_value))
  : option CapsDense.config_value :=
  option_map snd (find (fun e => String.eqb (fst e) key) config).

(** * Properties *)

(** ** Lists given by their entries *)

Lemma length_tabulate n g : length (tabulate n g) = n.
Proof. unfold tabulate. now rewrite length_map, length_seq. Qed.

Lemma nth_tabulate n g k d : (k < n)%nat -> nth k (tabulate n g) d = g k.
Proof.
  intros Hk. unfold tabulate.
  rewrite (nth_indep _ d (g 0%nat)) by now rewrite length_map, length_seq.
  rewrite map_nth, seq_nth by assumption. reflexivity.
Qed.

Lemma tabulate_nth l : tabulate (length l) (fun k => nth k l 0%nat) = l.
Proof.
  apply (nth_ext _ _ 0%nat 0%nat).
  - apply length_tabulate.
  - intros k Hk. rewrite length_tabulate in Hk.
    now rewrite nth_tabulate.
Qed.

Lemma length_upd idx a v : length (upd idx a v) = length idx.
Proof. apply length_tabulate. Qed.

Lemma nth_upd idx a v k :
  (k < length idx)%nat ->
  nth k (upd idx a v) 0%nat = if Nat.eqb k a then v else nth k idx 0%nat.
Proof. intros Hk. unfold upd. now rewrite nth_tabulate. Qed.

Lemma nth_upd_other idx a v k : k <> a -> nth k (upd idx a v) 0%nat = nth k idx 0%nat.
Proof.
  intros Hk. destruct (Nat.lt_ge_cases k (length idx)) as [H|H].
  - rewrite nth_upd by assumption. apply Nat.eqb_neq in Hk. now rewrite Hk.
  - rewrite !nth_overflow; trivial. now rewrite length_upd.
Qed.

Lemma length_bidx shp idx : length (bidx shp idx) = length idx.
Proof. apply length_tabulate. Qed.

Lemma mem_cons_false k a axes :
  mem k (a :: axes) = false -> k <> a /\ mem k axes = false.
Proof.
  unfold mem. simpl. intros H. apply orb_false_iff in H. destruct H as [H1 H2].
  split; [now apply Nat.eqb_neq | assumption].
Qed.

Lemma mem_true_iff k axes : mem k axes = true <-> In k axes.
Proof.
  unfold mem. rewrite existsb_exists. split.
  - intros [x [Hx He]]. apply Nat.eqb_eq in He. now subst.
  - intros H. exists k. split; [assumption | apply Nat.eqb_refl].
Qed.

(** ** Indices that agree off a set of axes *)

Lemma agree_off_refl axes i : agree_off axes i i.
Proof. split; trivial. Qed.

Lemma agree_off_sym axes i j : agree_off axes i j -> agree_off axes j i.
Proof. intros [H1 H2]. split; [easy|]. intros k Hk. symmetry. now apply H2. Qed.

Lemma agree_off_trans axes i j l :
  agree_off axes i j -> agree_off axes j l -> agree_off axes i l.
Proof.
  intros [H1 H2] [H3 H4]. split; [congruence|].
  intros k Hk. rewrite H2, H4; trivial.
Qed.

Lemma agree_off_nil i j : agree_off [] i j -> i = j.
Proof.
  intros [H1 H2]. apply (nth_ext _ _ 0%nat 0%nat); trivial.
  intros k _. now apply H2.
Qed.

Lemma agree_off_upd a axes i j v :
  agree_off (a :: axes) i j -> agree_off axes (upd i a v) (upd j a v).
Proof.
  intros [H1 H2]. split.
  - now rewrite !length_upd.
  - intros k Hk. destruct (Nat.eq_dec k a) as [->|Hne].
    + destruct (Nat.lt_ge_cases a (length i)) as [H|H].
      * rewrite !nth_upd by congruence. now rewrite Nat.eqb_refl.
      * rewrite !nth_overflow; trivial; rewrite length_upd; congruence.
    + rewrite !nth_upd_other by assumption. apply H2.
      unfold mem. simpl. apply Nat.eqb_neq in Hne. rewrite Hne. exact Hk.
Qed.

Lemma agree_off_upd_l a axes i v :
  In a axes -> agree_off axes (upd i a v) i.
Proof.
  intros Ha. split; [apply length_upd|].
  intros k Hk. apply nth_upd_other. intros ->.
  apply mem_true_iff in Ha. congruence.
Qed.

(** ** Folds *)

Lemma fold_n_ext {A} (op : A -> A -> A) e n g h :
  (forall j, (j < n)%nat -> g j = h j) -> fold_n op e n g = fold_n op e n h.
Proof.
  induction n as [|k IH]; intros H; [reflexivity|].
  destruct k as [|k'].
  - simpl. apply H. lia.
  - change (op (fold_n op e (S k') g) (g (S k')) = op (fold_n op e (S k') h) (h (S k'))).
    rewrite IH by (intros; apply H; lia). rewrite H by lia. reflexivity.
Qed.

Lemma fold_over_agree {A} (op : A -> A -> A) e dims f i j :
  agree_off (map fst dims) i j ->
  fold_over op e dims f i = fold_over op e dims f j.
Proof.
  revert i j. induction dims as [|[a n] rest IH]; intros i j H.
  - simpl in *. now rewrite (agree_off_nil _ _ H).
  - simpl. apply fold_n_ext. intros v _. apply IH. now apply agree_off_upd.
Qed.

(** A fold of finite values is the finite value of the real fold. *)
Lemma fold_n_lift (op : R -> R -> R) e e' n g h :
  ((0 < n)%nat \/ e = Some e') ->
  (forall j, (j < n)%nat -> g j = Some (h j)) ->
  fold_n (lift2 op) e n g = Some (fold_n op e' n h).
Proof.
  induction n as [|k IH]; intros Hn H.
  - simpl. destruct Hn as [Hn|Hn]; [lia | assumption].
  - destruct k as [|k'].
    + simpl. apply H. lia.
    + change (lift2 op (fold_n (lift2 op) e (S k') g) (g (S k'))
              = Some (op (fold_n op e' (S k') h) (h (S k')))).
      rewrite IH; [| left; lia | intros; apply H; lia].
      rewrite H by lia. reflexivity.
Qed.

Lemma fold_over_lift (op : R -> R -> R) e e' dims f h (P : list nat -> Prop) :
  (forall a n, In (a, n) dims -> (0 < n)%nat \/ e = Some e') ->
  (forall i a n v, In (a, n) dims -> (v < n)%nat -> P i -> P (upd i a v)) ->
  (forall i, P i -> f i = Some (h i)) ->
  forall idx, P idx ->
  fold_over (lift2 op) e dims f idx = Some (fold_over op e' dims h idx).
Proof.
  intros Hpos Hupd Hf. induction dims as [|[a n] rest IH]; intros idx Hidx.
  - simpl. now apply Hf.
  - simpl. apply fold_n_lift.
    + apply (Hpos a n). now left.
    + intros v Hv. apply IH.
      * intros a' n' Hin. apply (Hpos a' n'). now right.
      * intros i a' n' v' Hin. apply Hupd. now right.
      * apply (Hupd idx a n v); trivial. now left.
Qed.

(** ** Real sums *)

Lemma rsum_n_S n g : rsum_n (S n) g = rsum_n n g + g n.
Proof.
  unfold rsum_n. destruct n as [|k]; [simpl; lra | reflexivity].
Qed.

Lemma rsum_n_scal n g c : rsum_n n (fun j => g j * c) = rsum_n n g * c.
Proof.
  induction n as [|k IH]; [unfold rsum_n; simpl; lra|].
  rewrite !rsum_n_S, IH. lra.
Qed.

Lemma rsum_n_pos n g :
  (0 < n)%nat -> (forall j, (j < n)%nat -> 0 < g j) -> 0 < rsum_n n g.
Proof.
  induction n as [|k IH]; intros Hn H; [lia|].
  rewrite rsum_n_S. destruct k as [|k'].
  - unfold rsum_n at 1. simpl. assert (0 < g 0%nat) by (apply H; lia). lra.
  - assert (0 < rsum_n (S k') g) by (apply IH; [lia | intros; apply H; lia]).
    assert (0 < g (S k')) by (apply H; lia). lra.
Qed.

Lemma rsum_n_nonneg n g :
  (forall j, (j < n)%nat -> 0 <= g j) -> 0 <= rsum_n n g.
Proof.
  induction n as [|k IH]; intros H; [unfold rsum_n; simpl; lra|].
  rewrite rsum_n_S.
  assert (0 <= rsum_n k g) by (apply IH; intros; apply H; lia).
  assert (0 <= g k) by (apply H; lia). lra.
Qed.

Lemma rsum_n_zero n g :
  (forall j, (j < n)%nat -> g j = 0) -> rsum_n n g = 0.
Proof.
  induction n as [|k IH]; intros H; [reflexivity|].
  rewrite rsum_n_S, IH, H by (intros; try apply H; lia). lra.
Qed.

Lemma rsum_over_scal dims h c idx :
  rsum_over dims (fun i => h i * c) idx = rsum_over dims h idx * c.
Proof.
  revert idx. induction dims as [|[a n] rest IH]; intros idx; [reflexivity|].
  unfold rsum_over in *. simpl.
  rewrite (fold_n_ext _ _ _ _ (fun j => fold_over Rplus 0 rest h (upd idx a j) * c))
    by (intros; apply IH).
  apply rsum_n_scal.
Qed.

Lemma rsum_over_pos dims h idx :
  (forall a n, In (a, n) dims -> (0 < n)%nat) ->
  (forall i, 0 < h i) -> 0 < rsum_over dims h idx.
Proof.
  intros Hpos Hh. revert idx.
  induction dims as [|[a n] rest IH]; intros idx; [apply Hh|].
  unfold rsum_over in *. simpl. apply rsum_n_pos.
  - apply (Hpos a n). now left.
  - intros j _. apply IH. intros a' n' Hin. apply (Hpos a' n'). now right.
Qed.

Lemma fold_over_ext {A} (op : A -> A -> A) e dims f h (P : list nat -> Prop) :
  (forall i a n v, In (a, n) dims -> (v < n)%nat -> P i -> P (upd i a v)) ->
  (forall i, P i -> f i = h i) ->
  forall idx, P idx -> fold_over op e dims f idx = fold_over op e dims h idx.
Proof.
  intros Hupd Hf. induction dims as [|[a n] rest IH]; intros idx Hidx.
  - simpl. now apply Hf.
  - simpl. apply fold_n_ext. intros v Hv. apply IH.
    + intros i a' n' v' Hin. apply Hupd. now right.
    + apply (Hupd idx a n v); trivial. now left.
Qed.

(** ** Shapes, ranges and broadcasting *)

Lemma in_range_upd shp i a v :
  in_range shp i -> (v < nth a shp 0)%nat -> in_range shp (upd i a v).
Proof.
  intros [Hl Hr] Hv. split; [now rewrite length_upd|].
  intros k Hk. rewrite nth_upd by lia.
  destruct (Nat.eqb_spec k a) as [->|_]; [assumption | now apply Hr].
Qed.

Lemma in_range_pos shp i a : in_range shp i -> (a < length shp)%nat -> (0 < nth a shp 0)%nat.
Proof. intros [_ Hr] Ha. specialize (Hr a Ha). lia. Qed.

Lemma in_dims_of shp axes a n :
  In (a, n) (dims_of shp axes) -> In a axes /\ n = nth a shp 0%nat.
Proof.
  unfold dims_of. rewrite in_map_iff. intros [x [Hx Hin]].
  inversion Hx; subst. now split.
Qed.

Lemma map_fst_dims_of shp axes : map fst (dims_of shp axes) = axes.
Proof.
  unfold dims_of. rewrite map_map. simpl. apply map_id.
Qed.

Lemma bidx_in_range shp i : in_range shp i -> bidx shp i = i.
Proof.
  intros [Hl Hr]. apply (nth_ext _ _ 0%nat 0%nat); [apply length_bidx|].
  intros k Hk. rewrite length_bidx in Hk. unfold bidx.
  rewrite nth_tabulate by assumption.
  destruct (Nat.eqb_spec (nth k shp 1%nat) 1) as [E|_]; trivial.
  rewrite (nth_indep _ 1%nat 0%nat) in E by lia.
  assert (nth k i 0 < nth k shp 0)%nat by (apply Hr; lia). lia.
Qed.

Lemma nth_bshape sa sb k :
  nth k (bshape sa sb) 1%nat
  = if Nat.eqb (nth k sa 1%nat) 1 then nth k sb 1%nat else nth k sa 1%nat.
Proof.
  unfold bshape.
  destruct (Nat.lt_ge_cases k (Nat.max (length sa) (length sb))) as [H|H].
  - now rewrite nth_tabulate.
  - rewrite nth_overflow by now rewrite length_tabulate.
    rewrite (nth_overflow sa), (nth_overflow sb) by lia. reflexivity.
Qed.

Lemma bidx_bshape_l sa sb i : bidx sa (bidx (bshape sa sb) i) = bidx sa i.
Proof.
  apply (nth_ext _ _ 0%nat 0%nat); [now rewrite !length_bidx|].
  intros k Hk. rewrite !length_bidx in Hk. unfold bidx at 1 3.
  rewrite length_bidx, !nth_tabulate by assumption.
  destruct (Nat.eqb_spec (nth k sa 1%nat) 1) as [E|E]; trivial.
  unfold bidx. rewrite nth_tabulate by assumption. rewrite nth_bshape.
  apply Nat.eqb_neq in E. now rewrite !E.
Qed.

Lemma bidx_bshape_r sa sb i : bidx sb (bidx (bshape sa sb) i) = bidx sb i.
Proof.
  apply (nth_ext _ _ 0%nat 0%nat); [now rewrite !length_bidx|].
  intros k Hk. rewrite !length_bidx in Hk. unfold bidx at 1 3.
  rewrite length_bidx, !nth_tabulate by assumption.
  destruct (Nat.eqb_spec (nth k sb 1%nat) 1) as [E|E]; trivial.
  unfold bidx. rewrite nth_tabulate by assumption. rewrite nth_bshape.
  destruct (Nat.eqb_spec (nth k sa 1%nat) 1) as [E'|E'].
  - apply Nat.eqb_neq in E. now rewrite E.
  - apply Nat.eqb_neq in E'. now rewrite E'.
Qed.

Lemma bshape_nil_l s : bshape [] s = s.
Proof.
  apply (nth_ext _ _ 1%nat 1%nat); [unfold bshape; now rewrite length_tabulate|].
  intros k _. rewrite nth_bshape. now destruct k.
Qed.

Lemma bshape_nil_r s : bshape s [] = s.
Proof.
  apply (nth_ext _ _ 1%nat 1%nat).
  - unfold bshape. rewrite length_tabulate. simpl. lia.
  - intros k _. rewrite nth_bshape.
    destruct (Nat.eqb_spec (nth k s 1%nat) 1) as [E|E]; trivial.
    rewrite E. now destruct k.
Qed.

Lemma bshape_same s : bshape s s = s.
Proof.
  apply (nth_ext _ _ 1%nat 1%nat).
  - unfold bshape. rewrite length_tabulate. lia.
  - intros k _. rewrite nth_bshape. now destruct (Nat.eqb (nth k s 1%nat) 1).
Qed.

Lemma length_kshape shp axes : length (kshape shp axes) = length shp.
Proof. apply length_tabulate. Qed.

Lemma nth_kshape shp axes k :
  (k < length shp)%nat ->
  nth k (kshape shp axes) 1%nat = if mem k axes then 1%nat else nth k shp 1%nat.
Proof.
  intros Hk. unfold kshape. rewrite nth_tabulate by assumption.
  destruct (mem k axes); trivial. apply nth_indep. assumption.
Qed.

Lemma bshape_kshape shp axes : bshape shp (kshape shp axes) = shp.
Proof.
  apply (nth_ext _ _ 1%nat 1%nat).
  - unfold bshape. rewrite length_tabulate, length_kshape. lia.
  - intros k Hk. unfold bshape in Hk.
    rewrite length_tabulate, length_kshape, Nat.max_id in Hk.
    rewrite nth_bshape, nth_kshape by assumption.
    destruct (Nat.eqb_spec (nth k shp 1%nat) 1) as [E|E]; trivial.
    now destruct (mem k axes).
Qed.

Lemma bshape_kshape_l shp axes : bshape (kshape shp axes) shp = shp.
Proof.
  apply (nth_ext _ _ 1%nat 1%nat).
  - unfold bshape. rewrite length_tabulate, length_kshape. lia.
  - intros k Hk. unfold bshape in Hk.
    rewrite length_tabulate, length_kshape, Nat.max_id in Hk.
    rewrite nth_bshape, nth_kshape by assumption.
    destruct (mem k axes); simpl; trivial.
    destruct (Nat.eqb_spec (nth k shp 1%nat) 1) as [E|E]; congruence.
Qed.

(** Broadcasting a [keepdims] reduction back: the position read differs from
    the position written only in the reduced coordinates. *)
Lemma bidx_kshape shp axes i :
  in_range shp i ->
  agree_off axes (bidx (kshape shp axes) i) i /\ in_range shp (bidx (kshape shp axes) i).
Proof.
  intros [Hl Hr]. split; [split|split].
  - apply length_bidx.
  - intros k Hk. destruct (Nat.lt_ge_cases k (length i)) as [H|H].
    + unfold bidx. rewrite nth_tabulate by assumption.
      rewrite nth_kshape, Hk by lia.
      destruct (Nat.eqb_spec (nth k shp 1%nat) 1) as [E|_]; trivial.
      rewrite (nth_indep _ 1%nat 0%nat) in E by lia.
      assert (nth k i 0 < nth k shp 0)%nat by (apply Hr; lia). lia.
    + rewrite !nth_overflow; trivial. now rewrite length_bidx.
  - now rewrite length_bidx.
  - intros k Hk. unfold bidx. rewrite nth_tabulate by lia.
    specialize (Hr k Hk).
    destruct (Nat.eqb (nth k (kshape shp axes) 1%nat) 1); lia.
Qed.

(** ** Entries of tensor expressions *)

Lemma bval_bop f a b i : bval (bop f a b) i = f (bval a i) (bval b i).
Proof.
  unfold bval, bop. simpl. now rewrite bidx_bshape_l, bidx_bshape_r.
Qed.

Lemma bval_tmap f t i : bval (tmap f t) i = f (bval t i).
Proof. reflexivity. Qed.

Lemma bval_const c i : bval (const c) i = Some c.
Proof. reflexivity. Qed.

Lemma at_bval t i : in_range (shape t) i -> at_ t i = bval t i.
Proof. intros H. unfold bval. now rewrite bidx_in_range. Qed.

Lemma bval_finite t g i : finite_on t g -> in_range (shape t) i -> bval t i = Some (g i).
Proof. intros Hf Hi. rewrite <- at_bval by assumption. now apply Hf. Qed.

Lemma finite_of_real shp f : finite_on (of_real shp f) f.
Proof. intros i _. reflexivity. Qed.

Lemma bval_reduce_sum t g axes i :
  finite_on t g -> in_range (shape t) i ->
  bval (reduce_sum_keep t axes) i = Some (rsum_over (dims_of (shape t) axes) g i).
Proof.
  intros Hf Hi. unfold bval, reduce_sum_keep. simpl.
  destruct (bidx_kshape (shape t) axes i Hi) as [Hag Hin].
  unfold ssum_over, sadd.
  rewrite (fold_over_lift Rplus (Some 0) 0 _ _ g (in_range (shape t))); trivial.
  - f_equal. apply fold_over_agree. now rewrite map_fst_dims_of.
  - intros. now right.
  - intros j a n v Hd Hv Hj. apply in_dims_of in Hd. destruct Hd as [_ ->].
    now apply in_range_upd.
Qed.

Lemma bval_reduce_max t g axes i :
  finite_on t g -> in_range (shape t) i ->
  (forall a, In a axes -> (a < rank t)%nat) ->
  bval (reduce_max_keep t axes) i
  = Some (fold_over Rmax 0 (dims_of (shape t) axes) g i).
Proof.
  intros Hf Hi Hax. unfold bval, reduce_max_keep. simpl.
  destruct (bidx_kshape (shape t) axes i Hi) as [Hag Hin].
  unfold smax.
  rewrite (fold_over_lift Rmax None 0 _ _ g (in_range (shape t))); trivial.
  - f_equal. apply fold_over_agree. now rewrite map_fst_dims_of.
  - intros a n Hd. apply in_dims_of in Hd. destruct Hd as [Ha ->]. left.
    apply (in_range_pos _ i); auto.
  - intros j a n v Hd Hv Hj. apply in_dims_of in Hd. destruct Hd as [_ ->].
    now apply in_range_upd.
Qed.

(** ** Exponential normalisation: [exp(x) / sum(exp(x))] over a set of axes *)

Section ExpNormalise.

Variable t : tensor.
Variable g : list nat -> R.
Variable axes : list nat.
Hypothesis t_finite : finite_on t g.
Hypothesis axes_valid : forall a, In a axes -> (a < rank t)%nat.

Let dims := dims_of (shape t) axes.
Let normalised := tdiv (texp t) (reduce_sum_keep (texp t) axes).
Let total (i : list nat) : R := rsum_over dims (fun j => exp (g j)) i.

Lemma texp_finite : finite_on (texp t) (fun j => exp (g j)).
Proof. intros i Hi. unfold texp, tmap. simpl. now rewrite t_finite. Qed.

Lemma normalised_shape : shape normalised = shape t.
Proof. unfold normalised, tdiv, bop. simpl. apply bshape_kshape. Qed.

Lemma total_pos i : in_range (shape t) i -> 0 < total i.
Proof.
  intros Hi. apply rsum_over_pos.
  - intros a n Hd. apply in_dims_of in Hd. destruct Hd as [Ha ->].
    apply (in_range_pos _ i); auto.
  - intros j. apply exp_pos.
Qed.

Lemma total_agree i j : agree_off axes i j -> total i = total j.
Proof.
  intros H. apply fold_over_agree. unfold dims. now rewrite map_fst_dims_of.
Qed.

Lemma normalised_entry i :
  in_range (shape t) i -> at_ normalised i = Some (exp (g i) / total i).
Proof.
  intros Hi. rewrite at_bval by now rewrite normalised_shape.
  unfold normalised, tdiv. rewrite bval_bop.
  rewrite (bval_finite _ _ _ texp_finite) by assumption.
  rewrite (bval_reduce_sum _ _ _ _ texp_finite) by assumption.
  simpl. fold dims. fold (total i).
  destruct (Req_EM_T (total i) 0) as [E|_]; trivial.
  pose proof (total_pos i Hi). lra.
Qed.

Lemma normalised_nonneg i :
  in_range (shape t) i -> exists c, at_ normalised i = Some c /\ 0 < c.
Proof.
  intros Hi. exists (exp (g i) / total i). split; [now apply normalised_entry|].
  apply Rdiv_lt_0_compat; [apply exp_pos | now apply total_pos].
Qed.

Lemma normalised_sum i :
  in_range (shape t) i -> ssum_over dims (at_ normalised) i = Some 1.
Proof.
  intros Hi. unfold ssum_over, sadd.
  rewrite (fold_over_lift Rplus (Some 0) 0 _ _
             (fun j => exp (g j) * / total i)
             (fun j => in_range (shape t) j /\ agree_off axes j i)).
  - f_equal. change (rsum_over dims (fun j => exp (g j) * / total i) i = 1).
    rewrite rsum_over_scal. fold (total i).
    pose proof (total_pos i Hi). now apply Rinv_r, Rgt_not_eq.
  - intros. now right.
  - intros j a n v Hd Hv [Hj Hag]. apply in_dims_of in Hd. destruct Hd as [Ha ->].
    split; [now apply in_range_upd|].
    apply (agree_off_trans _ _ j); trivial. now apply agree_off_upd_l.
  - intros j [Hj Hag]. rewrite normalised_entry by assumption.
    now rewrite (total_agree j i Hag).
  - split; [assumption | apply agree_off_refl].
Qed.

End ExpNormalise.

(** ** Coupling coefficients *)

Lemma in_range_5 d0 d1 d2 d3 d4 b q r s u :
  (b < d0)%nat -> (q < d1)%nat -> (r < d2)%nat -> (s < d3)%nat -> (u < d4)%nat ->
  in_range [d0; d1; d2; d3; d4] [b; q; r; s; u].
Proof.
  intros. split; [reflexivity|]. intros k Hk. simpl in Hk.
  do 5 (destruct k as [|k]; [simpl; assumption|]). lia.
Qed.

(** C1 (as amended): the routing weight of the convolutional routing layer
    has shape (batch, rows, cols, caps_filters, input_caps_filters), and the
    coupling coefficients that the softmax over axes (1,2,3) produces from
    finite weights of that shape sum to 1, for every fixed (batch,
    input-capsule-filter) pair, across the joint (row, col,
    output-capsule-filter) combination. *)
Theorem conv_coupling_normalised_per_input_filter :
  forall (batch rows cols caps_filters input_caps_filters : nat)
         (rest : list nat) (f : list nat -> R) (b u : nat),
    (0 < rows)%nat -> (0 < cols)%nat -> (0 < caps_filters)%nat ->
    (b < batch)%nat -> (u < input_caps_filters)%nat ->
    shape (CapsConv.initial_weight caps_filters input_caps_filters
             (zeros (batch :: rows :: cols :: rest)))
      = [batch; rows; cols; caps_filters; input_caps_filters] /\
    exists cc,
      CapsConv.softmax
        (of_real [batch; rows; cols; caps_filters; input_caps_filters] f)
        [1; 2; 3]%nat = Ok cc /\
      shape cc = [batch; rows; cols; caps_filters; input_caps_filters] /\
      ssum_n rows (fun q => ssum_n cols (fun r => ssum_n caps_filters (fun s =>
        at_ cc [b; q; r; s; u]))) = Some 1.
Proof.
  intros B rows cols S T rest f b u HR HC HS Hb Hu. split; [reflexivity|].
  set (w := of_real [B; rows; cols; S; T] f).
  exists (tdiv (texp w) (reduce_sum_keep (texp w) [1; 2; 3]%nat)).
  split; [reflexivity|]. split.
  - apply (normalised_shape w).
  - assert (Hi : in_range (shape w) [b; 0; 0; 0; u]%nat) by now apply in_range_5.
    assert (Hax : forall a, In a [1; 2; 3]%nat -> (a < rank w)%nat)
      by (intros a Ha; unfold w, rank; simpl in *; lia).
    exact (normalised_sum w f _ (finite_of_real _ f) Hax _ Hi).
Qed.

(** A fixed (batch, output-capsule-filter) pair with two input capsule
    filters: each coefficient is 1, so the sum across (row, col,
    input-capsule-filter) is 2. *)
Lemma conv_coupling_not_normalised_per_output_filter :
  let w := CapsConv.initial_weight 1 2 (zeros [1; 1; 1; 2; 1; 1]%nat) in
  exists cc,
    CapsConv.softmax w [1; 2; 3]%nat = Ok cc /\
    ssum_n 1 (fun q => ssum_n 1 (fun r => ssum_n 2 (fun u =>
      at_ cc [0; q; r; 0; u]%nat))) = Some 2 /\
    ssum_n 1 (fun q => ssum_n 1 (fun r => ssum_n 2 (fun u =>
      at_ cc [0; q; r; 0; u]%nat))) <> Some 1.
Proof.
  intros w.
  exists (tdiv (texp w) (reduce_sum_keep (texp w) [1; 2; 3]%nat)).
  split; [reflexivity|].
  assert (Hax : forall a, In a [1; 2; 3]%nat -> (a < rank w)%nat)
    by (intros a Ha; unfold w, rank; simpl in *; lia).
  assert (Hf : finite_on w (fun _ => 0)) by apply finite_of_real.
  assert (E : forall u, (u < 2)%nat ->
            at_ (tdiv (texp w) (reduce_sum_keep (texp w) [1; 2; 3]%nat))
              [0; 0; 0; 0; u]%nat = Some 1).
  { intros u Hu.
    rewrite (normalised_entry w _ _ Hf Hax)
      by (change (shape w) with [1; 1; 1; 1; 2]%nat; apply in_range_5; lia).
    f_equal. unfold rsum_over. simpl. rewrite exp_0. lra. }
  assert (Hsum : ssum_n 1 (fun q => ssum_n 1 (fun r => ssum_n 2 (fun u =>
            at_ (tdiv (texp w) (reduce_sum_keep (texp w) [1; 2; 3]%nat))
              [0; q; r; 0; u]%nat))) = Some 2).
  { unfold ssum_n. cbn [fold_n]. rewrite !E by lia. reflexivity. }
  split; [exact Hsum|]. rewrite Hsum. intros H. inversion H. lra.
Qed.

(** C5: in exact real arithmetic, for finite routing logits of any
    magnitude, the coupling coefficients of the multi-axis softmax of the
    convolutional layer and of the axis-2 softmax of the dense layer are
    non-negative and sum to exactly 1 across the normalised axes, the other
    coordinates being fixed. In float32 the multi-axis softmax overflows on
    large logits, as shown in the section on float32 below. *)
Theorem coupling_coefficients_nonneg_sum_one :
  forall (shp : list nat) (f : list nat -> R) (axes : list nat) (idx : list nat),
    in_range shp idx ->
    (length axes = 3%nat -> (forall a, In a axes -> (a < length shp)%nat) ->
     exists cc,
       CapsConv.softmax (of_real shp f) axes = Ok cc /\
       (exists c, at_ cc idx = Some c /\ 0 <= c) /\
       ssum_over (dims_of shp axes) (at_ cc) idx = Some 1) /\
    ((2 < length shp)%nat ->
     let prob_w := tf_nn_softmax (of_real shp f) 2 in
     (exists c, at_ prob_w idx = Some c /\ 0 <= c) /\
     ssum_n (nth 2 shp 0%nat) (fun j => at_ prob_w (upd idx 2 j)) = Some 1).
Proof.
  intros shp f axes idx Hi. split.
  - intros Hlen Hax. unfold CapsConv.softmax. rewrite Hlen. simpl.
    eexists. split; [reflexivity|]. split.
    + destruct (normalised_nonneg _ f axes (finite_of_real shp f) Hax idx Hi)
        as [c [Hc Hpos]].
      exists c. split; [exact Hc | lra].
    + exact (normalised_sum _ f axes (finite_of_real shp f) Hax idx Hi).
  - intros Hrk prob_w.
    assert (Hax : forall a, In a [2%nat] -> (a < rank (of_real shp f))%nat)
      by (intros a [<-|[]]; exact Hrk).
    split.
    + destruct (normalised_nonneg _ f _ (finite_of_real shp f) Hax idx Hi)
        as [c [Hc Hpos]].
      exists c. split; [exact Hc | lra].
    + exact (normalised_sum _ f _ (finite_of_real shp f) Hax idx Hi).
Qed.

(** ** Subtracting the maximum before the softmax *)

Lemma max_subtracted_finite shp f axes :
  (forall a, In a axes -> (a < length shp)%nat) ->
  let x := of_real shp f in
  shape (tsub x (reduce_max_keep x axes)) = shp /\
  finite_on (tsub x (reduce_max_keep x axes))
    (fun j => f j - fold_over Rmax 0 (dims_of shp axes) f j).
Proof.
  intros Hax x.
  assert (Hs : shape (tsub x (reduce_max_keep x axes)) = shp)
    by apply bshape_kshape.
  split; [exact Hs|].
  intros j Hj. rewrite at_bval by assumption. rewrite Hs in Hj.
  unfold tsub. rewrite bval_bop.
  rewrite (bval_finite x f) by (trivial; apply finite_of_real).
  rewrite (bval_reduce_max x f) by (trivial; apply finite_of_real).
  reflexivity.
Qed.

(** C6: the axis softmax of a finite tensor is unchanged, entry by entry,
    when the maximum over the normalised axes is subtracted from the input
    first. *)
Theorem softmax_invariant_under_max_subtraction :
  forall (shp : list nat) (f : list nat -> R) (axes : list nat) (idx : list nat),
    length axes = 3%nat ->
    (forall a, In a axes -> (a < length shp)%nat) ->
    in_range shp idx ->
    exists s1 s2,
      CapsConv.softmax (of_real shp f) axes = Ok s1 /\
      softmax_max_subtracted (of_real shp f) axes = Ok s2 /\
      shape s1 = shape s2 /\
      at_ s1 idx = at_ s2 idx.
Proof.
  intros shp f axes idx Hlen Hax Hi.
  set (x := of_real shp f).
  set (y := tsub x (reduce_max_keep x axes)).
  destruct (max_subtracted_finite shp f axes Hax) as [Hs Hfin].
  fold x in Hs, Hfin. fold y in Hs, Hfin.
  exists (tdiv (texp x) (reduce_sum_keep (texp x) axes)).
  exists (tdiv (texp y) (reduce_sum_keep (texp y) axes)).
  unfold softmax_max_subtracted, CapsConv.softmax. fold x. fold y.
  rewrite Hlen. simpl Nat.eqb. cbv iota.
  split; [reflexivity|]. split; [reflexivity|].
  assert (Haxy : forall a, In a axes -> (a < rank y)%nat)
    by (intros a Ha; unfold rank; rewrite Hs; auto).
  split.
  - rewrite (normalised_shape x), (normalised_shape y). now rewrite Hs.
  - rewrite (normalised_entry x f axes (finite_of_real shp f) Hax) by assumption.
    rewrite (normalised_entry y _ axes Hfin Haxy) by now rewrite Hs.
    rewrite Hs. change (shape x) with shp.
    set (dims := dims_of shp axes).
    set (m := fold_over Rmax 0 dims f).
    assert (Hm : forall j, agree_off axes j idx -> m j = m idx).
    { intros j Hj. apply fold_over_agree. unfold dims.
      now rewrite map_fst_dims_of. }
    assert (Hsum : rsum_over dims (fun j => exp (f j - m j)) idx
                   = rsum_over dims (fun j => exp (f j)) idx * / exp (m idx)).
    { rewrite <- rsum_over_scal.
      apply (fold_over_ext Rplus 0 dims _ _ (fun j => agree_off axes j idx)).
      - intros j a n v Hd _ Hj. apply in_dims_of in Hd. destruct Hd as [Ha _].
        apply (agree_off_trans _ _ j); trivial. now apply agree_off_upd_l.
      - intros j Hj. rewrite (Hm j Hj). unfold Rminus.
        now rewrite exp_plus, exp_Ropp.
      - apply agree_off_refl. }
    rewrite Hsum. f_equal. unfold Rminus. rewrite exp_plus, exp_Ropp.
    assert (0 < rsum_over dims (fun j => exp (f j)) idx).
    { apply rsum_over_pos.
      - intros a n Hd. apply in_dims_of in Hd. destruct Hd as [Ha ->].
        apply (in_range_pos _ idx); auto.
      - intros j. apply exp_pos. }
    pose proof (exp_pos (m idx)). field. split; lra.
Qed.

(** ** Squash *)

Lemma sq_norm_nonneg n v : 0 <= sq_norm n v.
Proof. apply rsum_n_nonneg. intros j _. nra. Qed.

Lemma sq_norm_scal n v c : sq_norm n (fun j => c * v j) = sq_norm n v * (c * c).
Proof.
  unfold sq_norm. rewrite <- rsum_n_scal. apply fold_n_ext. intros j _. ring.
Qed.

Lemma norm_scal n v c : 0 <= c -> norm n (fun j => c * v j) = c * norm n v.
Proof.
  intros Hc. unfold norm. rewrite sq_norm_scal.
  rewrite sqrt_mult by (try apply sq_norm_nonneg; nra).
  rewrite sqrt_square by assumption. ring.
Qed.

(** The scalar facts behind squash: with [ss] the squared length of the
    input, the output is [c] times the input. *)
Lemma squash_scale_bounds ss eps :
  0 <= ss -> 0 < eps ->
  let c := ss / (1 + ss) / sqrt (ss + eps) in
  0 <= c /\ (ss <> 0 -> 0 < c) /\
  c * sqrt ss < 1 /\
  ss / (1 + ss) - eps <= c * sqrt ss <= ss / (1 + ss).
Proof.
  intros Hss Heps c.
  set (r := sqrt ss). set (q := sqrt (ss + eps)).
  assert (Hr : 0 <= r) by apply sqrt_pos.
  assert (Hrr : r * r = ss) by (apply sqrt_sqrt; lra).
  assert (Hq : 0 < q) by (apply sqrt_lt_R0; lra).
  assert (Hqq : q * q = ss + eps) by (apply sqrt_sqrt; lra).
  assert (Hrq : r <= q) by nra.
  assert (Hd : 0 < (1 + ss) * q) by nra.
  assert (Hc : c = ss * / ((1 + ss) * q)).
  { unfold c. fold q. field. split; lra. }
  assert (Hk : 0 < / ((1 + ss) * q)) by now apply Rinv_0_lt_compat.
  assert (Hkd : / ((1 + ss) * q) * ((1 + ss) * q) = 1) by (apply Rinv_l; lra).
  assert (Hu : ss / (1 + ss) = ss * q * / ((1 + ss) * q)).
  { field. split; lra. }
  set (k := / ((1 + ss) * q)) in *.
  rewrite Hc, Hu. repeat split.
  - nra.
  - intros Hne. assert (0 < ss) by lra. nra.
  - assert (ss * r < (1 + ss) * q) by nra.
    assert (ss * k * r = ss * r * k) by ring. nra.
  - assert (ss * (q - r) <= eps * ((1 + ss) * q)).
    { assert (eps = (q - r) * (q + r)) by nra.
      assert (ss <= (q + r) * ((1 + ss) * q)) by nra.
      assert (0 <= q - r) by lra. nra. }
    assert (eps = eps * ((1 + ss) * q) * k) by (rewrite Rmult_assoc, (Rmult_comm _ k), Hkd; ring).
    assert (ss * q * k - eps * ((1 + ss) * q) * k <= ss * k * r) by nra.
    lra.
  - assert (ss * r <= ss * q) by nra. nra.
Qed.

Section SquashEntries.

Variable epsilon : R.
Variable shp : list nat.
Variable f : list nat -> R.
Variable axis : Z.

Let a := norm_axis (length shp) axis.
Let n := nth a shp 0%nat.
Let out := Activations.squash epsilon (of_real shp f) axis.

(** Squared length of the vector through position [i] along the axis. *)
Let ss (i : list nat) : R := sq_norm n (fun j => f (upd i a j)).

Lemma squash_shape : shape out = shp.
Proof.
  unfold out, Activations.squash, tmul, tdiv, tadd, tsqrt, tsquare, bop, tmap.
  simpl. rewrite bshape_nil_l, bshape_nil_r, bshape_same, bshape_kshape.
  apply bshape_kshape_l.
Qed.

Lemma ss_agree i j : agree_off [a] i j -> ss i = ss j.
Proof.
  intros H.
  exact (fold_over_agree Rplus 0 [(a, n)] (fun l => f l * f l) i j H).
Qed.

Lemma squash_entry i :
  in_range shp i ->
  at_ out i
  = smul (sdiv (Some (ss i)) (Some (1 + ss i)))
         (sdiv (Some (f i)) (ssqrt (Some (ss i + epsilon)))).
Proof.
  intros Hi. rewrite at_bval by now rewrite squash_shape.
  unfold out, Activations.squash, tmul, tdiv, tadd, tsqrt.
  rewrite !bval_bop, !bval_tmap, !bval_bop, !bval_const.
  assert (Hsq : finite_on (tsquare (of_real shp f)) (fun l => f l * f l))
    by (intros l _; reflexivity).
  rewrite (bval_reduce_sum _ _ _ _ Hsq) by exact Hi.
  rewrite (bval_finite _ f) by (trivial; apply finite_of_real).
  reflexivity.
Qed.

End SquashEntries.

Lemma sq_norm_pos n v : (exists j, (j < n)%nat /\ v j <> 0) -> 0 < sq_norm n v.
Proof.
  intros [j [Hj Hv]]. unfold sq_norm. induction n as [|k IH]; [lia|].
  rewrite rsum_n_S.
  assert (0 <= rsum_n k (fun j => v j * v j)) by (apply rsum_n_nonneg; intros; nra).
  destruct (Nat.eq_dec j k) as [->|Hne].
  - assert (0 < v k * v k) by nra. lra.
  - assert (0 < rsum_n k (fun j => v j * v j)) by (apply IH; lia).
    assert (0 <= v k * v k) by nra. lra.
Qed.

(** With a positive stability constant every entry of the output is finite:
    the input entry times a scale that depends only on the squared length of
    the vector it belongs to. *)
Lemma squash_entry_scaled epsilon shp f axis i :
  0 < epsilon -> in_range shp i ->
  let a := norm_axis (length shp) axis in
  let ss := sq_norm (nth a shp 0%nat) (fun j => f (upd i a j)) in
  at_ (Activations.squash epsilon (of_real shp f) axis) i
  = Some (ss / (1 + ss) / sqrt (ss + epsilon) * f i).
Proof.
  intros Heps Hi a ss. rewrite squash_entry by assumption.
  fold a. fold ss.
  assert (Hss : 0 <= ss) by apply sq_norm_nonneg.
  unfold sdiv, ssqrt, smul, lift2.
  destruct (Req_EM_T (1 + ss) 0) as [E|_]; [lra|].
  destruct (Rlt_dec (ss + epsilon) 0) as [E|_]; [lra|].
  assert (Hq : 0 < sqrt (ss + epsilon)) by (apply sqrt_lt_R0; lra).
  destruct (Req_EM_T (sqrt (ss + epsilon)) 0) as [E|_]; [lra|].
  f_equal. field. split; lra.
Qed.

(** C4: in exact real arithmetic, along the chosen axis, squash keeps the
    shape and maps a vector [v] to a non-negative multiple [c * v] (positive
    when [v] is not zero) whose length is below 1 and within epsilon of
    |v|^2 / (1 + |v|^2). In float32 the length of a long vector rounds to
    1, as shown in the section on float32 below. *)
Theorem squash_length_and_direction :
  forall (epsilon : R) (shp : list nat) (f : list nat -> R) (axis : Z)
         (idx : list nat),
    0 < epsilon ->
    in_range shp idx ->
    let a := norm_axis (length shp) axis in
    let n := nth a shp 0%nat in
    let v := fun j => f (upd idx a j) in
    let out := Activations.squash epsilon (of_real shp f) axis in
    shape out = shp /\
    exists c,
      0 <= c /\
      ((exists j, (j < n)%nat /\ v j <> 0) -> 0 < c) /\
      (forall j, (j < n)%nat -> at_ out (upd idx a j) = Some (c * v j)) /\
      norm n (fun j => c * v j) < 1 /\
      sq_norm n v / (1 + sq_norm n v) - epsilon
        <= norm n (fun j => c * v j) <= sq_norm n v / (1 + sq_norm n v).
Proof.
  intros epsilon shp f axis idx Heps Hi a n v out.
  split; [apply squash_shape|].
  set (ss := sq_norm n v).
  assert (Hss : 0 <= ss) by apply sq_norm_nonneg.
  destruct (squash_scale_bounds ss epsilon Hss Heps) as [Hc [Hcpos [Hlt Hnear]]].
  exists (ss / (1 + ss) / sqrt (ss + epsilon)).
  split; [exact Hc|]. split; [|split; [|split]].
  - intros Hv. apply Hcpos. apply Rgt_not_eq. now apply sq_norm_pos.
  - intros j Hj. unfold out.
    rewrite squash_entry_scaled by (trivial; now apply in_range_upd).
    fold a. fold n.
    assert (E : sq_norm n (fun l => f (upd (upd idx a j) a l)) = ss).
    { apply (ss_agree shp f axis). apply agree_off_upd_l. now left. }
    rewrite E. reflexivity.
  - rewrite norm_scal by exact Hc. exact Hlt.
  - rewrite norm_scal by exact Hc. exact Hnear.
Qed.

(** C8: with a positive stability constant, squash of a vector that is
    exactly zero along the axis is defined and is the zero vector: every
    entry is the finite value 0. *)
Theorem squash_zero_vector :
  forall (epsilon : R) (shp : list nat) (f : list nat -> R) (axis : Z)
         (idx : list nat),
    0 < epsilon ->
    in_range shp idx ->
    let a := norm_axis (length shp) axis in
    let n := nth a shp 0%nat in
    (forall j, (j < n)%nat -> f (upd idx a j) = 0) ->
    forall j, (j < n)%nat ->
      at_ (Activations.squash epsilon (of_real shp f) axis) (upd idx a j) = Some 0.
Proof.
  intros epsilon shp f axis idx Heps Hi a n Hzero j Hj.
  rewrite squash_entry_scaled by (trivial; now apply in_range_upd).
  fold a. rewrite (Hzero j Hj). f_equal. ring.
Qed.

(** Without the stability constant the same entries are not finite: the zero
    vector is divided by the square root of 0. *)
Lemma squash_zero_vector_without_epsilon :
  forall (shp : list nat) (f : list nat -> R) (axis : Z) (idx : list nat),
    in_range shp idx ->
    let a := norm_axis (length shp) axis in
    let n := nth a shp 0%nat in
    (forall j, (j < n)%nat -> f (upd idx a j) = 0) ->
    forall j, (j < n)%nat ->
      at_ (Activations.squash 0 (of_real shp f) axis) (upd idx a j) = None.
Proof.
  intros shp f axis idx Hi a n Hzero j Hj.
  rewrite squash_entry by now apply in_range_upd.
  fold a. fold n.
  assert (E : sq_norm n (fun l => f (upd (upd idx a j) a l)) = 0).
  { rewrite (ss_agree shp f axis _ idx) by (apply agree_off_upd_l; now left).
    apply rsum_n_zero. intros l Hl. fold a. rewrite (Hzero l Hl). ring. }
  rewrite E. unfold sdiv, ssqrt, smul, lift2.
  destruct (Req_EM_T (1 + 0) 0) as [E1|_]; [lra|].
  destruct (Rlt_dec (0 + 0) 0) as [E2|_]; [lra|].
  replace (0 + 0) with 0 by ring. rewrite sqrt_0.
  destruct (Req_EM_T 0 0) as [_|E3]; [reflexivity | contradiction].
Qed.

(** ** Margin loss *)

Lemma in_range_2 d0 d1 i c :
  (i < d0)%nat -> (c < d1)%nat -> in_range [d0; d1] [i; c].
Proof.
  intros. split; [reflexivity|]. intros k Hk. simpl in Hk.
  do 2 (destruct k as [|k]; [simpl; assumption|]). lia.
Qed.

Section MarginLoss.

Variables batch num_caps : nat.
Variables yt yp : list nat -> R.
Variables m_p m_n lambda : R.

Let y_true := of_real [batch; num_caps] yt.
Let y_pred := of_real [batch; num_caps] yp.
Let total :=
  tadd (tmul y_true (tsquare (tmaximum (const 0) (tsub (const m_p) y_pred))))
       (tmul (const lambda)
             (tmul (tsub (const 1) y_true)
                   (tsquare (tmaximum (const 0) (tsub y_pred (const m_n)))))).

(** The loss term of one class of one example. *)
Let term (i c : nat) : R :=
  yt [i; c] * (Rmax 0 (m_p - yp [i; c]) * Rmax 0 (m_p - yp [i; c]))
  + lambda * ((1 - yt [i; c])
              * (Rmax 0 (yp [i; c] - m_n) * Rmax 0 (yp [i; c] - m_n))).

Lemma margin_total_shape : shape total = [batch; num_caps].
Proof.
  unfold total, tadd, tmul, tsub, tmaximum, tsquare, bop, tmap. simpl.
  now rewrite !bshape_nil_l, !bshape_nil_r, !bshape_same.
Qed.

Lemma margin_total_entry i c :
  (i < batch)%nat -> (c < num_caps)%nat -> at_ total [i; c] = Some (term i c).
Proof.
  intros Hi Hc.
  assert (Hr : in_range [batch; num_caps] [i; c]) by now apply in_range_2.
  rewrite at_bval by now rewrite margin_total_shape.
  unfold total, tadd, tmul, tsub, tmaximum, tsquare.
  repeat (progress rewrite ?bval_bop, ?bval_tmap, ?bval_const).
  rewrite (bval_finite y_true yt), (bval_finite y_pred yp)
    by (trivial; apply finite_of_real).
  reflexivity.
Qed.

Lemma margin_loss_shape :
  shape (Losses.margin_loss y_true y_pred m_p m_n lambda) = [batch].
Proof.
  change (Losses.margin_loss y_true y_pred m_p m_n lambda)
    with (reduce_mean total (norm_axis (rank total) (-1))).
  unfold reduce_mean, rank. cbn [shape]. rewrite margin_total_shape. reflexivity.
Qed.

Lemma margin_loss_entry i :
  (i < batch)%nat -> (0 < num_caps)%nat ->
  at_ (Losses.margin_loss y_true y_pred m_p m_n lambda) [i]
  = Some (rsum_n num_caps (term i) / INR num_caps).
Proof.
  intros Hi Hn.
  change (Losses.margin_loss y_true y_pred m_p m_n lambda)
    with (reduce_mean total (norm_axis (rank total) (-1))).
  unfold reduce_mean, rank. cbn [at_]. rewrite margin_total_shape.
  change (norm_axis (length [batch; num_caps]) (-1)) with 1%nat.
  change (nth 1 [batch; num_caps] 0%nat) with num_caps.
  change (fun j => at_ total (ins [i] 1 j)) with (fun j => at_ total [i; j]).
  unfold ssum_n, sadd.
  rewrite (fold_n_lift Rplus (Some 0) 0 num_caps _ (term i)).
  - fold (rsum_n num_caps (term i)). unfold sdiv.
    destruct (Req_EM_T (INR num_caps) 0) as [E|_]; trivial.
    assert (0 < INR num_caps) by now apply lt_0_INR. lra.
  - now right.
  - intros j Hj. now apply margin_total_entry.
Qed.

End MarginLoss.

(** C10: margin_loss reduces the per-class terms by their arithmetic mean
    over the class axis: the loss of example [i] is 1/num_caps times the sum
    over the classes of
    y_true*max(0, 0.9 - y_pred)^2 + 0.5*(1 - y_true)*max(0, y_pred - 0.1)^2,
    that is the sum of the terms divided by num_caps. *)
Theorem margin_loss_is_class_mean :
  forall (batch num_caps : nat) (yt yp : list nat -> R) (i : nat),
    (i < batch)%nat -> (0 < num_caps)%nat ->
    let loss := Losses.margin_loss_default (of_real [batch; num_caps] yt)
                  (of_real [batch; num_caps] yp) in
    let y_true := fun c => yt [i; c] in
    let y_pred := fun c => yp [i; c] in
    shape loss = [batch] /\
    at_ loss [i] = Some (margin_loss_spec num_caps y_true y_pred) /\
    margin_loss_spec num_caps y_true y_pred
      = margin_loss_sum num_caps y_true y_pred / INR num_caps.
Proof.
  intros batch num_caps yt yp i Hi Hn loss y_true y_pred.
  assert (Hpos : 0 < INR num_caps) by now apply lt_0_INR.
  split; [unfold loss, Losses.margin_loss_default; apply margin_loss_shape|].
  split.
  - unfold loss, Losses.margin_loss_default.
    rewrite margin_loss_entry by assumption.
    f_equal. unfold margin_loss_spec.
    assert (E : forall g h : nat -> R, (forall c, g c = h c) ->
                rsum_n num_caps g = rsum_n num_caps h)
      by (intros g h Hgh; apply fold_n_ext; intros; apply Hgh).
    rewrite (E _ (fun c => y_true c * Rmax 0 (9 / 10 - y_pred c) ^ 2
                   + 5 / 10 * (1 - y_true c) * Rmax 0 (y_pred c - 1 / 10) ^ 2)).
    + field. lra.
    + intros c. unfold y_true, y_pred. field.
  - unfold margin_loss_spec, margin_loss_sum. field. lra.
Qed.

(** On one example with two classes, truth [1, 0] and prediction [0, 0],
    the loss is the mean 0.405 of the class terms and not their sum 0.81. *)
Lemma margin_loss_mean_differs_from_sum :
  let y_true := of_real [1; 2]%nat (fun idx => one_hot 0 (nth 1 idx 0%nat)) in
  let y_pred := of_real [1; 2]%nat (fun _ => 0) in
  at_ (Losses.margin_loss_default y_true y_pred) [0%nat] = Some (405 / 1000) /\
  margin_loss_sum 2 (one_hot 0) (fun _ => 0) = 81 / 100.
Proof.
  assert (H9 : Rmax 0 (9 / 10 - 0) = 9 / 10)
    by (unfold Rmax; destruct (Rle_dec 0 (9 / 10 - 0)); lra).
  assert (H1 : Rmax 0 (0 - 1 / 10) = 0)
    by (unfold Rmax; destruct (Rle_dec 0 (0 - 1 / 10)); lra).
  split.
  - unfold Losses.margin_loss_default.
    rewrite margin_loss_entry by lia.
    f_equal. unfold rsum_n, one_hot. simpl. rewrite H9, H1. lra.
  - unfold margin_loss_sum, rsum_n, one_hot. simpl. rewrite H9, H1. lra.
Qed.

(** C7: for a one-hot ground truth, when the predicted length is exactly 1
    for the true class and exactly 0 for every other class, the margin loss
    with the default thresholds and weight is exactly 0 for that example. *)
Theorem margin_loss_zero_on_perfect_prediction :
  forall (batch num_caps : nat) (yt yp : list nat -> R) (i k : nat),
    (i < batch)%nat -> (k < num_caps)%nat ->
    (forall c, (c < num_caps)%nat -> yt [i; c] = one_hot k c) ->
    (forall c, (c < num_caps)%nat -> yp [i; c] = one_hot k c) ->
    at_ (Losses.margin_loss_default (of_real [batch; num_caps] yt)
           (of_real [batch; num_caps] yp)) [i] = Some 0.
Proof.
  intros batch num_caps yt yp i k Hi Hk Ht Hp.
  unfold Losses.margin_loss_default.
  rewrite margin_loss_entry by (trivial; lia).
  f_equal. rewrite rsum_n_zero; [unfold Rdiv; ring|].
  intros c Hc. rewrite (Ht c Hc), (Hp c Hc). unfold one_hot.
  destruct (Nat.eqb c k).
  - assert (E : Rmax 0 (9 / 10 - 1) = 0)
      by (unfold Rmax; destruct (Rle_dec 0 (9 / 10 - 1)); lra).
    rewrite E. ring.
  - assert (E : Rmax 0 (0 - 1 / 10) = 0)
      by (unfold Rmax; destruct (Rle_dec 0 (0 - 1 / 10)); lra).
    rewrite E. ring.
Qed.

(** ** Traces of the routing procedures *)

Lemma applications_app o tr1 tr2 :
  applications o (tr1 ++ tr2) = (applications o tr1 + applications o tr2)%nat.
Proof. unfold applications. now rewrite filter_app, length_app. Qed.

Lemma applications_repeat o ops n :
  applications o (concat (repeat ops n)) = (n * applications o ops)%nat.
Proof.
  induction n as [|k IH]; [reflexivity|].
  simpl. now rewrite applications_app, IH.
Qed.

(** A loop whose body never raises, always records the operations [ops] and
    establishes [Q]: after [n] passes the trace has grown by [n] copies of
    [ops], and [Q] holds if it held before or if there was a pass. *)
Lemma for_range_trace {S : Type} (body : S -> M S) (ops : trace) (Q : S -> Prop) :
  (forall st tr, exists st', body st tr = (Ok st', tr ++ ops) /\ Q st') ->
  forall n st tr, Q st \/ (0 < n)%nat ->
    exists st', for_range n body st tr = (Ok st', tr ++ concat (repeat ops n))
                /\ Q st'.
Proof.
  intros Hbody. induction n as [|k IH]; intros st tr HQ.
  - exists st. simpl. unfold ret. rewrite app_nil_r.
    split; [reflexivity|]. destruct HQ as [HQ|HQ]; [assumption | lia].
  - destruct (Hbody st tr) as [st1 [E1 Q1]].
    destruct (IH st1 (tr ++ ops) (or_introl Q1)) as [st2 [E2 Q2]].
    exists st2. split; [|assumption].
    simpl. unfold bind. rewrite E1, E2. now rewrite <- app_assoc.
Qed.

(** The operations one pass of each loop records. *)
Lemma conv_routing_body_trace epsilon prediction st tr :
  exists st',
    CapsConv.routing_body epsilon prediction st tr
    = (Ok st', tr ++ [OpSoftmax; OpEinsum; OpSquash; OpEinsum; OpAdd])
    /\ exists t, snd st' = Tensor t.
Proof.
  eexists. split.
  - unfold CapsConv.routing_body, bind, call, ret. simpl.
    repeat rewrite <- app_assoc. reflexivity.
  - simpl. eexists. reflexivity.
Qed.

Lemma routing_step_trace epsilon rw prediction tr :
  exists t,
    CapsDense.routing_step epsilon rw prediction tr
    = (Ok t, tr ++ [OpSoftmax; OpMultiply; OpReduceSum; OpSquash]).
Proof.
  eexists. unfold CapsDense.routing_step, bind, call. simpl.
  repeat rewrite <- app_assoc. reflexivity.
Qed.

Lemma dense_routing_body_trace epsilon input_caps prediction st tr :
  exists st',
    CapsDense.routing_body epsilon input_caps prediction st tr
    = (Ok st', tr ++ [OpTile; OpMatmul; OpAdd;
                      OpSoftmax; OpMultiply; OpReduceSum; OpSquash])
    /\ True.
Proof.
  eexists. split; [|exact I].
  unfold CapsDense.routing_body, CapsDense.routing_step, bind, call, ret. simpl.
  repeat rewrite <- app_assoc. reflexivity.
Qed.

(** The whole trace of a routing call. *)
Lemma conv_dynamic_routing_trace epsilon routing_iter cf icf prediction :
  (1 <= routing_iter)%Z ->
  exists t,
    CapsConv.dynamic_routing epsilon routing_iter cf icf prediction []
    = (Ok (Tensor t),
       OpZeros :: concat (repeat [OpSoftmax; OpEinsum; OpSquash; OpEinsum; OpAdd]
                            (Z.to_nat routing_iter))).
Proof.
  intros Hri. unfold CapsConv.dynamic_routing.
  assert (E : (0 <? routing_iter)%Z = true) by (apply Z.ltb_lt; lia).
  unfold bind at 1. unfold assert_that. rewrite E.
  unfold bind at 1. unfold call at 1. simpl app.
  destruct (for_range_trace (CapsConv.routing_body epsilon prediction) _
              (fun st => exists t, snd st = Tensor t)
              (conv_routing_body_trace epsilon prediction)
              (Z.to_nat routing_iter)
              (CapsConv.initial_weight cf icf prediction, Ellipsis) [OpZeros])
    as [st [Est [t Ht]]]; [right; lia|].
  exists t. unfold bind, ret. rewrite Est, Ht. reflexivity.
Qed.

Lemma dense_dynamic_routing_trace epsilon routing_iter batch ic caps prediction :
  exists t,
    CapsDense.dynamic_routing epsilon routing_iter batch ic caps prediction []
    = (Ok t,
       [OpZeros; OpSoftmax; OpMultiply; OpReduceSum; OpSquash]
       ++ concat (repeat [OpTile; OpMatmul; OpAdd;
                          OpSoftmax; OpMultiply; OpReduceSum; OpSquash]
                    (Z.to_nat routing_iter))).
Proof.
  unfold CapsDense.dynamic_routing.
  unfold bind at 1. unfold call at 1. simpl app.
  destruct (routing_step_trace epsilon (zeros [batch; ic; caps; 1; 1]%nat)
              prediction [OpZeros]) as [rp Erp].
  unfold bind at 1. rewrite Erp.
  destruct (for_range_trace (CapsDense.routing_body epsilon ic prediction) _
              (fun _ => True)
              (dense_routing_body_trace epsilon ic prediction)
              (Z.to_nat routing_iter)
              (zeros [batch; ic; caps; 1; 1]%nat, rp)
              ([OpZeros] ++ [OpSoftmax; OpMultiply; OpReduceSum; OpSquash]))
    as [st [Est _]]; [now left|].
  exists (snd st). unfold bind, ret. rewrite Est. reflexivity.
Qed.

(** C3: for every routing_iter >= 1, one call of the dense layer's dynamic
    routing applies squash routing_iter + 1 times and one call of the
    convolutional routing layer's dynamic routing applies it routing_iter
    times; neither call raises. *)
Theorem squash_applications_per_routing_call :
  forall (epsilon : R) (routing_iter : Z) (batch_size input_caps caps : nat)
         (caps_filters input_caps_filters : nat)
         (dense_prediction conv_prediction : tensor),
    (1 <= routing_iter)%Z ->
    (exists t tr,
       CapsDense.dynamic_routing epsilon routing_iter batch_size input_caps caps
         dense_prediction [] = (Ok t, tr) /\
       applications OpSquash tr = (Z.to_nat routing_iter + 1)%nat) /\
    (exists t tr,
       CapsConv.dynamic_routing epsilon routing_iter caps_filters
         input_caps_filters conv_prediction [] = (Ok (Tensor t), tr) /\
       applications OpSquash tr = Z.to_nat routing_iter).
Proof.
  intros epsilon routing_iter b ic c cf icf dpred cpred Hri. split.
  - destruct (dense_dynamic_routing_trace epsilon routing_iter b ic c dpred)
      as [t Et].
    eexists. eexists. split; [exact Et|].
    rewrite applications_app, applications_repeat.
    change (applications OpSquash [OpZeros; OpSoftmax; OpMultiply; OpReduceSum; OpSquash])
      with 1%nat.
    change (applications OpSquash
              [OpTile; OpMatmul; OpAdd; OpSoftmax; OpMultiply; OpReduceSum; OpSquash])
      with 1%nat.
    lia.
  - destruct (conv_dynamic_routing_trace epsilon routing_iter cf icf cpred Hri)
      as [t Et].
    eexists. eexists. split; [exact Et|].
    change (OpZeros :: ?l) with ([OpZeros] ++ l).
    rewrite applications_app, applications_repeat.
    change (applications OpSquash [OpZeros]) with 0%nat.
    change (applications OpSquash [OpSoftmax; OpEinsum; OpSquash; OpEinsum; OpAdd])
      with 1%nat.
    lia.
Qed.

(** C2 (as amended): the convolutional routing layer's dynamic routing
    raises, before any operation is called, when routing_iter is zero or
    negative, and does not raise when routing_iter >= 1; the dense layer's
    dynamic routing has no such check and raises for no routing_iter: for
    routing_iter <= 0 it returns the routed prediction of its first routing
    step. *)
Theorem routing_iter_check :
  forall (epsilon : R) (routing_iter : Z) (batch_size input_caps caps : nat)
         (caps_filters input_caps_filters : nat)
         (dense_prediction conv_prediction : tensor),
    ((routing_iter <= 0)%Z ->
       CapsConv.dynamic_routing epsilon routing_iter caps_filters
         input_caps_filters conv_prediction [] = (Raise RoutingIterError, [])) /\
    ((1 <= routing_iter)%Z ->
       exists t tr,
         CapsConv.dynamic_routing epsilon routing_iter caps_filters
           input_caps_filters conv_prediction [] = (Ok (Tensor t), tr)) /\
    (exists t tr,
       CapsDense.dynamic_routing epsilon routing_iter batch_size input_caps caps
         dense_prediction [] = (Ok t, tr)) /\
    ((routing_iter <= 0)%Z ->
       forall t tr,
         CapsDense.routing_step epsilon (zeros [batch_size; input_caps; caps; 1; 1]%nat)
           dense_prediction [OpZeros] = (Ok t, tr) ->
         CapsDense.dynamic_routing epsilon routing_iter batch_size input_caps caps
           dense_prediction [] = (Ok t, tr)).
Proof.
  intros epsilon routing_iter b ic c cf icf dpred cpred.
  split; [|split; [|split]].
  - intros Hri. unfold CapsConv.dynamic_routing, bind, assert_that.
    assert (E : (0 <? routing_iter)%Z = false) by (apply Z.ltb_ge; lia).
    now rewrite E.
  - intros Hri.
    destruct (conv_dynamic_routing_trace epsilon routing_iter cf icf cpred Hri)
      as [t Et].
    eexists. eexists. exact Et.
  - destruct (dense_dynamic_routing_trace epsilon routing_iter b ic c dpred)
      as [t Et].
    eexists. eexists. exact Et.
  - intros Hri t tr Hstep.
    unfold CapsDense.dynamic_routing.
    unfold bind at 1. unfold call at 1. simpl app.
    unfold bind at 1. rewrite Hstep.
    replace (Z.to_nat routing_iter) with 0%nat by lia.
    reflexivity.
Qed.

(** The dense layer's dynamic routing called with routing_iter = 0: no
    error is raised, and a whole routing step has been performed. *)
Lemma dense_routing_accepts_zero_routing_iter :
  let call_0 :=
    CapsDense.dynamic_routing (1 / 10000000) 0 1 1 1 (zeros [1; 1; 1; 1; 1]%nat) [] in
  (forall e, fst call_0 <> Raise e) /\
  snd call_0 = [OpZeros; OpSoftmax; OpMultiply; OpReduceSum; OpSquash].
Proof.
  intros call_0.
  assert (E : exists t,
             call_0 = (Ok t, [OpZeros; OpSoftmax; OpMultiply; OpReduceSum; OpSquash]))
    by (eexists; reflexivity).
  destruct E as [t Et]. rewrite Et. simpl. split; [|reflexivity].
  intros e H. discriminate H.
Qed.

(** ** The rank check of [build] *)

Lemma conv3d_build_no_rank_error self input_shape got :
  fst (CapsConv.conv3d_build self input_shape) <> Raise (RankError got).
Proof.
  unfold CapsConv.conv3d_build.
  destruct (known _); simpl; discriminate.
Qed.

(** The message carried by the rank error of a rank-4 input shape. *)
Lemma rank_error_message :
  message (RankError 4) = "Expected Tensor of Rank = 5, Got Rank = 4"%string.
Proof. reflexivity. Qed.

(** C9: for both routing layers, build raises the rank error, with its
    message, and leaves the layer as it was whenever the rank of the input
    shape differs from 5, and never raises that error for an input shape of
    rank 5. *)
Theorem build_rank_check :
  forall (conv : CapsConv.t) (dense : CapsDense.t) (input_shape : tensor_shape),
    (length input_shape <> 5%nat ->
       CapsConv.build conv input_shape
         = (Raise (RankError (length input_shape)), conv) /\
       CapsDense.build dense input_shape
         = (Raise (RankError (length input_shape)), dense) /\
       message (RankError (length input_shape))
         = ("Expected Tensor of Rank = 5, Got Rank = "
              ++ string_of_nat (length input_shape))%string) /\
    (length input_shape = 5%nat ->
       forall got,
         fst (CapsConv.build conv input_shape) <> Raise (RankError got) /\
         fst (CapsDense.build dense input_shape) <> Raise (RankError got)).
Proof.
  intros conv dense input_shape. split.
  - intros Hrk. apply Nat.eqb_neq in Hrk.
    unfold CapsConv.build, CapsDense.build. rewrite Hrk. simpl.
    repeat split.
  - intros Hrk got. apply Nat.eqb_eq in Hrk.
    unfold CapsConv.build, CapsDense.build. rewrite Hrk. simpl negb. cbv iota.
    split.
    + destruct (dim_mul _ _) as [channels|]; [|simpl; discriminate].
      pose proof (conv3d_build_no_rank_error
                    (CapsConv.mk (CapsConv.caps_filters conv) (CapsConv.caps_dims conv)
                       (CapsConv.routing_iter conv)
                       (Dim (nth 3 input_shape None)) (Dim (nth 4 input_shape None))
                       (CapsConv.filters conv)
                       (removelast (CapsConv.kernel_size conv) ++ [nth 4 input_shape None])
                       (removelast (CapsConv.strides conv) ++ [nth 4 input_shape None])
                       (CapsConv.kernel conv) (CapsConv.input_spec_ndim conv)
                       (CapsConv.built conv))
                    (firstn 3 input_shape ++ [Some channels; Some 1%nat]) got) as H.
      destruct (CapsConv.conv3d_build _ _) as [[u|e] self']; simpl in *.
      * discriminate.
      * exact H.
    + destruct (dim_mul _ _) as [ic|]; [|simpl; discriminate].
      destruct (nth 4 input_shape None); simpl; discriminate.
Qed.

(** ** Squash and the axis softmax in float32 *)

Lemma to_R_one : F32.to_R (F32.of_Z 1) = 1.
Proof.
  replace (F32.of_Z 1) with (SpecFloat.S754_finite false 8388608 (-23))
    by (vm_compute; reflexivity).
  unfold F32.to_R, powerRZ.
  replace (Pos.to_nat 23) with 23%nat by reflexivity.
  simpl pow. lra.
Qed.

Lemma to_R_zero : F32.to_R (F32.of_Z 0) = 0.
Proof. reflexivity. Qed.

Lemma to_R_million : F32.to_R (F32.of_Z 1000000) = 1000000.
Proof.
  replace (F32.of_Z 1000000) with (SpecFloat.S754_finite false 16000000 (-4))
    by (vm_compute; reflexivity).
  unfold F32.to_R, powerRZ.
  replace (Pos.to_nat 4) with 4%nat by reflexivity.
  simpl pow. lra.
Qed.

Lemma exp_INR_ge_pow2 n : 2 ^ n <= exp (INR n).
Proof.
  induction n as [|k IH].
  - simpl. rewrite exp_0. lra.
  - rewrite S_INR, exp_plus. simpl pow.
    pose proof (exp_ineq1_le 1) as H2.
    assert (0 < 2 ^ k) by (apply pow_lt; lra).
    rewrite Rmult_comm. apply Rmult_le_compat; lra.
Qed.

Lemma exp_million_overflows : F32.overflow_threshold <= exp 1000000.
Proof.
  apply Rle_trans with (2 ^ 128).
  - unfold F32.overflow_threshold.
    apply Rle_trans with (IZR (2 ^ 128)).
    + apply IZR_le. apply Z.leb_le. vm_compute. reflexivity.
    + change 2 with (IZR 2). rewrite pow_IZR. apply IZR_le.
      apply Z.leb_le. vm_compute. reflexivity.
  - apply Rle_trans with (exp (INR 128)).
    + apply exp_INR_ge_pow2.
    + left. apply exp_increasing.
      replace (INR 128) with 128 by (rewrite INR_IZR_INZ; reflexivity). lra.
Qed.

(** The float32 exponential of 1000000 is an infinity. *)
Lemma exp_float32_overflow :
  F32.exp (F32.of_Z 1000000) = SpecFloat.S754_infinity false.
Proof.
  assert (E : F32.exp (F32.of_Z 1000000)
              = F32.round (exp (F32.to_R (F32.of_Z 1000000)))).
  { replace (F32.of_Z 1000000) with (SpecFloat.S754_finite false 16000000 (-4))
      by (vm_compute; reflexivity). reflexivity. }
  rewrite E, to_R_million. unfold F32.round.
  pose proof (exp_pos 1000000) as Hpos.
  destruct (Req_EM_T (exp 1000000) 0) as [E0|_]; [lra|].
  destruct (Rlt_dec (exp 1000000) 0) as [E0|_]; [lra|].
  rewrite Rabs_pos_eq by lra.
  destruct (Rle_dec F32.overflow_threshold (exp 1000000)) as [_|N];
    [reflexivity|].
  exfalso. apply N. exact exp_million_overflows.
Qed.

(** In float32 the squash of the vector (10000, 0) is (1.0, 0.0), whose
    length is exactly 1, not less: the squared length 1e8 absorbs the 1 added
    to it, so the squash factor is 1e8 / 1e8. *)
Lemma squash_float32_length_reaches_one :
  let v := F32.mkT [1; 2]%nat
             (fun idx => if Nat.eqb (nth 1 idx 0%nat) 0
                         then F32.of_Z 10000 else F32.of_Z 0) in
  let out := F32.squash v (-1) in
  F32.shape out = [1; 2]%nat /\
  F32.at_ out [0; 0]%nat = F32.of_Z 1 /\
  F32.at_ out [0; 1]%nat = F32.of_Z 0 /\
  norm 2 (fun j => F32.to_R (F32.at_ out [0%nat; j])) = 1 /\
  ~ norm 2 (fun j => F32.to_R (F32.at_ out [0%nat; j])) < 1.
Proof.
  intros v out.
  assert (E0 : F32.at_ out [0; 0]%nat = F32.of_Z 1) by (vm_compute; reflexivity).
  assert (E1 : F32.at_ out [0; 1]%nat = F32.of_Z 0) by (vm_compute; reflexivity).
  assert (En : norm 2 (fun j => F32.to_R (F32.at_ out [0%nat; j])) = 1).
  { unfold norm, sq_norm, rsum_n. cbn [fold_n].
    rewrite E0, E1, to_R_one, to_R_zero.
    replace (1 * 1 + 0 * 0) with 1 by ring. apply sqrt_1. }
  split; [reflexivity|]. split; [exact E0|]. split; [exact E1|].
  split; [exact En|]. rewrite En. lra.
Qed.

(** A vector whose squared length overflows is squashed to NaN: the squash
    factor is infinity / infinity. *)
Lemma squash_float32_overflow :
  let v := F32.mkT [1; 2]%nat
             (fun idx => if Nat.eqb (nth 1 idx 0%nat) 0
                         then F32.of_Z 30000000000000000000
                         else F32.of_Z 40000000000000000000) in
  let out := F32.squash v (-1) in
  F32.at_ out [0; 0]%nat = SpecFloat.S754_nan /\
  F32.at_ out [0; 1]%nat = SpecFloat.S754_nan.
Proof. intros v out. split; vm_compute; reflexivity. Qed.

(** In float32 the multi-axis softmax of the logits (0, 1000000), each
    normalised on its own over axes (1, 2, 3), is (1.0, NaN). The exponential
    of 1000000 overflows and no maximum is subtracted first, so the second
    coefficient is infinity / infinity: it is not non-negative and its sum
    over the normalised axes is not 1. *)
Lemma conv_softmax_float32_overflow :
  let logits := F32.mkT [1; 1; 1; 1; 2]%nat
                  (fun idx => if Nat.eqb (nth 4 idx 0%nat) 0
                              then F32.of_Z 0 else F32.of_Z 1000000) in
  exists cc,
    F32.softmax logits [1; 2; 3]%nat = Ok cc /\
    F32.at_ cc [0; 0; 0; 0; 0]%nat = F32.of_Z 1 /\
    F32.at_ cc [0; 0; 0; 0; 1]%nat = SpecFloat.S754_nan /\
    F32.leb (F32.of_Z 0) (F32.at_ cc [0; 0; 0; 0; 1]%nat) = false /\
    F32.eqb
      (fold_over F32.add (F32.of_Z 0)
         (dims_of (F32.shape cc) [1; 2; 3]%nat) (F32.at_ cc) [0; 0; 0; 0; 1]%nat)
      (F32.of_Z 1) = false.
Proof.
  intros logits. eexists. split; [reflexivity|].
  assert (E : F32.at_ (F32.bop F32.div (F32.tmap F32.exp logits)
                         (F32.reduce_sum_keep (F32.tmap F32.exp logits)
                            [1; 2; 3]%nat)) [0; 0; 0; 0; 1]%nat
              = SpecFloat.S754_nan).
  { change (F32.div (F32.exp (F32.of_Z 1000000)) (F32.exp (F32.of_Z 1000000))
            = SpecFloat.S754_nan).
    rewrite exp_float32_overflow. reflexivity. }
  split; [vm_compute; reflexivity|]. split; [exact E|]. split.
  - rewrite E. reflexivity.
  - change (F32.eqb
              (F32.at_ (F32.bop F32.div (F32.tmap F32.exp logits)
                          (F32.reduce_sum_keep (F32.tmap F32.exp logits)
                             [1; 2; 3]%nat)) [0; 0; 0; 0; 1]%nat)
              (F32.of_Z 1) = false).
    rewrite E. reflexivity.
Qed.

(** ** The theorems at concrete inputs *)

(** Routing weights for one output filter and two input filters. *)
Lemma conv_coupling_normalised_per_input_filter_witness :
  ((0 < 1)%nat /\ (0 < 1)%nat /\ (0 < 1)%nat /\ (0 < 1)%nat /\ (1 < 2)%nat) /\
  shape (CapsConv.initial_weight 1 2 (zeros [1; 1; 1; 2; 1; 1]%nat))
    = [1; 1; 1; 1; 2]%nat /\
  exists cc,
    CapsConv.softmax (of_real [1; 1; 1; 1; 2]%nat (fun _ => 0)) [1; 2; 3]%nat = Ok cc /\
    shape cc = [1; 1; 1; 1; 2]%nat /\
    ssum_n 1 (fun q => ssum_n 1 (fun r => ssum_n 1 (fun s =>
      at_ cc [0; q; r; s; 1]%nat))) = Some 1.
Proof.
  split; [repeat split; lia|].
  apply (conv_coupling_normalised_per_input_filter
           1 1 1 1 2 [2; 1; 1]%nat (fun _ => 0) 0 1); lia.
Defined.

(** Logits 0 and 1000000 side by side. *)
Lemma coupling_coefficients_nonneg_sum_one_witness :
  let shp := [1; 1; 1; 1; 2]%nat in
  let f := fun idx => 1000000 * INR (nth 4 idx 0%nat) in
  let idx := [0; 0; 0; 0; 1]%nat in
  in_range shp idx /\
  length [1; 2; 3]%nat = 3%nat /\
  (forall a, In a [1; 2; 3]%nat -> (a < length shp)%nat) /\
  (2 < length shp)%nat /\
  (exists cc,
     CapsConv.softmax (of_real shp f) [1; 2; 3]%nat = Ok cc /\
     (exists c, at_ cc idx = Some c /\ 0 <= c) /\
     ssum_over (dims_of shp [1; 2; 3]%nat) (at_ cc) idx = Some 1) /\
  (let prob_w := tf_nn_softmax (of_real shp f) 2 in
   (exists c, at_ prob_w idx = Some c /\ 0 <= c) /\
   ssum_n (nth 2 shp 0%nat) (fun j => at_ prob_w (upd idx 2 j)) = Some 1).
Proof.
  intros shp f idx.
  assert (Hi : in_range shp idx) by (apply in_range_5; lia).
  assert (Hax : forall a, In a [1; 2; 3]%nat -> (a < length shp)%nat)
    by (intros a Ha; simpl in *; lia).
  assert (Hrk : (2 < length shp)%nat) by (simpl; lia).
  destruct (coupling_coefficients_nonneg_sum_one shp f [1; 2; 3]%nat idx Hi)
    as [Hconv Hdense].
  split; [exact Hi|]. split; [reflexivity|]. split; [exact Hax|].
  split; [exact Hrk|]. split.
  - exact (Hconv eq_refl Hax).
  - exact (Hdense Hrk).
Defined.

Lemma softmax_invariant_under_max_subtraction_witness :
  let shp := [1; 1; 1; 1; 2]%nat in
  let f := fun idx => 1000000 * INR (nth 4 idx 0%nat) in
  let idx := [0; 0; 0; 0; 1]%nat in
  length [1; 2; 3]%nat = 3%nat /\
  (forall a, In a [1; 2; 3]%nat -> (a < length shp)%nat) /\
  in_range shp idx /\
  exists s1 s2,
    CapsConv.softmax (of_real shp f) [1; 2; 3]%nat = Ok s1 /\
    softmax_max_subtracted (of_real shp f) [1; 2; 3]%nat = Ok s2 /\
    shape s1 = shape s2 /\
    at_ s1 idx = at_ s2 idx.
Proof.
  intros shp f idx.
  assert (Hi : in_range shp idx) by (apply in_range_5; lia).
  assert (Hax : forall a, In a [1; 2; 3]%nat -> (a < length shp)%nat)
    by (intros a Ha; simpl in *; lia).
  split; [reflexivity|]. split; [exact Hax|]. split; [exact Hi|].
  exact (softmax_invariant_under_max_subtraction shp f [1; 2; 3]%nat idx
           eq_refl Hax Hi).
Defined.

(** The vector (3, 4) along the last axis. *)
Lemma squash_length_and_direction_witness :
  let epsilon := 1 / 10000000 in
  let shp := [1; 2]%nat in
  let f := fun idx => INR (nth 1 idx 0%nat) + 3 in
  let idx := [0; 0]%nat in
  0 < epsilon /\
  in_range shp idx /\
  let a := norm_axis (length shp) (-1) in
  let n := nth a shp 0%nat in
  let v := fun j => f (upd idx a j) in
  let out := Activations.squash epsilon (of_real shp f) (-1) in
  shape out = shp /\
  exists c,
    0 <= c /\
    ((exists j, (j < n)%nat /\ v j <> 0) -> 0 < c) /\
    (forall j, (j < n)%nat -> at_ out (upd idx a j) = Some (c * v j)) /\
    norm n (fun j => c * v j) < 1 /\
    sq_norm n v / (1 + sq_norm n v) - epsilon
      <= norm n (fun j => c * v j) <= sq_norm n v / (1 + sq_norm n v).
Proof.
  intros epsilon shp f idx.
  assert (Heps : 0 < epsilon) by (unfold epsilon; lra).
  assert (Hi : in_range shp idx) by (apply in_range_2; lia).
  split; [exact Heps|]. split; [exact Hi|].
  exact (squash_length_and_direction epsilon shp f (-1) idx Heps Hi).
Defined.

(** The zero vector of length 2 along the last axis. *)
Lemma squash_zero_vector_witness :
  let epsilon := 1 / 10000000 in
  let shp := [1; 2]%nat in
  let f := fun _ : list nat => 0 in
  let idx := [0; 0]%nat in
  0 < epsilon /\
  in_range shp idx /\
  (forall j, (j < 2)%nat -> f (upd idx 1 j) = 0) /\
  (1 < 2)%nat /\
  at_ (Activations.squash epsilon (of_real shp f) (-1)) (upd idx 1 1) = Some 0.
Proof.
  intros epsilon shp f idx.
  assert (Heps : 0 < epsilon) by (unfold epsilon; lra).
  assert (Hi : in_range shp idx) by (apply in_range_2; lia).
  assert (Hz : forall j, (j < 2)%nat -> f (upd idx 1 j) = 0) by reflexivity.
  split; [exact Heps|]. split; [exact Hi|]. split; [exact Hz|].
  split; [lia|].
  exact (squash_zero_vector epsilon shp f (-1) idx Heps Hi Hz 1%nat (le_n 2)).
Defined.

(** Three classes, the second one true and predicted with length 1. *)
Lemma margin_loss_zero_on_perfect_prediction_witness :
  let y := fun idx => one_hot 1 (nth 1 idx 0%nat) in
  (0 < 1)%nat /\ (1 < 3)%nat /\
  (forall c, (c < 3)%nat -> y [0; c]%nat = one_hot 1 c) /\
  at_ (Losses.margin_loss_default (of_real [1; 3]%nat y) (of_real [1; 3]%nat y))
    [0%nat] = Some 0.
Proof.
  intros y.
  assert (Hy : forall c, (c < 3)%nat -> y [0; c]%nat = one_hot 1 c) by reflexivity.
  split; [lia|]. split; [lia|]. split; [exact Hy|].
  exact (margin_loss_zero_on_perfect_prediction 1 3 y y 0 1
           ltac:(lia) ltac:(lia) Hy Hy).
Defined.

(** Two classes, truth [1, 0], prediction [0, 0]. *)
Lemma margin_loss_is_class_mean_witness :
  let yt := fun idx => one_hot 0 (nth 1 idx 0%nat) in
  let yp := fun _ : list nat => 0 in
  (0 < 1)%nat /\ (0 < 2)%nat /\
  let loss := Losses.margin_loss_default (of_real [1; 2]%nat yt)
                (of_real [1; 2]%nat yp) in
  let y_true := fun c => yt [0; c]%nat in
  let y_pred := fun c => yp [0; c]%nat in
  shape loss = [1%nat] /\
  at_ loss [0%nat] = Some (margin_loss_spec 2 y_true y_pred) /\
  margin_loss_spec 2 y_true y_pred
    = margin_loss_sum 2 y_true y_pred / INR 2.
Proof.
  intros yt yp. split; [lia|]. split; [lia|].
  exact (margin_loss_is_class_mean 1 2 yt yp 0 ltac:(lia) ltac:(lia)).
Defined.

(** routing_iter = 1: two squash applications in the dense layer, one in the
    convolutional routing layer. *)
Lemma squash_applications_per_routing_call_witness :
  (1 <= 1)%Z /\
  (exists t tr,
     CapsDense.dynamic_routing (1 / 10000000) 1 1 1 1
       (zeros [1; 1; 1; 1; 1]%nat) [] = (Ok t, tr) /\
     applications OpSquash tr = 2%nat) /\
  (exists t tr,
     CapsConv.dynamic_routing (1 / 10000000) 1 1 1
       (zeros [1; 1; 1; 1; 1; 1]%nat) [] = (Ok (Tensor t), tr) /\
     applications OpSquash tr = 1%nat).
Proof.
  split; [lia|].
  apply (squash_applications_per_routing_call (1 / 10000000) 1 1 1 1 1 1
           (zeros [1; 1; 1; 1; 1]%nat) (zeros [1; 1; 1; 1; 1; 1]%nat)).
  lia.
Defined.

(** routing_iter = 0 and routing_iter = 1 in the convolutional routing
    layer; routing_iter = 0 in the dense layer. *)
Lemma routing_iter_check_witness :
  ((0 <= 0)%Z /\
   CapsConv.dynamic_routing (1 / 10000000) 0 1 1
     (zeros [1; 1; 1; 1; 1; 1]%nat) [] = (Raise RoutingIterError, [])) /\
  ((1 <= 1)%Z /\
   exists t tr,
     CapsConv.dynamic_routing (1 / 10000000) 1 1 1
       (zeros [1; 1; 1; 1; 1; 1]%nat) [] = (Ok (Tensor t), tr)) /\
  (exists t tr,
     CapsDense.dynamic_routing (1 / 10000000) 0 1 1 1
       (zeros [1; 1; 1; 1; 1]%nat) [] = (Ok t, tr)).
Proof.
  destruct (routing_iter_check (1 / 10000000) 0 1 1 1 1 1
              (zeros [1; 1; 1; 1; 1]%nat) (zeros [1; 1; 1; 1; 1; 1]%nat))
    as [Hraise [_ [Hdense _]]].
  destruct (routing_iter_check (1 / 10000000) 1 1 1 1 1 1
              (zeros [1; 1; 1; 1; 1]%nat) (zeros [1; 1; 1; 1; 1; 1]%nat))
    as [_ [Hok _]].
  split; [split; [lia | apply Hraise; lia]|].
  split; [split; [lia | apply Hok; lia]|].
  exact Hdense.
Defined.

(** A rank-4 and a rank-5 input shape with an unknown batch dimension. *)
Lemma build_rank_check_witness :
  let conv := CapsConv.init 32 8 3 (3, 3)%nat (1, 1)%nat in
  let dense := CapsDense.init 10 16 3 in
  let rank4 := [None; Some 6; Some 6; Some 8]%nat in
  let rank5 := [None; Some 6; Some 6; Some 8; Some 8]%nat in
  (length rank4 <> 5%nat /\
   CapsConv.build conv rank4 = (Raise (RankError 4), conv) /\
   CapsDense.build dense rank4 = (Raise (RankError 4), dense)) /\
  (length rank5 = 5%nat /\
   forall got,
     fst (CapsConv.build conv rank5) <> Raise (RankError got) /\
     fst (CapsDense.build dense rank5) <> Raise (RankError got)).
Proof.
  intros conv dense rank4 rank5.
  assert (H4 : length rank4 <> 5%nat) by (simpl; lia).
  destruct (build_rank_check conv dense rank4) as [Hraise _].
  destruct (build_rank_check conv dense rank5) as [_ Hok].
  destruct (Hraise H4) as [Hc [Hd _]].
  split; [split; [exact H4 | split; [exact Hc | exact Hd]]|].
  split; [reflexivity | exact (Hok eq_refl)].
Defined.

(** * Further properties of the program *)

(** ** Sums of non-negative terms *)

Lemma rsum_n_eq_0 n g :
  (forall j, (j < n)%nat -> 0 <= g j) -> rsum_n n g = 0 ->
  forall j, (j < n)%nat -> g j = 0.
Proof.
  induction n as [|k IH]; intros Hg Hsum j Hj; [lia|].
  rewrite rsum_n_S in Hsum.
  assert (0 <= rsum_n k g) by (apply rsum_n_nonneg; intros; apply Hg; lia).
  assert (0 <= g k) by (apply Hg; lia).
  destruct (Nat.eq_dec j k) as [->|Hne]; [lra|].
  apply IH; [intros; apply Hg; lia | lra | lia].
Qed.

Lemma rsum_n_const n c : rsum_n n (fun _ => c) = INR n * c.
Proof.
  induction n as [|k IH]; [unfold rsum_n; simpl; lra|].
  rewrite rsum_n_S, IH, S_INR. lra.
Qed.

Lemma rsum_n_le n g h :
  (forall j, (j < n)%nat -> g j <= h j) -> rsum_n n g <= rsum_n n h.
Proof.
  induction n as [|k IH]; intros H; [unfold rsum_n; simpl; lra|].
  rewrite !rsum_n_S.
  assert (rsum_n k g <= rsum_n k h) by (apply IH; intros; apply H; lia).
  assert (g k <= h k) by (apply H; lia). lra.
Qed.

Lemma rsum_n_ext n g h :
  (forall j, (j < n)%nat -> g j = h j) -> rsum_n n g = rsum_n n h.
Proof. apply fold_n_ext. Qed.


Lemma Rmax_0_nonneg x : 0 <= Rmax 0 x.
Proof. unfold Rmax. destruct (Rle_dec 0 x); lra. Qed.

(** ** Margin loss: sign and zeros *)

(** X1: with a ground truth whose entries lie in [0, 1] and a non-negative
    weight of the negative term, the margin loss of an example is a finite,
    non-negative number. *)
Theorem margin_loss_nonneg :
  forall (batch num_caps : nat) (yt yp : list nat -> R) (m_p m_n lambda : R)
         (i : nat),
    (i < batch)%nat -> (0 < num_caps)%nat -> 0 <= lambda ->
    (forall c, (c < num_caps)%nat -> 0 <= yt [i; c] <= 1) ->
    exists l,
      at_ (Losses.margin_loss (of_real [batch; num_caps] yt)
             (of_real [batch; num_caps] yp) m_p m_n lambda) [i] = Some l /\
      0 <= l.
Proof.
  intros batch num_caps yt yp m_p m_n lambda i Hi Hn Hl Hy.
  rewrite margin_loss_entry by assumption.
  eexists. split; [reflexivity|].
  assert (0 < INR num_caps) by now apply lt_0_INR.
  apply Rmult_le_pos; [|left; now apply Rinv_0_lt_compat].
  apply rsum_n_nonneg. intros c Hc. specialize (Hy c Hc).
  pose proof (Rmax_0_nonneg (m_p - yp [i; c])).
  pose proof (Rmax_0_nonneg (yp [i; c] - m_n)).
  assert (0 <= Rmax 0 (m_p - yp [i; c]) * Rmax 0 (m_p - yp [i; c])) by nra.
  assert (0 <= Rmax 0 (yp [i; c] - m_n) * Rmax 0 (yp [i; c] - m_n)) by nra.
  assert (0 <= (1 - yt [i; c])
               * (Rmax 0 (yp [i; c] - m_n) * Rmax 0 (yp [i; c] - m_n))) by nra.
  nra.
Qed.

Lemma margin_loss_nonneg_witness :
  let yt := fun idx => one_hot 0 (nth 1 idx 0%nat) in
  let yp := fun _ : list nat => 1 / 2 in
  (0 < 1)%nat /\ (0 < 2)%nat /\ 0 <= 1 / 2 /\
  (forall c, (c < 2)%nat -> 0 <= yt [0; c]%nat <= 1) /\
  exists l,
    at_ (Losses.margin_loss (of_real [1; 2]%nat yt) (of_real [1; 2]%nat yp)
           (9 / 10) (1 / 10) (1 / 2)) [0%nat] = Some l /\
    0 <= l.
Proof.
  intros yt yp.
  assert (Hy : forall c, (c < 2)%nat -> 0 <= yt [0; c]%nat <= 1).
  { intros c Hc. unfold yt, one_hot. simpl. destruct (Nat.eqb c 0); lra. }
  split; [lia|]. split; [lia|]. split; [lra|]. split; [exact Hy|].
  exact (margin_loss_nonneg 1 2 yt yp (9 / 10) (1 / 10) (1 / 2) 0
           ltac:(lia) ltac:(lia) ltac:(lra) Hy).
Defined.



(** ** Sums over all positions of a tensor *)

Lemma rsum_over_nonneg dims h idx :
  (forall i, 0 <= h i) -> 0 <= rsum_over dims h idx.
Proof.
  intros Hh. revert idx. induction dims as [|[a n] rest IH]; intros idx.
  - apply Hh.
  - unfold rsum_over in *. simpl. apply rsum_n_nonneg. intros j _. apply IH.
Qed.

Lemma rsum_over_zero dims idx : rsum_over dims (fun _ => 0) idx = 0.
Proof.
  revert idx. induction dims as [|[a n] rest IH]; intros idx; [reflexivity|].
  unfold rsum_over in *. simpl. apply rsum_n_zero. intros j _. apply IH.
Qed.

Lemma numel_pos shp k :
  (0 < numel shp)%nat -> (k < length shp)%nat -> (0 < nth k shp 0)%nat.
Proof.
  revert k. induction shp as [|d ds IH]; intros k Hn Hk; [simpl in Hk; lia|].
  simpl in Hn. destruct k as [|k]; simpl.
  - destruct d; [simpl in Hn; lia | lia].
  - apply IH; [|simpl in Hk; lia]. destruct (numel ds); lia.
Qed.

Lemma nth_repeat_0 k n : nth k (repeat 0%nat n) 0%nat = 0%nat.
Proof.
  revert k. induction n as [|m IH]; intros k; destruct k; simpl; auto.
Qed.

Lemma in_range_origin shp :
  (0 < numel shp)%nat -> in_range shp (repeat 0%nat (length shp)).
Proof.
  intros Hn. split; [apply repeat_length|].
  intros k Hk. rewrite nth_repeat_0. now apply numel_pos.
Qed.

(** A sum of non-negative terms over all positions that is 0 has every term
    at a position of the tensor equal to 0. *)
Lemma rsum_over_all_eq_0 shp h :
  (forall i, 0 <= h i) ->
  forall m k idx j,
    (k + m = length shp)%nat -> length idx = length shp -> in_range shp j ->
    (forall l, (l < k)%nat -> nth l idx 0%nat = nth l j 0%nat) ->
    rsum_over (dims_of shp (seq k m)) h idx = 0 -> h j = 0.
Proof.
  intros Hh. induction m as [|m IH]; intros k idx j Hkm Hlen Hj Hpre Hsum.
  - simpl in Hsum. replace j with idx; trivial.
    destruct Hj as [Hjl _].
    apply (nth_ext _ _ 0%nat 0%nat); [congruence|].
    intros l Hl. apply Hpre. lia.
  - simpl in Hsum. unfold rsum_over in Hsum. simpl in Hsum.
    assert (Hv : (nth k j 0 < nth k shp 0)%nat)
      by (destruct Hj as [_ Hr]; apply Hr; lia).
    pose proof (rsum_n_eq_0 _ _
                  (fun v _ => rsum_over_nonneg (dims_of shp (seq (S k) m)) h
                                (upd idx k v) Hh)
                  Hsum (nth k j 0%nat) Hv) as Hin.
    apply (IH (S k) (upd idx k (nth k j 0%nat)) j); trivial.
    + lia.
    + now rewrite length_upd.
    + intros l Hl. destruct (Nat.eq_dec l k) as [->|Hne].
      * rewrite nth_upd by lia. now rewrite Nat.eqb_refl.
      * rewrite nth_upd_other by assumption. apply Hpre. lia.
Qed.

(** ** Reconstruction loss *)

Lemma reconstruction_loss_entry shp yt yp idx :
  (0 < numel shp)%nat ->
  at_ (Losses.reconstruction_loss (of_real shp yt) (of_real shp yp)) idx
  = Some (rsum_over (dims_of shp (seq 0 (length shp)))
            (fun j => (yt j - yp j) * (yt j - yp j))
            (repeat 0%nat (length shp))
          / INR (numel shp)).
Proof.
  intros Hn. unfold Losses.reconstruction_loss, reduce_mean_all, rank.
  cbn [at_]. 
  assert (Hs : shape (tsquare (tsub (of_real shp yt) (of_real shp yp))) = shp)
    by apply bshape_same.
  rewrite Hs. unfold ssum_over, sadd.
  rewrite (fold_over_lift Rplus (Some 0) 0 _ _
             (fun j => (yt j - yp j) * (yt j - yp j)) (in_range shp)).
  - fold (rsum_over (dims_of shp (seq 0 (length shp)))
            (fun j => (yt j - yp j) * (yt j - yp j))
            (repeat 0%nat (length shp))).
    unfold sdiv. destruct (Req_EM_T (INR (numel shp)) 0) as [E|_]; trivial.
    assert (0 < INR (numel shp)) by now apply lt_0_INR. lra.
  - intros. now right.
  - intros i a n v Hd Hv Hi. apply in_dims_of in Hd. destruct Hd as [_ ->].
    now apply in_range_upd.
  - intros i Hi. unfold tsquare, tsub, tmap, bop, of_real. cbn [at_ shape].
    now rewrite (bidx_in_range shp i Hi).
  - now apply in_range_origin.
Qed.

(** X3: the reconstruction loss of two finite tensors of the same non-empty
    shape is a finite, non-negative number, and it is 0 exactly when the two
    tensors agree at every position. *)
Theorem reconstruction_loss_zero_iff_equal :
  forall (shp : list nat) (yt yp : list nat -> R) (idx : list nat),
    (0 < numel shp)%nat ->
    exists l,
      at_ (Losses.reconstruction_loss (of_real shp yt) (of_real shp yp)) idx
        = Some l /\
      0 <= l /\
      (l = 0 <-> forall j, in_range shp j -> yt j = yp j).
Proof.
  intros shp yt yp idx Hn.
  rewrite reconstruction_loss_entry by assumption.
  set (h := fun j => (yt j - yp j) * (yt j - yp j)).
  assert (Hh : forall i, 0 <= h i)
    by (intros i; apply (Rle_0_sqr (yt i - yp i))).
  assert (Hpos : 0 < INR (numel shp)) by now apply lt_0_INR.
  pose proof (Rinv_0_lt_compat _ Hpos) as Hinv.
  pose proof (rsum_over_nonneg (dims_of shp (seq 0 (length shp))) h
                (repeat 0%nat (length shp)) Hh) as Hsum.
  eexists. split; [reflexivity|]. split; [unfold Rdiv; nra|]. split.
  - intros Hz j Hj.
    assert (Hs0 : rsum_over (dims_of shp (seq 0 (length shp))) h
                    (repeat 0%nat (length shp)) = 0).
    { unfold Rdiv in Hz. apply Rmult_integral in Hz. destruct Hz; [assumption|lra]. }
    assert (h j = 0).
    { apply (rsum_over_all_eq_0 shp h Hh (length shp) 0%nat
               (repeat 0%nat (length shp)) j); trivial.
      - apply repeat_length.
      - intros l Hl. lia. }
    unfold h in H. nra.
  - intros Heq.
    assert (Hs0 : rsum_over (dims_of shp (seq 0 (length shp))) h
                    (repeat 0%nat (length shp)) = 0).
    { unfold rsum_over.
      rewrite (fold_over_ext Rplus 0 _ h (fun _ => 0) (in_range shp)).
      - apply rsum_over_zero.
      - intros i a n v Hd Hv Hi. apply in_dims_of in Hd. destruct Hd as [_ ->].
        now apply in_range_upd.
      - intros i Hi. unfold h. rewrite (Heq i Hi). ring.
      - now apply in_range_origin. }
    rewrite Hs0. unfold Rdiv. ring.
Qed.

Lemma reconstruction_loss_zero_iff_equal_witness :
  let shp := [1; 2; 2; 1]%nat in
  let yt := fun idx => INR (nth 1 idx 0%nat) in
  let yp := fun idx => INR (nth 2 idx 0%nat) in
  (0 < numel shp)%nat /\
  exists l,
    at_ (Losses.reconstruction_loss (of_real shp yt) (of_real shp yp)) [] = Some l /\
    0 <= l /\
    (l = 0 <-> forall j, in_range shp j -> yt j = yp j).
Proof.
  intros shp yt yp.
  assert (Hn : (0 < numel shp)%nat) by (simpl; lia).
  split; [exact Hn|].
  exact (reconstruction_loss_zero_iff_equal shp yt yp [] Hn).
Defined.

(** ** Argmax and accuracy *)

Lemma argmax_n_first_max n g v :
  (forall j, (j < n)%nat -> g j = Some (v j)) -> (0 < n)%nat ->
  let k := argmax_n n g in
  (k < n)%nat /\
  (forall j, (j < n)%nat -> v j <= v k) /\
  (forall j, (j < k)%nat -> v j < v k).
Proof.
  induction n as [|m IH]; intros Hg Hn; [lia|].
  destruct m as [|m'].
  - simpl. rewrite (Hg 0%nat) by lia. simpl.
    destruct (Rlt_dec (v 0%nat) (v 0%nat)) as [H|_]; [lra|].
    repeat split; try lia.
    intros j Hj. replace j with 0%nat by lia. lra.
  - destruct (IH (fun j Hj => Hg j (Nat.lt_lt_succ_r _ _ Hj)) ltac:(lia))
      as [Hlt [Hmax Hfirst]].
    change (argmax_n (S (S m')) g)
      with (if sgt (g (S m')) (g (argmax_n (S m') g))
            then S m' else argmax_n (S m') g).
    set (best := argmax_n (S m') g) in *.
    rewrite (Hg (S m')), (Hg best) by lia. simpl.
    destruct (Rlt_dec (v best) (v (S m'))) as [Hgt|Hle].
    + repeat split; try lia.
      * intros j Hj. destruct (Nat.eq_dec j (S m')) as [->|Hne]; [lra|].
        assert (v j <= v best) by (apply Hmax; lia). lra.
      * intros j Hj. assert (v j <= v best) by (apply Hmax; lia). lra.
    + repeat split; try lia; trivial.
      intros j Hj. destruct (Nat.eq_dec j (S m')) as [->|Hne]; [lra|].
      apply Hmax. lia.
Qed.

(** Along an axis of finite entries, argmax is the position of the
    first largest entry: it is [k] exactly when no entry exceeds entry [k]
    and every entry before [k] is strictly smaller. *)
Lemma argmax_is_first_maximum :
  forall (n : nat) (v : nat -> R) (k : nat),
    (0 < n)%nat ->
    (argmax_n n (fun j => Some (v j)) = k
     <->
     (k < n)%nat /\
     (forall j, (j < n)%nat -> v j <= v k) /\
     (forall j, (j < k)%nat -> v j < v k)).
Proof.
  intros n v k Hn.
  destruct (argmax_n_first_max n (fun j => Some (v j)) v
              (fun _ _ => eq_refl) Hn) as [Hlt [Hmax Hfirst]].
  set (a := argmax_n n (fun j => Some (v j))) in *.
  split.
  - intros <-. auto.
  - intros [Hk [Hkmax Hkfirst]].
    destruct (Nat.lt_trichotomy a k) as [H|[H|H]]; trivial.
    + pose proof (Hkfirst a H). pose proof (Hmax k Hk). lra.
    + pose proof (Hfirst k H). pose proof (Hkmax a Hlt). lra.
Qed.

Lemma predicted_class_one_hot num_caps y i k :
  (k < num_caps)%nat ->
  (forall c, (c < num_caps)%nat -> y [i; c] = one_hot k c) ->
  predicted_class num_caps y i = k.
Proof.
  intros Hk Hy. unfold predicted_class.
  apply argmax_is_first_maximum; [lia|].
  assert (E : one_hot k k = 1)
    by (unfold one_hot; now rewrite Nat.eqb_refl).
  split; [exact Hk|]. rewrite (Hy k Hk), E. split.
  - intros j Hj. rewrite (Hy j Hj). unfold one_hot.
    destruct (Nat.eqb j k); lra.
  - intros j Hj. rewrite (Hy j) by lia. unfold one_hot.
    destruct (Nat.eqb_spec j k); [lia | lra].
Qed.

Lemma accuracy_entry batch num_caps yt yp idx :
  (0 < batch)%nat ->
  at_ (Metrics.accuracy (of_real [batch; num_caps] yt)
         (of_real [batch; num_caps] yp)) idx
  = Some (matching_fraction batch num_caps yt yp).
Proof.
  intros Hb.
  set (A := argmax (of_real [batch; num_caps] yt) 1).
  set (B := argmax (of_real [batch; num_caps] yp) 1).
  change (Metrics.accuracy (of_real [batch; num_caps] yt)
            (of_real [batch; num_caps] yp))
    with (reduce_mean_all (equal_as_float A B)).
  assert (Hs : shape (equal_as_float A B) = [batch]) by apply bshape_same.
  unfold reduce_mean_all, rank. cbn [at_].
  rewrite Hs. change (length [batch]) with 1%nat.
  unfold ssum_over, sadd. cbn [dims_of map seq nth repeat fold_over].
  rewrite (fold_n_lift Rplus (Some 0) 0 batch _
             (fun i => if Nat.eqb (predicted_class num_caps yt i)
                                  (predicted_class num_caps yp i)
                       then 1 else 0)).
  - unfold matching_fraction, rsum_n, sdiv.
    replace (numel [batch]) with batch by (simpl; lia).
    destruct (Req_EM_T (INR batch) 0) as [E|_]; trivial.
    assert (0 < INR batch) by now apply lt_0_INR. lra.
  - now right.
  - intros i Hi. change (upd [0%nat] 0 i) with [i].
    assert (Hr : in_range [batch] [i]).
    { split; [reflexivity|]. intros k Hk. simpl in Hk.
      destruct k as [|k]; [simpl; assumption | lia]. }
    unfold equal_as_float, bop. cbn [at_].
    change (shape A) with [batch]. change (shape B) with [batch].
    rewrite (bidx_in_range [batch] [i] Hr).
    unfold A, B, argmax, of_real. cbn [at_ shape nth ins firstn skipn app].
    fold (predicted_class num_caps yt i). fold (predicted_class num_caps yp i).
    unfold seq_.
    destruct (Req_EM_T (INR (predicted_class num_caps yt i))
                (INR (predicted_class num_caps yp i))) as [E|E].
    + apply INR_eq in E. rewrite E, Nat.eqb_refl. reflexivity.
    + destruct (Nat.eqb_spec (predicted_class num_caps yt i)
                  (predicted_class num_caps yp i)) as [E'|_]; trivial.
      rewrite E' in E. contradiction.
Qed.

(** X4: on (batch, num_caps) arrays of finite entries with a non-empty
    batch, accuracy is the fraction of the examples whose ground-truth row
    and predicted row have their first largest entry at the same position; it
    lies between 0 and 1. *)
Theorem accuracy_is_matching_fraction :
  forall (batch num_caps : nat) (yt yp : list nat -> R) (idx : list nat),
    (0 < batch)%nat ->
    at_ (Metrics.accuracy (of_real [batch; num_caps] yt)
           (of_real [batch; num_caps] yp)) idx
      = Some (matching_fraction batch num_caps yt yp) /\
    0 <= matching_fraction batch num_caps yt yp <= 1.
Proof.
  intros batch num_caps yt yp idx Hb.
  split; [now apply accuracy_entry|].
  assert (Hpos : 0 < INR batch) by now apply lt_0_INR.
  pose proof (Rinv_0_lt_compat _ Hpos) as Hinv.
  unfold matching_fraction.
  set (g := fun i => if Nat.eqb (predicted_class num_caps yt i)
                                (predicted_class num_caps yp i)
                     then 1 else 0).
  assert (H0 : 0 <= rsum_n batch g).
  { apply rsum_n_nonneg. intros i _. unfold g.
    destruct (Nat.eqb _ _); lra. }
  assert (H1 : rsum_n batch g <= INR batch).
  { replace (INR batch) with (rsum_n batch (fun _ => 1))
      by (rewrite rsum_n_const; ring).
    apply rsum_n_le. intros i _. unfold g. destruct (Nat.eqb _ _); lra. }
  unfold Rdiv. split; [nra|].
  assert (rsum_n batch g * / INR batch <= INR batch * / INR batch) by nra.
  rewrite Rinv_r in H by lra. exact H.
Qed.

Lemma accuracy_is_matching_fraction_witness :
  let yt := fun idx => one_hot (nth 0 idx 0%nat) (nth 1 idx 0%nat) in
  let yp := fun idx => INR (nth 1 idx 0%nat) in
  (0 < 2)%nat /\
  at_ (Metrics.accuracy (of_real [2; 3]%nat yt) (of_real [2; 3]%nat yp)) []
    = Some (matching_fraction 2 3 yt yp) /\
  0 <= matching_fraction 2 3 yt yp <= 1.
Proof.
  intros yt yp. split; [lia|].
  exact (accuracy_is_matching_fraction 2 3 yt yp [] ltac:(lia)).
Defined.

(** X5: when every ground-truth row is one-hot, accuracy is the fraction of
    the examples whose predicted row has its first largest entry at the
    labelled class. *)
Theorem accuracy_against_one_hot_labels :
  forall (batch num_caps : nat) (yt yp : list nat -> R) (label : nat -> nat)
         (idx : list nat),
    (0 < batch)%nat ->
    (forall i, (i < batch)%nat -> (label i < num_caps)%nat) ->
    (forall i c, (i < batch)%nat -> (c < num_caps)%nat ->
                 yt [i; c] = one_hot (label i) c) ->
    at_ (Metrics.accuracy (of_real [batch; num_caps] yt)
           (of_real [batch; num_caps] yp)) idx
    = Some (rsum_n batch
              (fun i => if Nat.eqb (label i) (predicted_class num_caps yp i)
                        then 1 else 0)
            / INR batch).
Proof.
  intros batch num_caps yt yp label idx Hb Hlab Hy.
  rewrite accuracy_entry by assumption.
  unfold matching_fraction. f_equal. f_equal.
  apply rsum_n_ext. intros i Hi.
  rewrite (predicted_class_one_hot num_caps yt i (label i)); auto.
Qed.

Lemma accuracy_against_one_hot_labels_witness :
  let label := fun i : nat => i in
  let yt := fun idx => one_hot (nth 0 idx 0%nat) (nth 1 idx 0%nat) in
  let yp := fun idx => INR (nth 1 idx 0%nat) in
  (0 < 2)%nat /\
  (forall i, (i < 2)%nat -> (label i < 3)%nat) /\
  (forall i c, (i < 2)%nat -> (c < 3)%nat -> yt [i; c] = one_hot (label i) c) /\
  at_ (Metrics.accuracy (of_real [2; 3]%nat yt) (of_real [2; 3]%nat yp)) []
  = Some (rsum_n 2
            (fun i => if Nat.eqb (label i) (predicted_class 3 yp i)
                      then 1 else 0)
          / INR 2).
Proof.
  intros label yt yp.
  assert (Hlab : forall i, (i < 2)%nat -> (label i < 3)%nat)
    by (intros i Hi; unfold label; lia).
  assert (Hy : forall i c, (i < 2)%nat -> (c < 3)%nat ->
                 yt [i; c] = one_hot (label i) c) by reflexivity.
  split; [lia|]. split; [exact Hlab|]. split; [exact Hy|].
  exact (accuracy_against_one_hot_labels 2 3 yt yp label [] ltac:(lia) Hlab Hy).
Defined.

(** X6: the accuracy of a prediction against itself is 1. *)
Theorem accuracy_of_identical_is_one :
  forall (batch num_caps : nat) (y : list nat -> R) (idx : list nat),
    (0 < batch)%nat ->
    at_ (Metrics.accuracy (of_real [batch; num_caps] y)
           (of_real [batch; num_caps] y)) idx = Some 1.
Proof.
  intros batch num_caps y idx Hb.
  rewrite accuracy_entry by assumption. f_equal.
  unfold matching_fraction.
  rewrite (rsum_n_ext batch _ (fun _ => 1))
    by (intros i _; now rewrite Nat.eqb_refl).
  rewrite rsum_n_const.
  assert (0 < INR batch) by now apply lt_0_INR.
  field. lra.
Qed.

Lemma accuracy_of_identical_is_one_witness :
  let y := fun idx => INR (nth 1 idx 0%nat) in
  (0 < 2)%nat /\
  at_ (Metrics.accuracy (of_real [2; 3]%nat y) (of_real [2; 3]%nat y)) [] = Some 1.
Proof.
  intros y. split; [lia|].
  exact (accuracy_of_identical_is_one 2 3 y [] ltac:(lia)).
Defined.

(** ** Squash on any finite tensor *)

Lemma squash_shape_finite epsilon t axis :
  shape (Activations.squash epsilon t axis) = shape t.
Proof.
  unfold Activations.squash, tmul, tdiv, tadd, tsqrt, tsquare, bop, tmap.
  simpl. rewrite bshape_nil_l, bshape_nil_r, bshape_same, bshape_kshape.
  apply bshape_kshape_l.
Qed.

Lemma squash_entry_finite epsilon t g axis i :
  finite_on t g -> 0 < epsilon -> in_range (shape t) i ->
  let a := norm_axis (rank t) axis in
  let ss := sq_norm (nth a (shape t) 0%nat) (fun j => g (upd i a j)) in
  at_ (Activations.squash epsilon t axis) i
  = Some (ss / (1 + ss) / sqrt (ss + epsilon) * g i).
Proof.
  intros Hf Heps Hi a ss.
  rewrite at_bval by now rewrite squash_shape_finite.
  unfold Activations.squash, tmul, tdiv, tadd, tsqrt.
  rewrite !bval_bop, !bval_tmap, !bval_bop, !bval_const.
  assert (Hsq : finite_on (tsquare t) (fun l => g l * g l)).
  { intros l Hl. unfold tsquare, tmap. cbn [at_]. now rewrite (Hf l Hl). }
  rewrite (bval_reduce_sum _ _ _ _ Hsq) by exact Hi.
  rewrite (bval_finite _ g) by assumption.
  change (shape (tsquare t)) with (shape t). fold a.
  change (rsum_over (dims_of (shape t) [a]) (fun l => g l * g l) i) with ss.
  assert (Hss : 0 <= ss) by apply sq_norm_nonneg.
  unfold sdiv, ssqrt, smul, sadd, lift2.
  destruct (Req_EM_T (1 + ss) 0) as [E|_]; [lra|].
  destruct (Rlt_dec (ss + epsilon) 0) as [E|_]; [lra|].
  assert (Hq : 0 < sqrt (ss + epsilon)) by (apply sqrt_lt_R0; lra).
  destruct (Req_EM_T (sqrt (ss + epsilon)) 0) as [E|_]; [lra|].
  f_equal. field. split; lra.
Qed.

(** Squared length of the vector through [i] along axis [a] does not depend
    on the position of [i] along that axis. *)
Lemma fibre_sq_norm_upd g n a i j :
  sq_norm n (fun l => g (upd (upd i a j) a l)) = sq_norm n (fun l => g (upd i a l)).
Proof.
  apply (fold_over_agree Rplus 0 [(a, n)] (fun l => g l * g l)).
  apply agree_off_upd_l. now left.
Qed.

(** The length of the squashed vector through an index. *)
Lemma squash_fibre_length epsilon t g axis i :
  finite_on t g -> 0 < epsilon -> in_range (shape t) i ->
  let a := norm_axis (rank t) axis in
  let n := nth a (shape t) 0%nat in
  norm n (fun j => value (at_ (Activations.squash epsilon t axis) (upd i a j)))
  = squashed_length epsilon (sq_norm n (fun j => g (upd i a j))).
Proof.
  intros Hf Heps Hi a n.
  set (ss := sq_norm n (fun j => g (upd i a j))).
  assert (Hss : 0 <= ss) by apply sq_norm_nonneg.
  destruct (squash_scale_bounds ss epsilon Hss Heps) as [Hc _].
  assert (E : norm n (fun j => value (at_ (Activations.squash epsilon t axis)
                                        (upd i a j)))
              = norm n (fun j => ss / (1 + ss) / sqrt (ss + epsilon)
                                 * g (upd i a j))).
  { unfold norm, sq_norm. f_equal. apply rsum_n_ext. intros j Hj.
    rewrite (squash_entry_finite epsilon t g axis) by (trivial; now apply in_range_upd).
    fold a. fold n. rewrite fibre_sq_norm_upd. reflexivity. }
  rewrite E, norm_scal by exact Hc. reflexivity.
Qed.

Lemma squashed_length_monotone epsilon s1 s2 :
  0 < epsilon -> 0 <= s1 -> s1 <= s2 ->
  squashed_length epsilon s1 <= squashed_length epsilon s2.
Proof.
  intros Heps H1 H12.
  assert (Hform : forall s, 0 <= s ->
            squashed_length epsilon s = s * / (1 + s) * sqrt (s * / (s + epsilon))).
  { intros s Hs. unfold squashed_length.
    assert (0 < sqrt (s + epsilon)) by (apply sqrt_lt_R0; lra).
    change (s * / (s + epsilon)) with (s / (s + epsilon)).
    rewrite sqrt_div_alt by lra. field. split; lra. }
  rewrite (Hform s1), (Hform s2) by lra.
  assert (Hu1 : / (1 + s1) * (1 + s1) = 1) by (apply Rinv_l; lra).
  assert (Hu2 : / (1 + s2) * (1 + s2) = 1) by (apply Rinv_l; lra).
  assert (Hu : / (1 + s2) <= / (1 + s1)) by (apply Rinv_le_contravar; lra).
  assert (Hu2p : 0 < / (1 + s2)) by (apply Rinv_0_lt_compat; lra).
  assert (Hw1 : / (s1 + epsilon) * (s1 + epsilon) = 1) by (apply Rinv_l; lra).
  assert (Hw2 : / (s2 + epsilon) * (s2 + epsilon) = 1) by (apply Rinv_l; lra).
  assert (Hw : / (s2 + epsilon) <= / (s1 + epsilon))
    by (apply Rinv_le_contravar; lra).
  assert (Hw2p : 0 < / (s2 + epsilon)) by (apply Rinv_0_lt_compat; lra).
  assert (Hw1p : 0 < / (s1 + epsilon)) by (apply Rinv_0_lt_compat; lra).
  assert (Hu1p : 0 < / (1 + s1)) by (apply Rinv_0_lt_compat; lra).
  assert (HA : s1 * / (1 + s1) <= s2 * / (1 + s2)) by nra.
  assert (HA0 : 0 <= s1 * / (1 + s1)) by nra.
  assert (HB : s1 * / (s1 + epsilon) <= s2 * / (s2 + epsilon)) by nra.
  apply Rmult_le_compat; trivial.
  - apply sqrt_pos.
  - now apply sqrt_le_1_alt.
Qed.

(** X7: squash is monotone in the length of its input: of two vectors along
    the axis, the one that is not shorter is mapped to a vector that is not
    shorter. *)
Theorem squash_monotone_in_length :
  forall (epsilon : R) (shp : list nat) (f : list nat -> R) (axis : Z)
         (i1 i2 : list nat),
    0 < epsilon -> in_range shp i1 -> in_range shp i2 ->
    let a := norm_axis (length shp) axis in
    let n := nth a shp 0%nat in
    let out := Activations.squash epsilon (of_real shp f) axis in
    norm n (fun j => f (upd i1 a j)) <= norm n (fun j => f (upd i2 a j)) ->
    norm n (fun j => value (at_ out (upd i1 a j)))
      <= norm n (fun j => value (at_ out (upd i2 a j))).
Proof.
  intros epsilon shp f axis i1 i2 Heps H1 H2 a n out Hle.
  pose proof (squash_fibre_length epsilon (of_real shp f) f axis i1
                (finite_of_real shp f) Heps H1) as E1.
  pose proof (squash_fibre_length epsilon (of_real shp f) f axis i2
                (finite_of_real shp f) Heps H2) as E2.
  cbv zeta in E1, E2.
  change (rank (of_real shp f)) with (length shp) in E1, E2.
  change (shape (of_real shp f)) with shp in E1, E2.
  unfold out, n, a in *. rewrite E1, E2.
  apply squashed_length_monotone; trivial.
  - apply sq_norm_nonneg.
  - unfold norm in Hle.
    pose proof (sq_norm_nonneg n (fun j => f (upd i1 a j))).
    pose proof (sq_norm_nonneg n (fun j => f (upd i2 a j))).
    apply sqrt_le_0; trivial.
Qed.

Lemma squash_monotone_in_length_witness :
  let epsilon := 1 / 10000000 in
  let shp := [2; 2]%nat in
  let f := fun idx => INR (nth 0 idx 0%nat) in
  let i1 := [0; 0]%nat in
  let i2 := [1; 0]%nat in
  0 < epsilon /\ in_range shp i1 /\ in_range shp i2 /\
  let a := norm_axis (length shp) (-1) in
  let n := nth a shp 0%nat in
  let out := Activations.squash epsilon (of_real shp f) (-1) in
  norm n (fun j => f (upd i1 a j)) <= norm n (fun j => f (upd i2 a j)) /\
  norm n (fun j => value (at_ out (upd i1 a j)))
    <= norm n (fun j => value (at_ out (upd i2 a j))).
Proof.
  intros epsilon shp f i1 i2.
  assert (Heps : 0 < epsilon) by (unfold epsilon; lra).
  assert (H1 : in_range shp i1) by (apply in_range_2; lia).
  assert (H2 : in_range shp i2) by (apply in_range_2; lia).
  split; [exact Heps|]. split; [exact H1|]. split; [exact H2|].
  intros a n out.
  assert (Hle : norm n (fun j => f (upd i1 a j)) <= norm n (fun j => f (upd i2 a j))).
  { unfold norm, n, a, f. apply sqrt_le_1_alt. unfold sq_norm, rsum_n.
    simpl. lra. }
  split; [exact Hle|].
  exact (squash_monotone_in_length epsilon shp f (-1) i1 i2 Heps H1 H2 Hle).
Defined.

(** X8: squash commutes with negation: negating the input negates every
    entry of the output. *)
Theorem squash_odd :
  forall (epsilon : R) (shp : list nat) (f : list nat -> R) (axis : Z)
         (idx : list nat),
    0 < epsilon -> in_range shp idx ->
    exists r,
      at_ (Activations.squash epsilon (of_real shp f) axis) idx = Some r /\
      at_ (Activations.squash epsilon (of_real shp (fun i => - f i)) axis) idx
        = Some (- r).
Proof.
  intros epsilon shp f axis idx Heps Hi.
  rewrite !squash_entry_scaled by assumption.
  eexists. split; [reflexivity|]. f_equal.
  set (a := norm_axis (length shp) axis).
  assert (E : sq_norm (nth a shp 0%nat) (fun j => - f (upd idx a j))
              = sq_norm (nth a shp 0%nat) (fun j => f (upd idx a j))).
  { unfold sq_norm. apply rsum_n_ext. intros j _. ring. }
  rewrite E. ring.
Qed.

Lemma squash_odd_witness :
  let epsilon := 1 / 10000000 in
  let shp := [1; 2]%nat in
  let f := fun idx => INR (nth 1 idx 0%nat) + 3 in
  let idx := [0; 1]%nat in
  0 < epsilon /\ in_range shp idx /\
  exists r,
    at_ (Activations.squash epsilon (of_real shp f) (-1)) idx = Some r /\
    at_ (Activations.squash epsilon (of_real shp (fun i => - f i)) (-1)) idx
      = Some (- r).
Proof.
  intros epsilon shp f idx.
  assert (Heps : 0 < epsilon) by (unfold epsilon; lra).
  assert (Hi : in_range shp idx) by (apply in_range_2; lia).
  split; [exact Heps|]. split; [exact Hi|].
  exact (squash_odd epsilon shp f (-1) idx Heps Hi).
Defined.

(** ** The coupling coefficients of the first routing pass *)

Lemma rsum_over_const dims c idx :
  rsum_over dims (fun _ => c) idx = INR (numel (map snd dims)) * c.
Proof.
  revert idx. induction dims as [|[a n] rest IH]; intros idx.
  - unfold rsum_over. simpl. lra.
  - unfold rsum_over in *. simpl.
    rewrite (fold_n_ext Rplus 0 n _ (fun _ => INR (numel (map snd rest)) * c))
      by (intros; apply IH).
    fold (rsum_n n (fun _ => INR (numel (map snd rest)) * c)).
    rewrite rsum_n_const, mult_INR. ring.
Qed.

Lemma conv_uniform_coupling :
  forall (batch rows cols caps_filters input_caps_filters : nat)
         (rest : list nat) (prediction : tensor) (idx : list nat),
    shape prediction = batch :: rows :: cols :: rest ->
    in_range [batch; rows; cols; caps_filters; input_caps_filters] idx ->
    exists cc,
      CapsConv.softmax
        (CapsConv.initial_weight caps_filters input_caps_filters prediction)
        [1; 2; 3]%nat = Ok cc /\
      at_ cc idx = Some (1 / INR (rows * cols * caps_filters)).
Proof.
  intros B rows cols S T rest prediction idx Hshape Hi.
  set (w := CapsConv.initial_weight S T prediction).
  assert (Hw : shape w = [B; rows; cols; S; T]).
  { unfold w, CapsConv.initial_weight. rewrite Hshape. reflexivity. }
  assert (Hf : finite_on w (fun _ => 0)) by (intros i _; reflexivity).
  assert (Hax : forall a, In a [1; 2; 3]%nat -> (a < rank w)%nat)
    by (intros a Ha; unfold rank; rewrite Hw; simpl in *; lia).
  exists (tdiv (texp w) (reduce_sum_keep (texp w) [1; 2; 3]%nat)).
  split; [reflexivity|].
  rewrite (normalised_entry w _ _ Hf Hax) by now rewrite Hw.
  rewrite rsum_over_const, Hw, exp_0. f_equal.
  replace (numel (map snd (dims_of [B; rows; cols; S; T] [1; 2; 3]%nat)))
    with (rows * cols * S)%nat by (simpl; lia).
  now rewrite Rmult_1_r.
Qed.

(** X9: in the first pass of the convolutional routing the weights are all
    zero and every coupling coefficient is 1 / (rows * cols * caps_filters). *)
Theorem conv_initial_coupling_uniform :
  forall (batch rows cols caps_filters input_caps_filters : nat)
         (rest : list nat) (prediction : tensor) (idx : list nat),
    shape prediction = batch :: rows :: cols :: rest ->
    in_range [batch; rows; cols; caps_filters; input_caps_filters] idx ->
    exists cc,
      CapsConv.softmax
        (CapsConv.initial_weight caps_filters input_caps_filters prediction)
        [1; 2; 3]%nat = Ok cc /\
      at_ cc idx = Some (1 / INR (rows * cols * caps_filters)).
Proof. exact conv_uniform_coupling. Qed.

Lemma conv_initial_coupling_uniform_witness :
  let prediction := zeros [1; 2; 2; 3; 4; 5]%nat in
  let idx := [0; 1; 1; 3; 2]%nat in
  shape prediction = [1; 2; 2; 3; 4; 5]%nat /\
  in_range [1; 2; 2; 4; 3]%nat idx /\
  exists cc,
    CapsConv.softmax (CapsConv.initial_weight 4 3 prediction) [1; 2; 3]%nat = Ok cc /\
    at_ cc idx = Some (1 / INR (2 * 2 * 4)).
Proof.
  intros prediction idx.
  assert (Hi : in_range [1; 2; 2; 4; 3]%nat idx) by (apply in_range_5; lia).
  split; [reflexivity|]. split; [exact Hi|].
  exact (conv_initial_coupling_uniform 1 2 2 4 3 [3; 4; 5]%nat prediction idx
           eq_refl Hi).
Defined.

Lemma dense_uniform_coupling :
  forall (batch_size input_caps caps : nat) (idx : list nat),
    in_range [batch_size; input_caps; caps; 1; 1]%nat idx ->
    at_ (tf_nn_softmax (zeros [batch_size; input_caps; caps; 1; 1]%nat) 2) idx
    = Some (1 / INR caps).
Proof.
  intros B IC C idx Hi.
  set (w := zeros [B; IC; C; 1; 1]%nat).
  assert (Hf : finite_on w (fun _ => 0)) by (intros i _; reflexivity).
  assert (Hax : forall a, In a [2%nat] -> (a < rank w)%nat)
    by (intros a [<-|[]]; unfold w, rank; simpl; lia).
  unfold tf_nn_softmax.
  rewrite (normalised_entry w _ _ Hf Hax) by exact Hi.
  rewrite rsum_over_const, exp_0. f_equal.
  replace (numel (map snd (dims_of (shape w) [2%nat]))) with C
    by (simpl; lia).
  now rewrite Rmult_1_r.
Qed.

(** X10: in the first routing step of the dense layer the weights are all
    zero and every coupling coefficient is 1 / caps. *)
Theorem dense_initial_coupling_uniform :
  forall (batch_size input_caps caps : nat) (idx : list nat),
    in_range [batch_size; input_caps; caps; 1; 1]%nat idx ->
    at_ (tf_nn_softmax (zeros [batch_size; input_caps; caps; 1; 1]%nat) 2) idx
    = Some (1 / INR caps).
Proof. exact dense_uniform_coupling. Qed.

Lemma dense_initial_coupling_uniform_witness :
  in_range [2; 3; 10; 1; 1]%nat [1; 2; 7; 0; 0]%nat /\
  at_ (tf_nn_softmax (zeros [2; 3; 10; 1; 1]%nat) 2) [1; 2; 7; 0; 0]%nat
  = Some (1 / INR 10).
Proof.
  assert (Hi : in_range [2; 3; 10; 1; 1]%nat [1; 2; 7; 0; 0]%nat)
    by (apply in_range_5; lia).
  split; [exact Hi|].
  exact (dense_initial_coupling_uniform 2 3 10 [1; 2; 7; 0; 0]%nat Hi).
Defined.

(** ** What [build] needs and what it leaves *)

(** X11: build of the dense layer succeeds exactly on an input shape of rank
    5 whose last four dimensions are known (the batch dimension may be
    unknown); the layer is then built, with input_caps = rows * cols *
    input_caps_filters and a weight of shape
    (1, input_caps, caps, caps_dims, input_caps_dims). *)
Theorem dense_build_succeeds_iff :
  forall (self self' : CapsDense.t) (input_shape : tensor_shape),
    CapsDense.build self input_shape = (Ok tt, self')
    <->
    exists b r c f d,
      input_shape = [b; Some r; Some c; Some f; Some d] /\
      self' = CapsDense.mk (CapsDense.caps self) (CapsDense.caps_dims self)
                (CapsDense.routing_iter self)
                (Dim (Some (r * c * f)%nat)) (Dim (Some d))
                (Some [1%nat; (r * c * f)%nat; CapsDense.caps self;
                       CapsDense.caps_dims self; d])
                true.
Proof.
  intros self self' s. split.
  - unfold CapsDense.build.
    destruct s as [|b [|r [|c [|f [|d [|x s]]]]]]; simpl; try discriminate.
    destruct r as [r|], c as [c|], f as [f|]; simpl; try discriminate.
    destruct d as [d|]; simpl; try discriminate.
    intros H. inversion H; subst. exists b, r, c, f, d. split; reflexivity.
  - intros [b [r [c [f [d [-> ->]]]]]]. reflexivity.
Qed.

Lemma dense_build_succeeds_iff_witness :
  CapsDense.build (CapsDense.init 10 16 3)
    [None; Some 6; Some 6; Some 8; Some 8]%nat
  = (Ok tt,
     CapsDense.mk 10 16 3 (Dim (Some 288%nat)) (Dim (Some 8%nat))
       (Some [1; 288; 10; 16; 8]%nat) true).
Proof.
  apply (dense_build_succeeds_iff (CapsDense.init 10 16 3)).
  exists None, 6%nat, 6%nat, 8%nat, 8%nat. split; reflexivity.
Defined.

(** X12: when build of a freshly constructed convolutional routing layer
    succeeds, the input shape has rank 5 and its last two dimensions are
    known; input_caps_filters and input_caps_dims are these two dimensions,
    the kernel size and the stride along the capsule axis are
    input_caps_dims, and the kernel has shape
    (k1, k2, input_caps_dims, 1, caps_filters * caps_dims). *)
Theorem conv_build_after_init_success :
  forall (caps_filters caps_dims : nat) (routing_iter : Z)
         (k1 k2 s1 s2 : nat) (input_shape : tensor_shape) (self' : CapsConv.t),
    CapsConv.build
      (CapsConv.init caps_filters caps_dims routing_iter (k1, k2) (s1, s2))
      input_shape = (Ok tt, self') ->
    exists b r c f d,
      input_shape = [b; r; c; Some f; Some d] /\
      self' = CapsConv.mk caps_filters caps_dims routing_iter
                (Dim (Some f)) (Dim (Some d)) (caps_filters * caps_dims)
                [Some k1; Some k2; Some d] [Some s1; Some s2; Some d]
                (Some [k1; k2; d; 1%nat; (caps_filters * caps_dims)%nat])
                (Some 5%nat) true.
Proof.
  intros cf cd ri k1 k2 s1 s2 s self'.
  unfold CapsConv.build.
  destruct s as [|b [|r [|c [|f [|d [|x s]]]]]]; simpl; try discriminate.
  destruct f as [f|], d as [d|]; simpl; try discriminate.
  intros H. inversion H; subst. exists b, r, c, f, d. split; reflexivity.
Qed.

Lemma conv_build_after_init_success_witness :
  let self := CapsConv.init 32 8 3 (3, 3)%nat (1, 1)%nat in
  let input_shape := [None; Some 6; Some 6; Some 8; Some 8]%nat in
  CapsConv.build self input_shape
    = (Ok tt, snd (CapsConv.build self input_shape)) /\
  exists b r c f d,
    input_shape = [b; r; c; Some f; Some d] /\
    snd (CapsConv.build self input_shape)
    = CapsConv.mk 32 8 3 (Dim (Some f)) (Dim (Some d)) (32 * 8)
        [Some 3%nat; Some 3%nat; Some d] [Some 1%nat; Some 1%nat; Some d]
        (Some [3%nat; 3%nat; d; 1%nat; (32 * 8)%nat]) (Some 5%nat) true.
Proof.
  intros self input_shape.
  assert (E : CapsConv.build self input_shape
              = (Ok tt, snd (CapsConv.build self input_shape))) by reflexivity.
  split; [exact E|].
  exact (conv_build_after_init_success 32 8 3 3 3 1 1 input_shape _ E).
Defined.

Lemma removelast_snoc {A : Type} (l : list A) (a : A) : removelast (l ++ [a]) = l.
Proof.
  induction l as [|x l IH]; [reflexivity|].
  simpl. rewrite IH. destruct l; reflexivity.
Qed.

(** X13: building again a layer that has been built, on the same input
    shape, succeeds and leaves every attribute of the layer and the shape of
    its weight as the first build left them: the last kernel-size and stride
    entries are replaced, not appended again. (The layer's state holds a
    weight by its shape; that the weight is created anew is not part of the
    statement.) *)
Theorem rebuild_keeps_attributes_and_weight_shape :
  forall (input_shape : tensor_shape),
    (forall (conv conv' : CapsConv.t),
       CapsConv.build conv input_shape = (Ok tt, conv') ->
       CapsConv.build conv' input_shape = (Ok tt, conv')) /\
    (forall (dense dense' : CapsDense.t),
       CapsDense.build dense input_shape = (Ok tt, dense') ->
       CapsDense.build dense' input_shape = (Ok tt, dense')).
Proof.
  intros s. split.
  - intros conv conv'. unfold CapsConv.build.
    destruct (negb (Nat.eqb (length s) 5)); [discriminate|].
    destruct (dim_mul (nth 3 s None) (nth 4 s None)) as [channels|];
      [|discriminate].
    unfold CapsConv.conv3d_build. cbn [CapsConv.kernel_size].
    destruct (known ((removelast (CapsConv.kernel_size conv) ++ [nth 4 s None])
                     ++ [last (firstn 3 s ++ [Some channels; Some 1%nat]) None]))
      as [ks|] eqn:Hks; [|discriminate].
    intros H. inversion H; subst. clear H.
    cbn [CapsConv.kernel_size CapsConv.strides CapsConv.caps_filters
         CapsConv.caps_dims CapsConv.routing_iter CapsConv.filters
         CapsConv.kernel CapsConv.input_spec_ndim CapsConv.built
         CapsConv.input_caps_filters CapsConv.input_caps_dims].
    rewrite !removelast_snoc, Hks. reflexivity.
  - intros dense dense'. unfold CapsDense.build.
    destruct (negb (Nat.eqb (length s) 5)); [discriminate|].
    destruct (dim_mul (dim_mul (nth 1 s None) (nth 2 s None)) (nth 3 s None))
      as [ic|]; [|discriminate].
    destruct (nth 4 s None) as [d|]; [|discriminate].
    intros H. inversion H; subst. reflexivity.
Qed.

Lemma rebuild_keeps_attributes_and_weight_shape_witness :
  let s := [None; Some 6; Some 6; Some 8; Some 8]%nat in
  let conv := CapsConv.init 32 8 3 (3, 3)%nat (1, 1)%nat in
  let dense := CapsDense.init 10 16 3 in
  CapsConv.build conv s = (Ok tt, snd (CapsConv.build conv s)) /\
  CapsConv.build (snd (CapsConv.build conv s)) s
    = (Ok tt, snd (CapsConv.build conv s)) /\
  CapsDense.build dense s = (Ok tt, snd (CapsDense.build dense s)) /\
  CapsDense.build (snd (CapsDense.build dense s)) s
    = (Ok tt, snd (CapsDense.build dense s)).
Proof.
  intros s conv dense.
  destruct (rebuild_keeps_attributes_and_weight_shape s) as [Hc Hd].
  assert (Ec : CapsConv.build conv s = (Ok tt, snd (CapsConv.build conv s)))
    by reflexivity.
  assert (Ed : CapsDense.build dense s = (Ok tt, snd (CapsDense.build dense s)))
    by reflexivity.
  split; [exact Ec|]. split; [exact (Hc _ _ Ec)|].
  split; [exact Ed | exact (Hd _ _ Ed)].
Defined.

(** ** Shapes through the routing operations *)

Lemma tadd_shape a b : shape a = shape b -> shape (tadd a b) = shape a.
Proof.
  intros Hs. unfold tadd, bop. cbn [shape]. rewrite <- Hs. apply bshape_same.
Qed.

Section ConvRoutingShapes.

Variables batch rows cols input_caps_filters caps_filters caps_dims : nat.
Variable prediction : tensor.
Hypothesis prediction_shape :
  shape prediction
  = [batch; rows; cols; input_caps_filters; caps_filters; caps_dims].

Let wshape := [batch; rows; cols; caps_filters; input_caps_filters].
Let oshape := [batch; rows; cols; caps_filters; caps_dims].

Lemma einsum_routed_shape cc :
  shape cc = wshape -> shape (einsum_pqrst_pqrtsu cc prediction) = oshape.
Proof.
  intros Hs. unfold einsum_pqrst_pqrtsu. simpl.
  rewrite Hs, prediction_shape. reflexivity.
Qed.

Lemma einsum_agreement_shape rp :
  shape rp = oshape -> shape (einsum_pqrst_pqrust rp prediction) = wshape.
Proof.
  intros Hs. unfold einsum_pqrst_pqrust. simpl.
  rewrite Hs, prediction_shape. reflexivity.
Qed.

End ConvRoutingShapes.

(** ** Invariants of the routing loops *)

(** A loop whose body, from a state that satisfies [Inv], never raises,
    records [ops], keeps [Inv] and establishes [Q]. *)
Lemma for_range_invariant {S : Type} (body : S -> M S) (ops : trace)
    (Inv Q : S -> Prop) :
  (forall st tr, Inv st ->
     exists st', body st tr = (Ok st', tr ++ ops) /\ Inv st' /\ Q st') ->
  forall n st tr, Inv st -> Q st \/ (0 < n)%nat ->
    exists st', for_range n body st tr = (Ok st', tr ++ concat (repeat ops n))
                /\ Inv st' /\ Q st'.
Proof.
  intros Hbody. induction n as [|k IH]; intros st tr HI HQ.
  - exists st. simpl. unfold ret. rewrite app_nil_r.
    split; [reflexivity|]. split; [assumption|].
    destruct HQ as [HQ|HQ]; [assumption | lia].
  - destruct (Hbody st tr HI) as [st1 [E1 [I1 Q1]]].
    destruct (IH st1 (tr ++ ops) I1 (or_introl Q1)) as [st2 [E2 [I2 Q2]]].
    exists st2. split; [|split; assumption].
    simpl. unfold bind. rewrite E1, E2. now rewrite <- app_assoc.
Qed.

Section ConvRouting.

Variable epsilon : R.
Variables batch rows cols input_caps_filters caps_filters caps_dims : nat.
Variable prediction : tensor.
Hypothesis prediction_shape :
  shape prediction
  = [batch; rows; cols; input_caps_filters; caps_filters; caps_dims].

Let wshape := [batch; rows; cols; caps_filters; input_caps_filters].
Let oshape := [batch; rows; cols; caps_filters; caps_dims].

(** The routing weight keeps its shape. *)
Let weight_ok (st : tensor * pyval) : Prop := shape (fst st) = wshape.

(** The routed prediction is the squash of a tensor of the output shape. *)
Let routed_ok (st : tensor * pyval) : Prop :=
  exists routed,
    snd st = Tensor (Activations.squash epsilon routed (-1)) /\
    shape routed = oshape.

Lemma conv_routing_body_invariant st tr :
  weight_ok st ->
  exists st',
    CapsConv.routing_body epsilon prediction st tr
    = (Ok st', tr ++ [OpSoftmax; OpEinsum; OpSquash; OpEinsum; OpAdd])
    /\ weight_ok st' /\ routed_ok st'.
Proof.
  unfold weight_ok, routed_ok. intros Hws. destruct st as [w rp0].
  cbn [fst snd] in *.
  set (cc := tdiv (texp w) (reduce_sum_keep (texp w) [1; 2; 3]%nat)).
  set (routed := einsum_pqrst_pqrtsu cc prediction).
  set (squashed := Activations.squash epsilon routed (-1)).
  set (agreement := einsum_pqrst_pqrust squashed prediction).
  exists (tadd w agreement, Tensor squashed).
  assert (Hcs : shape cc = wshape)
    by (unfold cc; rewrite normalised_shape; exact Hws).
  assert (Hrs : shape routed = oshape)
    by (exact (einsum_routed_shape _ _ _ _ _ _ prediction prediction_shape
                 cc Hcs)).
  assert (Hss : shape squashed = oshape)
    by (unfold squashed; rewrite squash_shape_finite; exact Hrs).
  assert (Has : shape agreement = wshape)
    by (exact (einsum_agreement_shape _ _ _ _ _ _ prediction prediction_shape
                 squashed Hss)).
  split; [|split].
  - unfold CapsConv.routing_body, bind, call, ret. simpl.
    repeat rewrite <- app_assoc. reflexivity.
  - cbn [fst]. rewrite tadd_shape; [exact Hws|]. rewrite Hws, Has. reflexivity.
  - exists routed. split; [reflexivity | exact Hrs].
Qed.

Lemma conv_dynamic_routing_result routing_iter :
  (1 <= routing_iter)%Z ->
  exists routed tr,
    CapsConv.dynamic_routing epsilon routing_iter caps_filters
      input_caps_filters prediction []
    = (Ok (Tensor (Activations.squash epsilon routed (-1))), tr) /\
    shape routed = oshape /\
    shape (Activations.squash epsilon routed (-1)) = oshape.
Proof.
  intros Hri. unfold CapsConv.dynamic_routing.
  assert (E : (0 <? routing_iter)%Z = true) by (apply Z.ltb_lt; lia).
  unfold bind at 1. unfold assert_that. rewrite E.
  unfold bind at 1. unfold call at 1. simpl app.
  set (w0 := CapsConv.initial_weight caps_filters input_caps_filters prediction).
  assert (H0 : weight_ok (w0, Ellipsis)).
  { unfold weight_ok, w0, CapsConv.initial_weight. cbn [fst].
    rewrite prediction_shape. reflexivity. }
  destruct (for_range_invariant (CapsConv.routing_body epsilon prediction) _
              weight_ok routed_ok conv_routing_body_invariant
              (Z.to_nat routing_iter) (w0, Ellipsis) [OpZeros] H0)
    as [st [Est [_ [routed [Ht Hs]]]]]; [right; lia|].
  exists routed. eexists. split; [|split; [exact Hs|]].
  - unfold bind, ret. rewrite Est, Ht. reflexivity.
  - rewrite squash_shape_finite. exact Hs.
Qed.

End ConvRouting.

(** X14: with routing_iter >= 1 and a prediction of shape
    (batch, rows, cols, input_caps_filters, caps_filters, caps_dims), the
    convolutional dynamic routing raises nothing and returns a tensor of
    shape (batch, rows, cols, caps_filters, caps_dims): the squash, over
    caps_dims, of a tensor of that shape. *)
Theorem conv_dynamic_routing_shape :
  forall (epsilon : R) (routing_iter : Z)
         (batch rows cols input_caps_filters caps_filters caps_dims : nat)
         (prediction : tensor),
    (1 <= routing_iter)%Z ->
    shape prediction
      = [batch; rows; cols; input_caps_filters; caps_filters; caps_dims] ->
    exists routed tr,
      CapsConv.dynamic_routing epsilon routing_iter caps_filters
        input_caps_filters prediction []
      = (Ok (Tensor (Activations.squash epsilon routed (-1))), tr) /\
      shape routed = [batch; rows; cols; caps_filters; caps_dims] /\
      shape (Activations.squash epsilon routed (-1))
      = [batch; rows; cols; caps_filters; caps_dims].
Proof.
  intros epsilon routing_iter B rows cols T S U prediction Hri Hs.
  exact (conv_dynamic_routing_result epsilon B rows cols T S U prediction
           Hs routing_iter Hri).
Qed.

Lemma conv_dynamic_routing_shape_witness :
  let epsilon := 1 / 10000000 in
  let prediction :=
    of_real [1; 2; 2; 3; 4; 5]%nat (fun idx => INR (nth 5 idx 0%nat) - 2) in
  (1 <= 3)%Z /\
  shape prediction = [1; 2; 2; 3; 4; 5]%nat /\
  exists routed tr,
    CapsConv.dynamic_routing epsilon 3 4 3 prediction []
    = (Ok (Tensor (Activations.squash epsilon routed (-1))), tr) /\
    shape routed = [1; 2; 2; 4; 5]%nat /\
    shape (Activations.squash epsilon routed (-1)) = [1; 2; 2; 4; 5]%nat.
Proof.
  intros epsilon prediction.
  split; [lia|]. split; [reflexivity|].
  exact (conv_dynamic_routing_shape epsilon 3 1 2 2 3 4 5 prediction
           ltac:(lia) eq_refl).
Defined.

Ltac split_eqb :=
  repeat match goal with
         | |- context [Nat.eqb ?x 1] => destruct (Nat.eqb_spec x 1)
         end.

Section DenseRouting.

Variable epsilon : R.
Variables batch input_caps caps caps_dims : nat.
Variable prediction : tensor.
Hypothesis prediction_shape :
  shape prediction = [batch; input_caps; caps; caps_dims; 1%nat].

Let wshape := [batch; input_caps; caps; 1%nat; 1%nat].
Let pshape := [batch; input_caps; caps; caps_dims; 1%nat].
Let oshape := [batch; 1%nat; caps; caps_dims; 1%nat].

(** The routed prediction is the squash of a tensor of the output shape. *)
Let routed_ok (t : tensor) : Prop :=
  exists summed,
    t = Activations.squash epsilon summed (-2) /\ shape summed = oshape.

(** The routing weights keep their shape. *)
Let state_ok (st : tensor * tensor) : Prop :=
  shape (fst st) = wshape /\ routed_ok (snd st).

Lemma weighted_prediction_shape prob_w :
  shape prob_w = wshape -> shape (tmul prob_w prediction) = pshape.
Proof.
  intros Hs. unfold tmul, bop. cbn [shape]. rewrite Hs, prediction_shape.
  unfold bshape, tabulate, wshape, pshape. simpl. split_eqb; reflexivity.
Qed.

Lemma summed_prediction_shape w_pred :
  shape w_pred = pshape -> shape (reduce_sum_keep w_pred [1%nat]) = oshape.
Proof.
  intros Hs. unfold reduce_sum_keep. cbn [shape]. rewrite Hs. reflexivity.
Qed.

Lemma routing_step_result rw tr :
  shape rw = wshape ->
  exists t,
    CapsDense.routing_step epsilon rw prediction tr
    = (Ok t, tr ++ [OpSoftmax; OpMultiply; OpReduceSum; OpSquash])
    /\ routed_ok t.
Proof.
  intros Hs.
  set (prob_w := tf_nn_softmax rw 2).
  set (w_pred := tmul prob_w prediction).
  set (summed := reduce_sum_keep w_pred [1%nat]).
  exists (Activations.squash epsilon summed (-2)).
  assert (Hps : shape prob_w = wshape)
    by (unfold prob_w, tf_nn_softmax; rewrite normalised_shape; exact Hs).
  split.
  - unfold CapsDense.routing_step, bind, call. simpl.
    repeat rewrite <- app_assoc. reflexivity.
  - exists summed. split; [reflexivity|].
    apply summed_prediction_shape. now apply weighted_prediction_shape.
Qed.

Lemma routed_shape t : routed_ok t -> shape t = oshape.
Proof. intros [summed [-> Hs]]. rewrite squash_shape_finite. exact Hs. Qed.

Lemma tiled_shape rp :
  shape rp = oshape -> shape (tile rp [1; input_caps; 1; 1; 1]%nat) = pshape.
Proof.
  intros Hs. unfold tile, rank. cbn [shape]. rewrite Hs.
  unfold tabulate, oshape, pshape. simpl.
  repeat (f_equal; try lia).
Qed.

Lemma agreement_shape tiled :
  shape tiled = pshape -> shape (matmul_transpose_a prediction tiled) = wshape.
Proof.
  intros Hs. unfold matmul_transpose_a, rank. cbn [shape].
  rewrite Hs, prediction_shape. reflexivity.
Qed.

Lemma dense_routing_body_invariant st tr :
  state_ok st ->
  exists st',
    CapsDense.routing_body epsilon input_caps prediction st tr
    = (Ok st', tr ++ [OpTile; OpMatmul; OpAdd;
                      OpSoftmax; OpMultiply; OpReduceSum; OpSquash])
    /\ state_ok st' /\ True.
Proof.
  intros [Hws Hr]. destruct st as [rw rp]. cbn [fst snd] in *.
  pose proof (agreement_shape _ (tiled_shape rp (routed_shape rp Hr))) as Has.
  assert (Hns : shape (tadd rw (matmul_transpose_a prediction
                                  (tile rp [1; input_caps; 1; 1; 1]%nat)))
                = wshape).
  { rewrite tadd_shape; [exact Hws|]. rewrite Hws, Has. reflexivity. }
  destruct (routing_step_result
              (tadd rw (matmul_transpose_a prediction
                          (tile rp [1; input_caps; 1; 1; 1]%nat)))
              (((tr ++ [OpTile]) ++ [OpMatmul]) ++ [OpAdd]) Hns)
    as [t [Et Hok]].
  exists (tadd rw (matmul_transpose_a prediction
                     (tile rp [1; input_caps; 1; 1; 1]%nat)), t).
  split; [|split; [|exact I]].
  - unfold CapsDense.routing_body, bind, call, ret. cbn [fst snd].
    rewrite Et. repeat rewrite <- app_assoc. reflexivity.
  - split; [exact Hns | exact Hok].
Qed.

Lemma dense_dynamic_routing_result routing_iter :
  exists summed tr,
    CapsDense.dynamic_routing epsilon routing_iter batch input_caps caps
      prediction []
    = (Ok (Activations.squash epsilon summed (-2)), tr) /\
    shape summed = oshape /\
    shape (Activations.squash epsilon summed (-2)) = oshape.
Proof.
  unfold CapsDense.dynamic_routing.
  unfold bind at 1. unfold call at 1. simpl app.
  set (w0 := zeros [batch; input_caps; caps; 1; 1]%nat).
  assert (Hws : shape w0 = wshape) by reflexivity.
  destruct (routing_step_result w0 [OpZeros] Hws) as [rp [Erp Hrp]].
  unfold bind at 1. rewrite Erp.
  destruct (for_range_invariant
              (CapsDense.routing_body epsilon input_caps prediction) _
              state_ok (fun _ => True) dense_routing_body_invariant
              (Z.to_nat routing_iter) (w0, rp)
              ([OpZeros] ++ [OpSoftmax; OpMultiply; OpReduceSum; OpSquash]))
    as [st [Est [[_ Hok] _]]].
  - split; [exact Hws | exact Hrp].
  - now left.
  - pose proof (routed_shape _ Hok) as Hshape.
    destruct Hok as [summed [Esq Hs]].
    exists summed. eexists. split; [|split; [exact Hs|]].
    + unfold bind, ret. rewrite Est, Esq. reflexivity.
    + rewrite <- Esq. exact Hshape.
Qed.

End DenseRouting.

(** X15: on a prediction of shape (batch, input_caps, caps, caps_dims, 1) the
    dense dynamic routing, for any routing_iter, raises nothing and returns
    a tensor of shape (batch, 1, caps, caps_dims, 1): the squash, over
    caps_dims, of a tensor of that shape. *)
Theorem dense_dynamic_routing_shape :
  forall (epsilon : R) (routing_iter : Z)
         (batch input_caps caps caps_dims : nat) (prediction : tensor),
    shape prediction = [batch; input_caps; caps; caps_dims; 1%nat] ->
    exists summed tr,
      CapsDense.dynamic_routing epsilon routing_iter batch input_caps caps
        prediction []
      = (Ok (Activations.squash epsilon summed (-2)), tr) /\
      shape summed = [batch; 1%nat; caps; caps_dims; 1%nat] /\
      shape (Activations.squash epsilon summed (-2))
      = [batch; 1%nat; caps; caps_dims; 1%nat].
Proof.
  intros epsilon routing_iter B IC C D prediction Hs.
  exact (dense_dynamic_routing_result epsilon B IC C D prediction Hs
           routing_iter).
Qed.

Lemma dense_dynamic_routing_shape_witness :
  let epsilon := 1 / 10000000 in
  let prediction :=
    of_real [2; 3; 10; 16; 1]%nat (fun idx => INR (nth 3 idx 0%nat) - 2) in
  shape prediction = [2; 3; 10; 16; 1]%nat /\
  exists summed tr,
    CapsDense.dynamic_routing epsilon 3 2 3 10 prediction []
    = (Ok (Activations.squash epsilon summed (-2)), tr) /\
    shape summed = [2; 1; 10; 16; 1]%nat /\
    shape (Activations.squash epsilon summed (-2)) = [2; 1; 10; 16; 1]%nat.
Proof.
  intros epsilon prediction.
  split; [reflexivity|].
  exact (dense_dynamic_routing_shape epsilon 3 2 3 10 16 prediction eq_refl).
Defined.

(** ** Reshape: row-major positions *)

Lemma in_range_cons d ds i rest :
  in_range (d :: ds) (i :: rest) <-> (i < d)%nat /\ in_range ds rest.
Proof.
  unfold in_range. simpl. split.
  - intros [Hl Hr]. split; [apply (Hr 0%nat); lia|].
    split; [lia|]. intros k Hk. apply (Hr (S k)). lia.
  - intros [Hi [Hl Hr]]. split; [lia|].
    intros [|k] Hk; [assumption | apply Hr; lia].
Qed.

Lemma in_range_nil_l idx : in_range [] idx -> idx = [].
Proof. intros [Hl _]. now destruct idx. Qed.

Lemma ravel_lt shp idx : in_range shp idx -> (ravel shp idx < numel shp)%nat.
Proof.
  revert idx. induction shp as [|d ds IH]; intros idx H.
  - simpl. destruct idx; simpl; lia.
  - destruct idx as [|i rest]; [destruct H as [Hl _]; simpl in Hl; lia|].
    apply in_range_cons in H. destruct H as [Hi Hr].
    specialize (IH rest Hr). simpl. nia.
Qed.

Lemma unravel_ravel shp idx :
  in_range shp idx -> unravel shp (ravel shp idx) = idx.
Proof.
  revert idx. induction shp as [|d ds IH]; intros idx H.
  - now rewrite (in_range_nil_l idx H).
  - destruct idx as [|i rest]; [destruct H as [Hl _]; simpl in Hl; lia|].
    apply in_range_cons in H. destruct H as [Hi Hr].
    pose proof (ravel_lt ds rest Hr) as Hlt. simpl.
    assert (Hn : numel ds <> 0%nat) by lia.
    rewrite Nat.div_add_l by exact Hn.
    rewrite (Nat.div_small _ _ Hlt), Nat.add_0_r.
    rewrite Nat.add_comm, Nat.Div0.mod_add, (Nat.mod_small _ _ Hlt).
    now rewrite (IH rest Hr).
Qed.

Lemma of_nat_is_not_minus_one x : (Z.of_nat x =? -1)%Z = false.
Proof. apply Z.eqb_neq. lia. Qed.

Lemma filter_not_minus_one dims :
  filter (fun d => negb (d =? -1)%Z) (map Z.of_nat dims) = map Z.of_nat dims.
Proof.
  induction dims as [|d ds IH]; [reflexivity|].
  simpl. now rewrite of_nat_is_not_minus_one, IH.
Qed.

Lemma to_nat_of_nat_list dims : map Z.to_nat (map Z.of_nat dims) = dims.
Proof.
  induction dims as [|d ds IH]; [reflexivity|].
  simpl. now rewrite Nat2Z.id, IH.
Qed.

Lemma resolve_of_nat_list n dims :
  map (fun d => if (d =? -1)%Z then n else Z.to_nat d) (map Z.of_nat dims) = dims.
Proof.
  induction dims as [|d ds IH]; [reflexivity|].
  simpl. now rewrite of_nat_is_not_minus_one, Nat2Z.id, IH.
Qed.

(** A requested shape without -1 is taken as it is. *)
Lemma resolve_shape_given total dims :
  resolve_shape total (map Z.of_nat dims) = dims.
Proof. unfold resolve_shape. apply resolve_of_nat_list. Qed.

(** A leading -1 is replaced by the number of entries divided by the product
    of the other dimensions. *)
Lemma resolve_shape_leading total dims :
  resolve_shape total ((-1)%Z :: map Z.of_nat dims)
  = (total / numel dims)%nat :: dims.
Proof.
  unfold resolve_shape.
  change (filter (fun d => negb (d =? -1)%Z) ((-1)%Z :: map Z.of_nat dims))
    with (filter (fun d => negb (d =? -1)%Z) (map Z.of_nat dims)).
  rewrite filter_not_minus_one, to_nat_of_nat_list.
  cbn [map]. change ((-1 =? -1)%Z) with true. cbv iota.
  f_equal. apply resolve_of_nat_list.
Qed.

Ltac range_solve :=
  repeat (apply in_range_cons; split; [first [assumption | lia | nia]|]);
  split; [reflexivity
         | let k := fresh "k" in
           let Hlen := fresh "Hlen" in
           intros k Hlen; simpl in Hlen; lia].

(** ** The convolutional capsule layer *)

Section CapsConv2DCall.

Variable epsilon : R.
Variable conv2d : tensor -> tensor.
Variables caps_filters caps_dims kernel_size : nat.
Variable inputs : tensor.
Variables batch rows cols : nat.
Hypothesis rows_pos : (0 < rows)%nat.
Hypothesis cols_pos : (0 < cols)%nat.
Hypothesis caps_filters_pos : (0 < caps_filters)%nat.
Hypothesis caps_dims_pos : (0 < caps_dims)%nat.
Hypothesis conv_shape :
  shape (conv2d inputs) = [batch; rows; cols; (caps_filters * caps_dims)%nat].

Let self := CapsConv2D.init caps_filters caps_dims kernel_size.
Let capsules :=
  reshape (conv2d inputs)
    [(-1)%Z; Z.of_nat rows; Z.of_nat cols;
     Z.of_nat (caps_filters * caps_dims / caps_dims); Z.of_nat caps_dims].
Let oshape := [batch; rows; cols; caps_filters; caps_dims].

Lemma capsconv2d_call_eq :
  CapsConv2D.call epsilon conv2d self inputs
  = Activations.squash epsilon capsules (-1).
Proof.
  unfold CapsConv2D.call, capsules. rewrite conv_shape. reflexivity.
Qed.

Lemma capsules_shape : shape capsules = oshape.
Proof.
  unfold capsules, reshape. cbn [shape]. rewrite conv_shape.
  change [(-1)%Z; Z.of_nat rows; Z.of_nat cols;
          Z.of_nat (caps_filters * caps_dims / caps_dims); Z.of_nat caps_dims]
    with ((-1)%Z :: map Z.of_nat
                      [rows; cols; (caps_filters * caps_dims / caps_dims)%nat;
                       caps_dims]).
  rewrite resolve_shape_leading, Nat.div_mul by lia.
  unfold oshape. f_equal. cbn [numel fold_right].
  symmetry. apply Nat.div_unique_exact; nia.
Qed.

(** Capsule [f] is made of the channels [f * caps_dims + d]. *)
Lemma capsules_entry b r c f d :
  (b < batch)%nat -> (r < rows)%nat -> (c < cols)%nat ->
  (f < caps_filters)%nat -> (d < caps_dims)%nat ->
  at_ capsules [b; r; c; f; d]
  = at_ (conv2d inputs) [b; r; c; (f * caps_dims + d)%nat].
Proof.
  intros Hb Hr Hc Hf Hd.
  assert (E : at_ capsules [b; r; c; f; d]
              = at_ (conv2d inputs)
                  (unravel (shape (conv2d inputs))
                     (ravel (shape capsules) [b; r; c; f; d]))) by reflexivity.
  rewrite E, capsules_shape, conv_shape. f_equal.
  replace (ravel oshape [b; r; c; f; d])
    with (ravel [batch; rows; cols; (caps_filters * caps_dims)%nat]
            [b; r; c; (f * caps_dims + d)%nat])
    by (unfold oshape; simpl; ring).
  apply unravel_ravel. range_solve.
Qed.

Lemma capsconv2d_call_result :
  exists capsules',
    CapsConv2D.call epsilon conv2d self inputs
    = Activations.squash epsilon capsules' (-1) /\
    shape capsules' = oshape /\
    shape (CapsConv2D.call epsilon conv2d self inputs) = oshape /\
    forall b r c f d,
      (b < batch)%nat -> (r < rows)%nat -> (c < cols)%nat ->
      (f < caps_filters)%nat -> (d < caps_dims)%nat ->
      at_ capsules' [b; r; c; f; d]
      = at_ (conv2d inputs) [b; r; c; (f * caps_dims + d)%nat].
Proof.
  exists capsules. split; [exact capsconv2d_call_eq|].
  split; [exact capsules_shape|]. split; [|exact capsules_entry].
  rewrite capsconv2d_call_eq, squash_shape_finite. exact capsules_shape.
Qed.

End CapsConv2DCall.

(** X16: when the convolution of the convolutional capsule layer gives a
    tensor of shape (batch, rows, cols, caps_filters * caps_dims), the
    layer's output has shape (batch, rows, cols, caps_filters, caps_dims) and
    is the squash, over the last axis, of the capsules cut from the channels:
    entry d of capsule f at a location is channel f * caps_dims + d at that
    location. *)
Theorem capsconv2d_call_capsules :
  forall (epsilon : R) (conv2d : tensor -> tensor)
         (caps_filters caps_dims kernel_size : nat) (inputs : tensor)
         (batch rows cols : nat),
    (0 < rows)%nat -> (0 < cols)%nat ->
    (0 < caps_filters)%nat -> (0 < caps_dims)%nat ->
    shape (conv2d inputs) = [batch; rows; cols; (caps_filters * caps_dims)%nat] ->
    let out :=
      CapsConv2D.call epsilon conv2d
        (CapsConv2D.init caps_filters caps_dims kernel_size) inputs in
    exists capsules,
      out = Activations.squash epsilon capsules (-1) /\
      shape capsules = [batch; rows; cols; caps_filters; caps_dims] /\
      shape out = [batch; rows; cols; caps_filters; caps_dims] /\
      forall b r c f d,
        (b < batch)%nat -> (r < rows)%nat -> (c < cols)%nat ->
        (f < caps_filters)%nat -> (d < caps_dims)%nat ->
        at_ capsules [b; r; c; f; d]
        = at_ (conv2d inputs) [b; r; c; (f * caps_dims + d)%nat].
Proof.
  intros epsilon conv2d cf cd ks inputs B rows cols Hr Hc Hcf Hcd Hs.
  exact (capsconv2d_call_result epsilon conv2d cf cd ks inputs B rows cols
           Hr Hc Hcf Hcd Hs).
Qed.

Lemma capsconv2d_call_capsules_witness :
  let epsilon := 1 / 10000000 in
  let conv2d := fun _ : tensor =>
    of_real [1; 2; 2; 6]%nat (fun idx => INR (nth 3 idx 0%nat) - 2) in
  let inputs := zeros [1; 4; 4; 1]%nat in
  ((0 < 2)%nat /\ (0 < 2)%nat /\ (0 < 3)%nat /\ (0 < 2)%nat) /\
  shape (conv2d inputs) = [1; 2; 2; (3 * 2)%nat]%nat /\
  let out := CapsConv2D.call epsilon conv2d (CapsConv2D.init 3 2 3) inputs in
  exists capsules,
    out = Activations.squash epsilon capsules (-1) /\
    shape capsules = [1; 2; 2; 3; 2]%nat /\
    shape out = [1; 2; 2; 3; 2]%nat /\
    forall b r c f d,
      (b < 1)%nat -> (r < 2)%nat -> (c < 2)%nat -> (f < 3)%nat -> (d < 2)%nat ->
      at_ capsules [b; r; c; f; d]
      = at_ (conv2d inputs) [b; r; c; (f * 2 + d)%nat].
Proof.
  intros epsilon conv2d inputs.
  split; [repeat split; lia|]. split; [reflexivity|].
  exact (capsconv2d_call_capsules epsilon conv2d 3 2 3 inputs 1 2 2
           ltac:(lia) ltac:(lia) ltac:(lia) ltac:(lia) eq_refl).
Defined.

(** ** The convolutional routing layer's call *)

(** X17: on a built convolutional routing layer with routing_iter >= 1, when
    the depthwise convolution gives a tensor of shape
    (batch, rows, cols, input_caps_filters, caps_filters * caps_dims), call
    is the dynamic routing of the prediction of shape
    (batch, rows, cols, input_caps_filters, caps_filters, caps_dims) whose
    entry d of capsule f is channel f * caps_dims + d of the convolution; it
    raises nothing and returns a tensor of shape
    (batch, rows, cols, caps_filters, caps_dims). *)
Theorem capsconv_call_shape :
  forall (epsilon : R) (conv3d : tensor -> tensor) (self : CapsConv.t)
         (inputs : tensor) (icf icd batch rows cols : nat),
    (1 <= CapsConv.routing_iter self)%Z ->
    CapsConv.input_caps_filters self = Dim (Some icf) ->
    CapsConv.input_caps_dims self = Dim (Some icd) ->
    (0 < rows)%nat -> (0 < cols)%nat -> (0 < icf)%nat ->
    (0 < CapsConv.caps_filters self)%nat -> (0 < CapsConv.caps_dims self)%nat ->
    let convolved :=
      conv3d (reshape inputs
                ((-1)%Z :: map Z.of_nat (slice 1 3 (shape inputs))
                   ++ [Z.of_nat (icf * icd); 1%Z])) in
    shape convolved
      = [batch; rows; cols; icf;
         (CapsConv.caps_filters self * CapsConv.caps_dims self)%nat] ->
    exists prediction t tr,
      shape prediction
      = [batch; rows; cols; icf; CapsConv.caps_filters self;
         CapsConv.caps_dims self] /\
      (forall b r c i f d,
         (b < batch)%nat -> (r < rows)%nat -> (c < cols)%nat -> (i < icf)%nat ->
         (f < CapsConv.caps_filters self)%nat ->
         (d < CapsConv.caps_dims self)%nat ->
         at_ prediction [b; r; c; i; f; d]
         = at_ convolved [b; r; c; i; (f * CapsConv.caps_dims self + d)%nat]) /\
      CapsConv.call epsilon conv3d self inputs []
      = CapsConv.dynamic_routing epsilon (CapsConv.routing_iter self)
          (CapsConv.caps_filters self) icf prediction [] /\
      CapsConv.call epsilon conv3d self inputs [] = (Ok (Tensor t), tr) /\
      shape t = [batch; rows; cols; CapsConv.caps_filters self;
                 CapsConv.caps_dims self].
Proof.
  intros epsilon conv3d self inputs icf icd B rows cols Hri Hicf Hicd
         Hr Hc Hi Hcf Hcd convolved Hs.
  unfold CapsConv.call. rewrite Hicf, Hicd. fold convolved. cbv zeta.
  rewrite Hs.
  change ((-1)%Z
          :: map Z.of_nat
               (slice 1 4
                  [B; rows; cols; icf;
                   (CapsConv.caps_filters self * CapsConv.caps_dims self)%nat])
             ++ [Z.of_nat (CapsConv.caps_filters self);
                 Z.of_nat (CapsConv.caps_dims self)])
    with ((-1)%Z
          :: map Z.of_nat [rows; cols; icf; CapsConv.caps_filters self;
                           CapsConv.caps_dims self]).
  set (cf := CapsConv.caps_filters self) in *.
  set (cd := CapsConv.caps_dims self) in *.
  set (prediction := reshape convolved
                       ((-1)%Z :: map Z.of_nat [rows; cols; icf; cf; cd])).
  assert (Hps : shape prediction = [B; rows; cols; icf; cf; cd]).
  { unfold prediction, reshape. cbn [shape].
    rewrite resolve_shape_leading, Hs. f_equal. cbn [numel fold_right].
    symmetry. apply Nat.div_unique_exact; nia. }
  destruct (conv_dynamic_routing_result epsilon B rows cols icf cf cd
              prediction Hps (CapsConv.routing_iter self) Hri)
    as [routed [tr [Erun [_ Hshape]]]].
  exists prediction, (Activations.squash epsilon routed (-1)), tr.
  split; [exact Hps|]. split; [|split; [reflexivity|split; assumption]].
  intros b r c i f d Hb Hrr Hcc Hii Hf Hd.
  assert (E : at_ prediction [b; r; c; i; f; d]
              = at_ convolved
                  (unravel (shape convolved)
                     (ravel (shape prediction) [b; r; c; i; f; d])))
    by reflexivity.
  rewrite E, Hps, Hs. f_equal.
  replace (ravel [B; rows; cols; icf; cf; cd] [b; r; c; i; f; d])
    with (ravel [B; rows; cols; icf; (cf * cd)%nat]
            [b; r; c; i; (f * cd + d)%nat])
    by (simpl; ring).
  apply unravel_ravel. range_solve.
Qed.

Lemma capsconv_call_shape_witness :
  let epsilon := 1 / 10000000 in
  let conv3d := fun _ : tensor =>
    of_real [1; 2; 2; 3; 8]%nat (fun idx => INR (nth 4 idx 0%nat) - 2) in
  let self :=
    CapsConv.mk 4 2 3 (Dim (Some 3%nat)) (Dim (Some 5%nat)) 8
      [Some 3; Some 3; Some 5]%nat [Some 1; Some 1; Some 5]%nat
      (Some [3; 3; 5; 1; 8]%nat) (Some 5%nat) true in
  let inputs := zeros [1; 4; 4; 3; 5]%nat in
  (1 <= CapsConv.routing_iter self)%Z /\
  CapsConv.input_caps_filters self = Dim (Some 3%nat) /\
  CapsConv.input_caps_dims self = Dim (Some 5%nat) /\
  ((0 < 2)%nat /\ (0 < 2)%nat /\ (0 < 3)%nat /\
   (0 < CapsConv.caps_filters self)%nat /\ (0 < CapsConv.caps_dims self)%nat) /\
  let convolved :=
    conv3d (reshape inputs
              ((-1)%Z :: map Z.of_nat (slice 1 3 (shape inputs))
                 ++ [Z.of_nat (3 * 5); 1%Z])) in
  shape convolved
    = [1; 2; 2; 3; CapsConv.caps_filters self * CapsConv.caps_dims self]%nat /\
  exists t tr,
    CapsConv.call epsilon conv3d self inputs [] = (Ok (Tensor t), tr) /\
    shape t = [1%nat; 2%nat; 2%nat; CapsConv.caps_filters self;
               CapsConv.caps_dims self].
Proof.
  intros epsilon conv3d self inputs.
  split; [simpl; lia|].
  split; [reflexivity|]. split; [reflexivity|].
  split; [simpl; repeat split; lia|].
  intros convolved. split; [reflexivity|].
  destruct (capsconv_call_shape epsilon conv3d self inputs 3 5 1 2 2
              ltac:(simpl; lia) eq_refl eq_refl ltac:(lia) ltac:(lia) ltac:(lia)
              ltac:(simpl; lia) ltac:(simpl; lia) eq_refl)
    as [prediction [t [tr [_ [_ [_ [Erun Hshape]]]]]]].
  exists t, tr. split; [exact Erun | exact Hshape].
Defined.

(** ** The dense routing layer's call *)

Section DenseCall.

Variable epsilon : R.
Variables batch rows cols input_caps_filters input_caps_dims : nat.
Variables caps caps_dims : nat.
Hypothesis caps_pos : (0 < caps)%nat.
Hypothesis caps_dims_pos : (0 < caps_dims)%nat.
Variable weights inputs : tensor.

Let input_caps := (rows * cols * input_caps_filters)%nat.

Hypothesis weights_shape :
  shape weights = [1%nat; input_caps; caps; caps_dims; input_caps_dims].
Hypothesis inputs_shape :
  shape inputs = [batch; rows; cols; input_caps_filters; input_caps_dims].

Let flat := reshape inputs
              [Z.of_nat batch; Z.of_nat input_caps; Z.of_nat input_caps_dims].
Let column := expand_dims flat (-1).
Let spread := expand_dims column 2.
Let tiled_inputs := tile spread [1; 1; caps; 1; 1]%nat.
Let tiled_w := tile weights [batch; 1; 1; 1; 1]%nat.
Let prediction := matmul tiled_w tiled_inputs.

Lemma flat_shape : shape flat = [batch; input_caps; input_caps_dims].
Proof.
  unfold flat, reshape. cbn [shape].
  change [Z.of_nat batch; Z.of_nat input_caps; Z.of_nat input_caps_dims]
    with (map Z.of_nat [batch; input_caps; input_caps_dims]).
  apply resolve_shape_given.
Qed.

Lemma column_shape : shape column = [batch; input_caps; input_caps_dims; 1%nat].
Proof.
  unfold column, expand_dims, rank. cbn [shape]. rewrite flat_shape. reflexivity.
Qed.

Lemma spread_shape :
  shape spread = [batch; input_caps; 1%nat; input_caps_dims; 1%nat].
Proof.
  unfold spread, expand_dims, rank. cbn [shape]. rewrite column_shape.
  reflexivity.
Qed.

Lemma tiled_inputs_shape :
  shape tiled_inputs = [batch; input_caps; caps; input_caps_dims; 1%nat].
Proof.
  unfold tiled_inputs, tile, rank. cbn [shape]. rewrite spread_shape.
  unfold tabulate. simpl. repeat (f_equal; try lia).
Qed.

Lemma tiled_w_shape :
  shape tiled_w = [batch; input_caps; caps; caps_dims; input_caps_dims].
Proof.
  unfold tiled_w, tile, rank. cbn [shape]. rewrite weights_shape.
  unfold tabulate. simpl. repeat (f_equal; try lia).
Qed.

Lemma prediction_shape :
  shape prediction = [batch; input_caps; caps; caps_dims; 1%nat].
Proof.
  unfold prediction, matmul, rank. cbn [shape].
  rewrite tiled_w_shape, tiled_inputs_shape. reflexivity.
Qed.

Lemma final_reshape_shape rp :
  shape rp = [batch; 1%nat; caps; caps_dims; 1%nat] ->
  shape (reshape rp [(-1)%Z; Z.of_nat caps; Z.of_nat caps_dims])
  = [batch; caps; caps_dims].
Proof.
  intros Hs. unfold reshape. cbn [shape].
  change [(-1)%Z; Z.of_nat caps; Z.of_nat caps_dims]
    with ((-1)%Z :: map Z.of_nat [caps; caps_dims]).
  rewrite resolve_shape_leading, Hs. f_equal. cbn [numel fold_right].
  symmetry. apply Nat.div_unique_exact; nia.
Qed.

Lemma dense_call_result (self : CapsDense.t) :
  CapsDense.caps self = caps -> CapsDense.caps_dims self = caps_dims ->
  CapsDense.input_caps self = Dim (Some input_caps) ->
  CapsDense.input_caps_dims self = Dim (Some input_caps_dims) ->
  exists t tr,
    CapsDense.call epsilon weights self inputs [] = (Ok t, tr) /\
    shape t = [batch; caps; caps_dims].
Proof.
  intros Hc Hd Hic Hicd.
  unfold CapsDense.call. rewrite Hic, Hicd, Hc, Hd, inputs_shape.
  cbn [nth]. fold flat. fold column. fold spread. fold tiled_inputs.
  fold tiled_w. fold prediction.
  destruct (dense_dynamic_routing_result epsilon batch input_caps
              caps caps_dims prediction prediction_shape
              (CapsDense.routing_iter self))
    as [summed [tr [Erp [_ Hrs]]]].
  eexists. exists tr. split; [|exact (final_reshape_shape _ Hrs)].
  unfold bind, ret. rewrite Erp. reflexivity.
Qed.

End DenseCall.

(** X18: on a built dense routing layer with a positive number of output
    capsules and capsule dimensions, a weight of shape
    (1, input_caps, caps, caps_dims, input_caps_dims) and an input of shape
    (batch, rows, cols, input_caps_filters, input_caps_dims), where
    input_caps = rows * cols * input_caps_filters, call raises nothing, for
    any routing_iter, and returns a tensor of shape (batch, caps, caps_dims). *)
Theorem capsdense_call_shape :
  forall (epsilon : R) (weights : tensor) (self : CapsDense.t) (inputs : tensor)
         (batch rows cols icf icd : nat),
    (0 < CapsDense.caps self)%nat -> (0 < CapsDense.caps_dims self)%nat ->
    CapsDense.input_caps self = Dim (Some (rows * cols * icf)%nat) ->
    CapsDense.input_caps_dims self = Dim (Some icd) ->
    shape weights
      = [1%nat; (rows * cols * icf)%nat; CapsDense.caps self;
         CapsDense.caps_dims self; icd] ->
    shape inputs = [batch; rows; cols; icf; icd] ->
    exists t tr,
      CapsDense.call epsilon weights self inputs [] = (Ok t, tr) /\
      shape t = [batch; CapsDense.caps self; CapsDense.caps_dims self].
Proof.
  intros epsilon weights self inputs B rows cols icf icd Hc Hd Hic Hicd
         Hws His.
  exact (dense_call_result epsilon B rows cols icf icd
           (CapsDense.caps self) (CapsDense.caps_dims self) Hc Hd
           weights inputs Hws His self eq_refl eq_refl Hic Hicd).
Qed.

(** Two inputs of shape (6, 6, 8, 8) into a layer of 10 capsules of
    dimension 16 with 3 routing iterations. *)
Lemma capsdense_call_shape_witness :
  let epsilon := 1 / 10000000 in
  let self :=
    CapsDense.mk 10 16 3 (Dim (Some (6 * 6 * 8)%nat)) (Dim (Some 8%nat))
      (Some [1; 288; 10; 16; 8]%nat) true in
  let weights :=
    of_real [1; 6 * 6 * 8; 10; 16; 8]%nat (fun idx => INR (nth 3 idx 0%nat) - 7) in
  let inputs :=
    of_real [2; 6; 6; 8; 8]%nat (fun idx => INR (nth 4 idx 0%nat) - 3) in
  ((0 < CapsDense.caps self)%nat /\ (0 < CapsDense.caps_dims self)%nat) /\
  CapsDense.input_caps self = Dim (Some (6 * 6 * 8)%nat) /\
  CapsDense.input_caps_dims self = Dim (Some 8%nat) /\
  shape weights
    = [1%nat; (6 * 6 * 8)%nat; CapsDense.caps self; CapsDense.caps_dims self;
       8%nat] /\
  shape inputs = [2; 6; 6; 8; 8]%nat /\
  exists t tr,
    CapsDense.call epsilon weights self inputs [] = (Ok t, tr) /\
    shape t = [2%nat; CapsDense.caps self; CapsDense.caps_dims self].
Proof.
  intros epsilon self weights inputs.
  split; [split; simpl; lia|].
  split; [reflexivity|]. split; [reflexivity|]. split; [reflexivity|].
  split; [reflexivity|].
  exact (capsdense_call_shape epsilon weights self inputs 2 6 6 8 8
           ltac:(simpl; lia) ltac:(simpl; lia) eq_refl eq_refl eq_refl eq_refl).
Defined.

(** ** The configuration of the dense layer *)

Lemma config_get_update key k v config :
  config_get key
    ((k, v) :: filter (fun e => negb (String.eqb (fst e) k)) config)
  = if String.eqb k key then Some v else config_get key config.
Proof.
  unfold config_get. simpl. destruct (String.eqb_spec k key) as [->|Hne];
    [reflexivity|].
  induction config as [|[k' v'] rest IH]; [reflexivity|].
  simpl. destruct (String.eqb_spec k' k) as [->|Hne']; simpl.
  - destruct (String.eqb_spec k key) as [E|_]; [contradiction | exact IH].
  - destruct (String.eqb k' key); [reflexivity | exact IH].
Qed.

(** X19: get_config returns the base configuration with the five entries of
    the layer: each of caps, caps_dims, routing_iter, input_caps and
    input_caps_dims holds the layer's value whatever the base configuration
    held for it, and every other key holds what the base configuration holds. *)
Theorem get_config_entries :
  forall (base : list (string * CapsDense.config_value)) (self : CapsDense.t),
    let config := CapsDense.get_config base self in
    config_get "caps" config
      = Some (CapsDense.CInt (Z.of_nat (CapsDense.caps self))) /\
    config_get "caps_dims" config
      = Some (CapsDense.CInt (Z.of_nat (CapsDense.caps_dims self))) /\
    config_get "routing_iter" config
      = Some (CapsDense.CInt (CapsDense.routing_iter self)) /\
    config_get "input_caps" config
      = Some (CapsDense.CAttr (CapsDense.input_caps self)) /\
    config_get "input_caps_dims" config
      = Some (CapsDense.CAttr (CapsDense.input_caps_dims self)) /\
    forall key,
      ~ In key ["caps"; "caps_dims"; "routing_iter"; "input_caps";
                "input_caps_dims"]%string ->
      config_get key config = config_get key base.
Proof.
  intros base self config. unfold config, CapsDense.get_config.
  cbn [fold_left fst].
  repeat split; try (rewrite !config_get_update; reflexivity).
  intros key Hkey. rewrite !config_get_update.
  repeat match goal with
         | |- context [String.eqb ?k key] =>
             destruct (String.eqb_spec k key) as [E|_];
             [exfalso; apply Hkey; rewrite <- E; simpl; tauto|]
         end.
  reflexivity.
Qed.

Lemma get_config_entries_witness :
  let base := [("name", CapsDense.CInt 7); ("caps", CapsDense.CInt 99)]%string in
  let self := CapsDense.init 10 16 3 in
  let config := CapsDense.get_config base self in
  ~ In "name"%string
      ["caps"; "caps_dims"; "routing_iter"; "input_caps"; "input_caps_dims"]%string /\
  config_get "caps" config = Some (CapsDense.CInt 10) /\
  config_get "name" config = config_get "name" base.
Proof.
  intros base self config.
  assert (Hname : ~ In "name"%string
                      ["caps"; "caps_dims"; "routing_iter"; "input_caps";
                       "input_caps_dims"]%string).
  { simpl. intros [H|[H|[H|[H|[H|[]]]]]]; discriminate H. }
  destruct (get_config_entries base self) as [Hcaps [_ [_ [_ [_ Hother]]]]].
  split; [exact Hname|]. split; [exact Hcaps | exact (Hother _ Hname)].
Defined.

(** ** The first routing pass *)

(** X20: with routing_iter = 1 the convolutional dynamic routing returns the
    squash, over caps_dims, of the predictions summed over the input capsule
    filters and divided by rows * cols * caps_filters. *)
Theorem conv_single_pass_routing :
  forall (epsilon : R) (batch rows cols input_caps_filters caps_filters
          caps_dims : nat) (p : list nat -> R),
    let prediction :=
      of_real [batch; rows; cols; input_caps_filters; caps_filters; caps_dims] p in
    exists routed tr,
      CapsConv.dynamic_routing epsilon 1 caps_filters input_caps_filters
        prediction []
      = (Ok (Tensor (Activations.squash epsilon routed (-1))), tr) /\
      shape routed = [batch; rows; cols; caps_filters; caps_dims] /\
      forall b q r s u,
        (b < batch)%nat -> (q < rows)%nat -> (r < cols)%nat ->
        (s < caps_filters)%nat -> (u < caps_dims)%nat ->
        at_ routed [b; q; r; s; u]
        = Some (rsum_n input_caps_filters (fun t => p [b; q; r; t; s; u])
                / INR (rows * cols * caps_filters)).
Proof.
  intros epsilon B rows cols T S U p prediction.
  set (w := CapsConv.initial_weight S T prediction).
  set (cc := tdiv (texp w) (reduce_sum_keep (texp w) [1; 2; 3]%nat)).
  assert (Hcs : shape cc = [B; rows; cols; S; T])
    by (unfold cc; now rewrite (normalised_shape w)).
  exists (einsum_pqrst_pqrtsu cc prediction). eexists.
  split; [reflexivity|]. split.
  { unfold einsum_pqrst_pqrtsu. cbn [shape]. now rewrite Hcs. }
  intros b q r s u Hb Hq Hr Hs Hu.
  unfold einsum_pqrst_pqrtsu. cbn [at_]. rewrite Hcs. cbn [nth].
  unfold ssum_n, sadd.
  rewrite (fold_n_lift Rplus (Some 0) 0 T _
             (fun t => p [b; q; r; t; s; u] * (1 / INR (rows * cols * S)))).
  - f_equal. fold (rsum_n T (fun t => p [b; q; r; t; s; u]
                                      * (1 / INR (rows * cols * S)))).
    rewrite rsum_n_scal. unfold Rdiv. ring.
  - now right.
  - intros t Ht.
    destruct (conv_uniform_coupling B rows cols S T [T; S; U] prediction
                [b; q; r; s; t] eq_refl) as [cc' [Ecc Hcc]];
      [now apply in_range_5|].
    injection Ecc as <-. fold w in Hcc. fold cc in Hcc. rewrite Hcc.
    unfold prediction, of_real. cbn [at_ smul lift2]. f_equal. ring.
Qed.

(** X21: with routing_iter zero or negative the dense dynamic routing
    returns the squash, over caps_dims, of the predictions summed over the
    input capsules and divided by caps. *)
Theorem dense_warm_up_routing :
  forall (epsilon : R) (routing_iter : Z) (batch input_caps caps caps_dims : nat)
         (p : list nat -> R),
    (routing_iter <= 0)%Z ->
    let prediction := of_real [batch; input_caps; caps; caps_dims; 1%nat] p in
    exists summed tr,
      CapsDense.dynamic_routing epsilon routing_iter batch input_caps caps
        prediction []
      = (Ok (Activations.squash epsilon summed (-2)), tr) /\
      shape summed = [batch; 1%nat; caps; caps_dims; 1%nat] /\
      forall b c d,
        (b < batch)%nat -> (c < caps)%nat -> (d < caps_dims)%nat ->
        at_ summed [b; 0%nat; c; d; 0%nat]
        = Some (rsum_n input_caps (fun i => p [b; i; c; d; 0%nat]) / INR caps).
Proof.
  intros epsilon routing_iter B IC C D p Hri prediction.
  set (w := zeros [B; IC; C; 1; 1]%nat).
  set (prob_w := tf_nn_softmax w 2).
  assert (Hps : shape prob_w = [B; IC; C; 1; 1]%nat)
    by (unfold prob_w, tf_nn_softmax; now rewrite (normalised_shape w)).
  assert (Hs : shape (tmul prob_w prediction) = [B; IC; C; D; 1%nat]).
  { unfold tmul, bop. cbn [shape]. rewrite Hps.
    unfold prediction, of_real. cbn [shape].
    unfold bshape, tabulate. simpl. split_eqb; reflexivity. }
  exists (reduce_sum_keep (tmul prob_w prediction) [1%nat]). eexists.
  split; [|split].
  - unfold CapsDense.dynamic_routing.
    replace (Z.to_nat routing_iter) with 0%nat by lia. reflexivity.
  - unfold reduce_sum_keep. cbn [shape]. now rewrite Hs.
  - intros b c d Hb Hc Hd.
    unfold reduce_sum_keep. cbn [at_].
    rewrite Hs. unfold ssum_over, sadd. cbn [dims_of map nth fold_over].
    rewrite (fold_n_lift Rplus (Some 0) 0 IC _
               (fun i => p [b; i; c; d; 0%nat] * (1 / INR C))).
    + f_equal. fold (rsum_n IC (fun i => p [b; i; c; d; 0%nat] * (1 / INR C))).
      rewrite rsum_n_scal. unfold Rdiv. ring.
    + now right.
    + intros i Hi.
      change (upd [b; 0%nat; c; d; 0%nat] 1 i) with [b; i; c; d; 0%nat].
      assert (Hr : in_range [B; IC; C; D; 1%nat] [b; i; c; d; 0%nat])
        by (apply in_range_5; lia).
      rewrite at_bval by now rewrite Hs.
      unfold tmul. rewrite bval_bop.
      assert (Hp : bval prob_w [b; i; c; d; 0%nat] = Some (1 / INR C)).
      { unfold bval. rewrite Hps.
        apply dense_uniform_coupling.
        unfold bidx, tabulate. simpl. apply in_range_5; split_eqb; lia. }
      rewrite Hp.
      rewrite (bval_finite prediction p) by (trivial; apply finite_of_real).
      cbn [smul lift2]. f_equal. ring.
Qed.

Lemma dense_warm_up_routing_witness :
  let p := fun idx => INR (nth 1 idx 0%nat) in
  let prediction := of_real [1; 2; 3; 4; 1]%nat p in
  (0 <= 0)%Z /\
  exists summed tr,
    CapsDense.dynamic_routing (1 / 10000000) 0 1 2 3 prediction []
    = (Ok (Activations.squash (1 / 10000000) summed (-2)), tr) /\
    shape summed = [1; 1; 3; 4; 1]%nat /\
    forall b c d,
      (b < 1)%nat -> (c < 3)%nat -> (d < 4)%nat ->
      at_ summed [b; 0%nat; c; d; 0%nat]
      = Some (rsum_n 2 (fun i => p [b; i; c; d; 0%nat]) / INR 3).
Proof.
  intros p prediction. split; [lia|].
  exact (dense_warm_up_routing (1 / 10000000) 0 1 2 3 4 p ltac:(lia)).
Defined.

Lemma conv_single_pass_routing_witness :
  let p := fun idx => INR (nth 3 idx 0%nat) in
  let prediction := of_real [1; 2; 2; 3; 4; 5]%nat p in
  ((0 < 1)%nat /\ (1 < 2)%nat /\ (1 < 2)%nat /\ (3 < 4)%nat /\ (4 < 5)%nat) /\
  exists routed tr,
    CapsConv.dynamic_routing (1 / 10000000) 1 4 3 prediction []
    = (Ok (Tensor (Activations.squash (1 / 10000000) routed (-1))), tr) /\
    shape routed = [1; 2; 2; 4; 5]%nat /\
    at_ routed [0; 1; 1; 3; 4]%nat
    = Some (rsum_n 3 (fun t => p [0; 1; 1; t; 3; 4]%nat) / INR (2 * 2 * 4)).
Proof.
  intros p prediction. split; [repeat split; lia|].
  destruct (conv_single_pass_routing (1 / 10000000) 1 2 2 3 4 5 p)
    as [routed [tr [Erun [Hshape Hentry]]]].
  exists routed, tr. split; [exact Erun|]. split; [exact Hshape|].
  apply Hentry; lia.
Defined.
